(** * insta-gift: the two API route handlers, embedded and verified

    The repository holds two Next.js route handlers:
    - the recommendation endpoint ([Recommend.POST]), which compresses an
      uploaded profile image, asks a hosted language model for an analysis
      and for gift recommendations, and parses the model's reply
      defensively;
    - the scrape endpoint ([Scrape.POST]), which drives a headless browser
      over a public profile, asks the model for an analysis and extracts a
      set of interests from hashtags, captions and the biography.

    The handlers are written in TypeScript and lean on the ECMAScript
    runtime (strings of UTF-16 code units, regular expressions, [JSON.parse],
    [parseFloat], [encodeURIComponent], ...).  Module [JS] models the part of
    that runtime the handlers use; the modules [Recommend] and [Scrape]
    transcribe the handlers themselves, function by function, over a small
    monad of external calls. *)

From Stdlib Require Import String Ascii.
From Stdlib Require Import ZArith NArith List Bool Lia.
From Stdlib Require Import Floats.SpecFloat.
Import ListNotations.

Set Implicit Arguments.

(* ===================================================================== *)
(** * Part I: definitions                                                 *)
(* ===================================================================== *)

(** ** Exceptions *)

(** What a [throw] carries.  The handlers never inspect the error they
    catch (they log it and fall back), so the kind is all that is kept. *)
Inductive exn : Type :=
| TypeError
| SyntaxError
| URIError
| ExternalError.   (* a rejected promise of an external service *)

(** A computation that may throw: [inl e] is [throw e], [inr x] returns. *)
Definition result (A : Type) : Type := (exn + A)%type.

Definition ok {A} (x : A) : result A := inr x.
Definition throw {A} (e : exn) : result A := inl e.

Definition rbind {A B} (c : result A) (k : A -> result B) : result B :=
  match c with
  | inl e => inl e
  | inr x => k x
  end.

Declare Scope js_scope.
Delimit Scope js_scope with js.
Notation "x <- c ;; k" := (rbind c (fun x => k))
  (at level 61, c at next level, right associativity) : js_scope.

(** [mapM f l] is [l.map(f)] for a callback that may throw: the first
    exception aborts the whole map. *)
Fixpoint mapM {A B} (f : A -> result B) (l : list A) : result (list B) :=
  match l with
  | [] => ok []
  | x :: l' =>
      match f x with
      | inl e => inl e
      | inr y =>
          match mapM f l' with
          | inl e => inl e
          | inr ys => ok (y :: ys)
          end
      end
  end.

(* ===================================================================== *)
(** ** The ECMAScript runtime                                             *)
(* ===================================================================== *)

Module JS.

(** *** Strings *)

(** A JavaScript string is a sequence of UTF-16 code units; [length] counts
    code units. *)
Definition codeunit := N.
Definition jsstring := list codeunit.

Definition cu_of_ascii (a : ascii) : codeunit := N_of_ascii a.

(** ASCII literals, for writing the source's string constants. *)
Definition lit (s : string) : jsstring := map cu_of_ascii (list_ascii_of_string s).

(** The same with every apostrophe read as a double quote (code unit 34),
    for writing JSON texts. *)
Definition litq (s : string) : jsstring :=
  map (fun c => if N.eqb c 39 then 34%N else c) (lit s).

Fixpoint str_eqb (a b : jsstring) : bool :=
  match a, b with
  | [], [] => true
  | x :: a', y :: b' => N.eqb x y && str_eqb a' b'
  | _, _ => false
  end.

(** [s.slice(from)] and [s.slice(0, to)] for non-negative arguments. *)
Definition slice_from (from : nat) (s : jsstring) : jsstring := skipn from s.
Definition slice_to (to : nat) (s : jsstring) : jsstring := firstn to s.

(** *** Character classes *)

Definition in_range (lo hi c : N) : bool := N.leb lo c && N.leb c hi.

(** WhiteSpace and LineTerminator code points: what [\s] matches and what
    [trim] strips. *)
Definition is_space (c : codeunit) : bool :=
  in_range 9 13 c || N.eqb c 32 || N.eqb c 160 || N.eqb c 5760
  || in_range 8192 8202 c || N.eqb c 8232 || N.eqb c 8233
  || N.eqb c 8239 || N.eqb c 8287 || N.eqb c 12288 || N.eqb c 65279.

Definition is_digit (c : codeunit) : bool := in_range 48 57 c.
Definition is_upper (c : codeunit) : bool := in_range 65 90 c.
Definition is_lower (c : codeunit) : bool := in_range 97 122 c.

(** [\w] without the unicode flag: ASCII letters, digits and underscore. *)
Definition is_word (c : codeunit) : bool :=
  is_upper c || is_lower c || is_digit c || N.eqb c 95.

Definition ascii_lower (c : codeunit) : codeunit :=
  if is_upper c then (c + 32)%N else c.
Definition ascii_upper (c : codeunit) : codeunit :=
  if is_lower c then (c - 32)%N else c.

(** *** Regular expressions

    Every regular expression of the two handlers is a sequence of character
    classes, each taken once, or under a greedy [*] or [+]; there is no
    alternation, group or back-reference.  The matcher below is the
    backtracking matcher of the language restricted to that fragment: a
    quantified class first takes as many code units as it can and gives
    them back one at a time while the rest of the pattern fails. *)

Inductive quant := One | Star | Plus.

Record atom := Atom { cls : codeunit -> bool; qnt : quant }.

Definition regex := list atom.

(** Length of the longest prefix of [s] whose code units are all in [p]. *)
Fixpoint span (p : codeunit -> bool) (s : jsstring) : nat :=
  match s with
  | c :: s' => if p c then S (span p s') else 0
  | [] => 0
  end.

(** Try to continue with [k] code units taken, then [k - 1], ..., down to
    [lo]. *)
Fixpoint greedy (cont : jsstring -> option nat) (s : jsstring) (lo k : nat)
  : option nat :=
  if Nat.ltb k lo then None
  else
    match cont (skipn k s) with
    | Some n => Some (k + n)
    | None =>
        match k with
        | 0 => None
        | S k' => greedy cont s lo k'
        end
    end.

(** [match_here r s]: the length of the match of [r] anchored at the start
    of [s], if there is one. *)
Fixpoint match_here (r : regex) (s : jsstring) : option nat :=
  match r with
  | [] => Some 0
  | a :: r' =>
      match qnt a with
      | One =>
          match s with
          | c :: s' =>
              if cls a c then option_map S (match_here r' s') else None
          | [] => None
          end
      | Star => greedy (match_here r') s 0 (span (cls a) s)
      | Plus => greedy (match_here r') s 1 (span (cls a) s)
      end
  end.

(** [s.match(r)] for a regular expression without the [g] flag: the
    leftmost match ([jsonMatch[0]]), or [None] for [null]. *)
Fixpoint match_first (r : regex) (s : jsstring) : option jsstring :=
  match match_here r s with
  | Some n => Some (firstn n s)
  | None =>
      match s with
      | [] => None
      | _ :: s' => match_first r s'
      end
  end.

(** The successive matches of a [g] regular expression, left to right.
    [skip] counts the code units of the current match still to be passed
    over; after an empty match the scan moves on by one code unit. *)
Fixpoint scan_matches (r : regex) (s : jsstring) (skip : nat) : list jsstring :=
  match s with
  | [] =>
      match skip, match_here r [] with
      | 0, Some _ => [[]]
      | _, _ => []
      end
  | _ :: s' =>
      match skip with
      | S k => scan_matches r s' k
      | 0 =>
          match match_here r s with
          | Some n => firstn n s :: scan_matches r s' (Nat.pred n)
          | None => scan_matches r s' 0
          end
      end
  end.

(** [s.match(r)] for a [g] regular expression: [null] when nothing
    matches. *)
Definition match_all (r : regex) (s : jsstring) : option (list jsstring) :=
  match scan_matches r s 0 with
  | [] => None
  | ms => Some ms
  end.

(** [s.replace(r, rep)] for a [g] regular expression and a replacement
    string free of [$] patterns (all replacement strings of the handlers
    are). *)
Fixpoint replace_all (r : regex) (rep : jsstring) (s : jsstring) (skip : nat)
  : jsstring :=
  match s with
  | [] =>
      match skip, match_here r [] with
      | 0, Some _ => rep
      | _, _ => []
      end
  | c :: s' =>
      match skip with
      | S k => replace_all r rep s' k
      | 0 =>
          match match_here r s with
          | Some 0 => rep ++ c :: replace_all r rep s' 0
          | Some (S k) => rep ++ replace_all r rep s' k
          | None => c :: replace_all r rep s' 0
          end
      end
  end.

Definition replace (r : regex) (rep : jsstring) (s : jsstring) : jsstring :=
  replace_all r rep s 0.

(** [s.split(r)] without a limit.  [cur] holds, reversed, the code units
    since the end of the last separator; a separator that is empty and
    starts where the last one ended does not split. *)
Fixpoint split_loop (r : regex) (s : jsstring) (cur : jsstring) (skip : nat)
  : list jsstring :=
  match s with
  | [] => [rev cur]
  | c :: s' =>
      match skip with
      | S k => split_loop r s' [] k
      | 0 =>
          match match_here r s with
          | Some 0 =>
              match cur with
              | [] => split_loop r s' [c] 0
              | _ => rev cur :: split_loop r s' [c] 0
              end
          | Some (S k) => rev cur :: split_loop r s' [] k
          | None => split_loop r s' (c :: cur) 0
          end
      end
  end.

Definition split (r : regex) (s : jsstring) : list jsstring :=
  match s with
  | [] =>
      match match_here r [] with
      | Some _ => []
      | None => [[]]
      end
  | _ => split_loop r s [] 0
  end.

(** [s.trim()] and the leading half of it. *)
Fixpoint trim_start (s : jsstring) : jsstring :=
  match s with
  | c :: s' => if is_space c then trim_start s' else s
  | [] => []
  end.

Definition trim_end (s : jsstring) : jsstring := rev (trim_start (rev s)).

Definition trim (s : jsstring) : jsstring := trim_end (trim_start s).

(** Character classes of the patterns: [oneof "$,"] is [[$,]], [codes]
    lists code units by number, [wordc] is [\w], [spacec] is [\s]. *)
Definition codes (l : list codeunit) : codeunit -> bool :=
  fun c => existsb (N.eqb c) l.
Definition oneof (s : string) : codeunit -> bool := codes (lit s).
Definition anyc : codeunit -> bool := fun _ => true.
Definition wordc : codeunit -> bool := is_word.
Definition nonwordc : codeunit -> bool := fun c => negb (is_word c).
Definition spacec : codeunit -> bool := is_space.
(** A pattern character under the [i] flag.  Without the [u] flag a code
    unit of 128 or more never canonicalizes to an ASCII letter, so an ASCII
    letter matches its two cases and nothing else. *)
Definition nocase (s : string) : codeunit -> bool :=
  fun x => existsb (fun c => N.eqb x (ascii_lower c) || N.eqb x (ascii_upper c))
                   (lit s).

Definition one (p : codeunit -> bool) : atom := Atom p One.
Definition star (p : codeunit -> bool) : atom := Atom p Star.
Definition plus (p : codeunit -> bool) : atom := Atom p Plus.

(** *** Numbers

    A Number is an IEEE 754 binary64 value: the Standard Library's
    [spec_float] at precision 53 and maximal exponent 1024.  The values
    built below are in canonical form, so that two of them are the same
    Number exactly when they are equal terms (NaN apart, which is one
    term here). *)

Definition number := spec_float.
Definition prec : Z := 53.
Definition emax : Z := 1024.

Definition NaN : number := S754_nan.
Definition Infinity (neg : bool) : number := S754_infinity neg.
Definition zero (neg : bool) : number := S754_zero neg.

(** The Number for the integer [(-1)^neg * m]. *)
Definition of_N (neg : bool) (m : N) : number :=
  match m with
  | N0 => zero neg
  | Npos p => binary_round prec emax neg p 0
  end.

(** The Number for [(-1)^neg * m * 10^e], rounded to nearest, ties to even:
    the rounding of a decimal literal. *)
Definition of_decimal (neg : bool) (m : N) (e : Z) : number :=
  match m with
  | N0 => zero neg
  | Npos p =>
      match e with
      | Zneg k =>
          let '(q, e', l) :=
            SFdiv_core_binary prec emax (Zpos p) 0 (Zpos (Pos.pow 10 k)) 0 in
          binary_round_aux prec emax neg q e' l
      | Zpos k => binary_round prec emax neg (p * Pos.pow 10 k) 0
      | Z0 => binary_round prec emax neg p 0
      end
  end.

Definition is_nan (x : number) : bool :=
  match x with S754_nan => true | _ => false end.
Definition is_zero (x : number) : bool :=
  match x with S754_zero _ => true | _ => false end.

(** Sameness of two canonical Numbers (the [SameValue] of the language). *)
Definition same_number (x y : number) : bool :=
  match x, y with
  | S754_nan, S754_nan => true
  | S754_zero a, S754_zero b => Bool.eqb a b
  | S754_infinity a, S754_infinity b => Bool.eqb a b
  | S754_finite a m e, S754_finite b m' e' =>
      Bool.eqb a b && Pos.eqb m m' && Z.eqb e e'
  | _, _ => false
  end.

(** Decimal digits of a natural number, most significant first; [fuel]
    bounds the number of digits. *)
Fixpoint digits_fuel (fuel : nat) (n : N) (acc : jsstring) : jsstring :=
  match fuel with
  | O => acc
  | S f =>
      let acc' := (48 + N.modulo n 10)%N :: acc in
      if N.ltb n 10 then acc' else digits_fuel f (N.div n 10) acc'
  end.

Definition digits_of_N (n : N) : jsstring :=
  digits_fuel (S (N.to_nat (N.log2 n))) n [].

(** [Number::toString] in radix 10.  For a finite positive value
    [v = num / den] the language asks for integers [n], [k] and [s] with
    [k] as small as possible, [10^(k-1) <= s < 10^k] and [s * 10^(n-k)]
    rounding to [v]; among several [s] the one closest to [v] is taken. *)

(** The least [n], from [n0] on, with [a / b < 10^(n - n0)]. *)
Fixpoint find_exponent (fuel : nat) (n : Z) (a b : Z) : Z :=
  match fuel with
  | O => n
  | S f => if Z.ltb a b then n else find_exponent f (n + 1) a (b * 10)
  end.

(** The least [n] with [v < 10^n]; doubles lie between [10^-324] and
    [10^309]. *)
Definition decimal_exponent (num den : Z) : Z :=
  find_exponent 700 (-330) (num * 10 ^ 330) den.

(** The candidates with [k] digits: the two multiples of [10^(n-k)] around
    [v]. *)
Definition candidate (v : number) (num den n : Z) (k : Z) : option (Z * Z) :=
  let d := (n - k)%Z in
  let sn := if Z.leb 0 d then num else (num * 10 ^ (- d))%Z in
  let sd := if Z.leb 0 d then (den * 10 ^ d)%Z else den in
  let lo := Z.div sn sd in
  let hi := (lo + 1)%Z in
  let back s := same_number (of_decimal false (Z.to_N s) d) v in
  let pick_hi := if Z.eqb hi (10 ^ k) then Some (1, n + 1)%Z else Some (hi, n) in
  match back lo, back hi with
  | true, false => Some (lo, n)
  | false, true => pick_hi
  | true, true =>
      match Z.compare (2 * sn) ((2 * lo + 1) * sd) with
      | Lt => Some (lo, n)
      | Gt => pick_hi
      | Eq => if Z.even lo then Some (lo, n) else pick_hi
      end
  | false, false => None
  end.

Fixpoint shortest (fuel : nat) (v : number) (num den n : Z) (k : Z)
  : Z * Z :=
  match fuel with
  | O => (0, n)%Z
  | S f =>
      match candidate v num den n k with
      | Some r => r
      | None => shortest f v num den n (k + 1)
      end
  end.

Definition zeros (n : nat) : jsstring := repeat 48%N n.

(** Steps 6 to 10 of [Number::toString]: [digits] are the [k] digits of
    [s]. *)
Definition format_decimal (digits : jsstring) (n : Z) : jsstring :=
  let k := Z.of_nat (length digits) in
  if Z.leb k n && Z.leb n 21 then
    digits ++ zeros (Z.to_nat (n - k))
  else if Z.ltb 0 n && Z.leb n 21 then
    firstn (Z.to_nat n) digits ++ lit "." ++ skipn (Z.to_nat n) digits
  else if Z.ltb (-6) n && Z.leb n 0 then
    lit "0." ++ zeros (Z.to_nat (- n)) ++ digits
  else
    let e := (n - 1)%Z in
    let exponent :=
      lit "e" ++ (if Z.ltb e 0 then lit "-" else lit "+")
      ++ digits_of_N (Z.to_N (Z.abs e)) in
    match digits with
    | [d] => d :: exponent
    | d :: ds => d :: lit "." ++ ds ++ exponent
    | [] => exponent
    end.

Definition number_to_string (x : number) : jsstring :=
  match x with
  | S754_nan => lit "NaN"
  | S754_zero _ => lit "0"
  | S754_infinity false => lit "Infinity"
  | S754_infinity true => lit "-Infinity"
  | S754_finite neg m e =>
      let num := match e with Zpos k => Zpos (m * Pos.pow 2 k) | _ => Zpos m end in
      let den := match e with Zneg k => Zpos (Pos.pow 2 k) | _ => 1%Z end in
      let n := decimal_exponent num den in
      let '(s, n') := shortest 17 (S754_finite false m e) num den n 1 in
      (if neg then lit "-" else []) ++ format_decimal (digits_of_N (Z.to_N s)) n'
  end.

(** *** Reading numbers from strings *)

Definition digit_val (c : codeunit) : N := (c - 48)%N.

(** The longest run of decimal digits at the start of [s]: its value, its
    length and what follows. *)
Fixpoint take_digits (s : jsstring) (acc : N) (cnt : nat)
  : N * nat * jsstring :=
  match s with
  | c :: s' =>
      if is_digit c then take_digits s' (acc * 10 + digit_val c)%N (S cnt)
      else (acc, cnt, s)
  | [] => (acc, cnt, [])
  end.

(** [ExponentPart]: [e] or [E], an optional sign and at least one digit.
    Returns the exponent and the rest, or exponent 0 and the input when
    there is no complete exponent part. *)
Definition take_exponent (s : jsstring) : Z * jsstring :=
  match s with
  | c :: s1 =>
      if N.eqb c 101 || N.eqb c 69 then
        let '(neg, s2) :=
          match s1 with
          | d :: s2 =>
              if N.eqb d 45 then (true, s2)
              else if N.eqb d 43 then (false, s2)
              else (false, s1)
          | [] => (false, s1)
          end in
        let '(v, cnt, rest) := take_digits s2 0 0 in
        match cnt with
        | O => (0%Z, s)
        | _ => ((if neg then - Z.of_N v else Z.of_N v)%Z, rest)
        end
      else (0%Z, s)
  | [] => (0%Z, s)
  end.

(** A prefix [p] of [s], with the rest. *)
Fixpoint strip_prefix (p s : jsstring) : option jsstring :=
  match p, s with
  | [], _ => Some s
  | a :: p', b :: s' => if N.eqb a b then strip_prefix p' s' else None
  | _ :: _, [] => None
  end.

(** The mathematical value of a decimal literal: infinite, or
    [m * 10^e]. *)
Inductive decimal :=
| DInfinity
| DFinite (m : N) (e : Z).

(** The longest prefix of [s] that is a [StrUnsignedDecimalLiteral]:
    [Infinity], digits with an optional fraction, or a fraction alone, and
    an optional exponent part. *)
Definition take_unsigned_decimal (s : jsstring) : option (decimal * jsstring) :=
  match strip_prefix (lit "Infinity") s with
  | Some rest => Some (DInfinity, rest)
  | None =>
      let '(i, ni, s1) := take_digits s 0 0 in
      match s1 with
      | c :: s2 =>
          if N.eqb c 46 then
            let '(m, nf, s3) := take_digits s2 i 0 in
            match ni, nf with
            | O, O => None
            | _, O =>
                let '(e, rest) := take_exponent s3 in
                Some (DFinite i e, rest)
            | _, _ =>
                let '(e, rest) := take_exponent s3 in
                Some (DFinite m (e - Z.of_nat nf), rest)
            end
          else
            match ni with
            | O => None
            | _ =>
                let '(e, rest) := take_exponent s1 in
                Some (DFinite i e, rest)
            end
      | [] =>
          match ni with
          | O => None
          | _ => Some (DFinite i 0, [])
          end
      end
  end.

(** The longest prefix that is a [StrDecimalLiteral] (an optional sign
    first), as a Number. *)
Definition take_decimal (s : jsstring) : option (number * jsstring) :=
  let '(neg, s1) :=
    match s with
    | c :: s' =>
        if N.eqb c 45 then (true, s')
        else if N.eqb c 43 then (false, s')
        else (false, s)
    | [] => (false, s)
    end in
  match take_unsigned_decimal s1 with
  | Some (DInfinity, rest) => Some (Infinity neg, rest)
  | Some (DFinite m e, rest) => Some (of_decimal neg m e, rest)
  | None => None
  end.

(** [parseFloat(s)]: leading white space is skipped, the longest decimal
    literal is read, anything after it is ignored. *)
Definition parseFloat (s : jsstring) : number :=
  match take_decimal (trim_start s) with
  | Some (x, _) => x
  | None => NaN
  end.

(** Digits in radix 2, 8, 10 or 16. *)
Definition radix_digit (radix : N) (c : codeunit) : option N :=
  let v :=
    if is_digit c then Some (c - 48)%N
    else if in_range 97 122 c then Some (c - 87)%N
    else if in_range 65 90 c then Some (c - 55)%N
    else None in
  match v with
  | Some d => if N.ltb d radix then Some d else None
  | None => None
  end.

Fixpoint take_radix_digits (radix : N) (s : jsstring) (acc : N) (cnt : nat)
  : N * nat * jsstring :=
  match s with
  | c :: s' =>
      match radix_digit radix c with
      | Some d => take_radix_digits radix s' (acc * radix + d)%N (S cnt)
      | None => (acc, cnt, s)
      end
  | [] => (acc, cnt, [])
  end.

(** A [NonDecimalIntegerLiteral]: [0x], [0o] or [0b] (either case) and at
    least one digit of the radix, up to the end of the string. *)
Definition non_decimal_literal (s : jsstring) : option number :=
  match s with
  | z :: p :: ds =>
      let radix :=
        if N.eqb (ascii_lower p) 120 then Some 16%N
        else if N.eqb (ascii_lower p) 111 then Some 8%N
        else if N.eqb (ascii_lower p) 98 then Some 2%N
        else None in
      match radix with
      | Some r =>
          if N.eqb z 48 then
            match take_radix_digits r ds 0 0 with
            | (_, O, _) => None
            | (v, _, []) => Some (of_N false v)
            | _ => None
            end
          else None
      | None => None
      end
  | _ => None
  end.

(** [StringToNumber]: what [Number(s)] does to a string.  White space
    around is dropped; the empty string is [+0]; the whole of what is left
    must be one numeric literal. *)
Definition StringToNumber (s : jsstring) : number :=
  match trim s with
  | [] => zero false
  | t =>
      match take_decimal t with
      | Some (x, []) => x
      | _ =>
          match non_decimal_literal t with
          | Some x => x
          | None => NaN
          end
      end
  end.

(** [parseInt(s)] without a radix: leading white space, an optional sign,
    an optional [0x] or [0X] switching to radix 16, then the longest run of
    digits. *)
Definition parseInt (s : jsstring) : number :=
  let s0 := trim_start s in
  let '(neg, s1) :=
    match s0 with
    | c :: s' =>
        if N.eqb c 45 then (true, s')
        else if N.eqb c 43 then (false, s')
        else (false, s0)
    | [] => (false, s0)
    end in
  let '(radix, s2) :=
    match s1 with
    | z :: x :: s' =>
        if N.eqb z 48 && N.eqb (ascii_lower x) 120 then (16%N, s')
        else (10%N, s1)
    | _ => (10%N, s1)
    end in
  match take_radix_digits radix s2 0 0 with
  | (_, O, _) => NaN
  | (v, _, _) => of_N neg v
  end.

(** *** Values *)

(** The values [JSON.parse] builds, and [undefined] for a property that is
    not there.  An object keeps its members in source order; a later member
    overrides an earlier one of the same name. *)
#[warnings="-register-all"] Inductive value : Type :=
| VUndefined
| VNull
| VBool (b : bool)
| VNum (x : number)
| VStr (s : jsstring)
| VArr (items : list value)
| VObj (members : list (jsstring * value)).

(** [ToBoolean]. *)
Definition truthy_number (x : number) : bool := negb (is_zero x || is_nan x).

Definition truthy (v : value) : bool :=
  match v with
  | VUndefined | VNull => false
  | VBool b => b
  | VNum x => truthy_number x
  | VStr s => match s with [] => false | _ => true end
  | VArr _ | VObj _ => true
  end.

(** [a || b]. *)
Definition or_else (a b : value) : value := if truthy a then a else b.

(** The own member [key] of an object built by [JSON.parse]. *)
Fixpoint lookup (key : jsstring) (members : list (jsstring * value))
  : option value :=
  match members with
  | [] => None
  | (k, v) :: rest =>
      match lookup key rest with
      | Some v' => Some v'
      | None => if str_eqb k key then Some v else None
      end
  end.

(** [v.key] for one of the names the handlers read ([name],
    [description], [price], [match_reason], [username]): none of them is
    defined on a prototype, so the answer is the own member or
    [undefined]; reading a property of [null] or [undefined] throws. *)
Definition get (v : value) (key : jsstring) : result value :=
  match v with
  | VUndefined | VNull => throw TypeError
  | VObj members =>
      match lookup key members with
      | Some x => ok x
      | None => ok VUndefined
      end
  | _ => ok VUndefined
  end.

(** [ToString] ([String(v)], template literals, arguments of string
    functions).  An array is joined with commas, [null] and [undefined]
    items giving the empty string; a plain object gives [[object Object]],
    unless it has a member named [toString], which shadows the inherited
    method with something that cannot be called: then no conversion is
    left and a [TypeError] is thrown. *)
Fixpoint to_string (v : value) : result jsstring :=
  match v with
  | VUndefined => ok (lit "undefined")
  | VNull => ok (lit "null")
  | VBool true => ok (lit "true")
  | VBool false => ok (lit "false")
  | VNum x => ok (number_to_string x)
  | VStr s => ok s
  | VArr items =>
      let item x :=
        match x with
        | VUndefined | VNull => ok []
        | _ => to_string x
        end in
      (fix join (l : list value) : result jsstring :=
         match l with
         | [] => ok []
         | [x] => item x
         | x :: l' =>
             match item x with
             | inl e => inl e
             | inr a =>
                 match join l' with
                 | inl e => inl e
                 | inr b => ok (a ++ lit "," ++ b)
                 end
             end
         end) items
  | VObj members =>
      match lookup (lit "toString") members with
      | Some _ => throw TypeError
      | None => ok (lit "[object Object]")
      end
  end.

(** *** JSON.parse *)

Inductive token :=
| TLBracket | TRBracket | TLBrace | TRBrace | TComma | TColon
| TString (s : jsstring)
| TScalar (v : value).

(** A JSON number: an optional minus, an integer part without a superfluous
    leading zero, an optional fraction and an optional exponent. *)
Definition json_number (w : jsstring) : option number :=
  let '(neg, s1) :=
    match w with
    | c :: s' => if N.eqb c 45 then (true, s') else (false, w)
    | [] => (false, w)
    end in
  let '(i, ni, s2) := take_digits s1 0 0 in
  let int_ok :=
    match ni, s1 with
    | O, _ => false
    | 1, _ => true
    | _, c :: _ => negb (N.eqb c 48)
    | _, [] => false
    end in
  if int_ok then
    let '(m, nf, s3) :=
      match s2 with
      | c :: s' =>
          if N.eqb c 46 then
            let '(m, nf, s3) := take_digits s' i 0 in (m, Some nf, s3)
          else (i, None, s2)
      | [] => (i, None, s2)
      end in
    match nf with
    | Some O => None
    | _ =>
        let '(e, rest) := take_exponent s3 in
        match rest with
        | [] =>
            let scale := match nf with Some n => Z.of_nat n | None => 0%Z end in
            Some (of_decimal neg m (e - scale))
        | _ => None
        end
    end
  else None.

Definition scalar_of_word (w : jsstring) : option value :=
  if str_eqb w (lit "true") then Some (VBool true)
  else if str_eqb w (lit "false") then Some (VBool false)
  else if str_eqb w (lit "null") then Some VNull
  else option_map VNum (json_number w).

(** The lexer is a state machine over the code units. *)
Inductive lexing :=
| Between
| InWord (acc : jsstring)                      (* a number or a literal name, reversed *)
| InString (acc : jsstring)                    (* inside quotes, reversed *)
| InEscape (acc : jsstring)                    (* after a backslash *)
| InUnicode (acc : jsstring) (code : N) (todo : nat).  (* after [\u] *)

Definition is_json_space (c : codeunit) : bool :=
  N.eqb c 9 || N.eqb c 10 || N.eqb c 13 || N.eqb c 32.

Definition is_word_char (c : codeunit) : bool :=
  is_digit c || is_upper c || is_lower c
  || N.eqb c 43 || N.eqb c 45 || N.eqb c 46.

Definition punctuation (c : codeunit) : option token :=
  if N.eqb c 91 then Some TLBracket
  else if N.eqb c 93 then Some TRBracket
  else if N.eqb c 123 then Some TLBrace
  else if N.eqb c 125 then Some TRBrace
  else if N.eqb c 44 then Some TComma
  else if N.eqb c 58 then Some TColon
  else None.

Definition escape (c : codeunit) : option codeunit :=
  if N.eqb c 34 then Some 34%N
  else if N.eqb c 92 then Some 92%N
  else if N.eqb c 47 then Some 47%N
  else if N.eqb c 98 then Some 8%N
  else if N.eqb c 102 then Some 12%N
  else if N.eqb c 110 then Some 10%N
  else if N.eqb c 114 then Some 13%N
  else if N.eqb c 116 then Some 9%N
  else None.

Definition lex_start (c : codeunit) : option (list token * lexing) :=
  if is_json_space c then Some ([], Between)
  else
    match punctuation c with
    | Some t => Some ([t], Between)
    | None =>
        if N.eqb c 34 then Some ([], InString [])
        else if is_word_char c then Some ([], InWord [c])
        else None
    end.

Definition lex_step (st : lexing) (c : codeunit)
  : option (list token * lexing) :=
  match st with
  | Between => lex_start c
  | InWord acc =>
      if is_word_char c then Some ([], InWord (c :: acc))
      else
        match scalar_of_word (rev acc), lex_start c with
        | Some v, Some (ts, st') => Some (TScalar v :: ts, st')
        | _, _ => None
        end
  | InString acc =>
      if N.eqb c 34 then Some ([TString (rev acc)], Between)
      else if N.eqb c 92 then Some ([], InEscape acc)
      else if N.ltb c 32 then None
      else Some ([], InString (c :: acc))
  | InEscape acc =>
      if N.eqb c 117 then Some ([], InUnicode acc 0 4)
      else
        match escape c with
        | Some x => Some ([], InString (x :: acc))
        | None => None
        end
  | InUnicode acc code todo =>
      match radix_digit 16 c with
      | Some d =>
          let code' := (code * 16 + d)%N in
          match todo with
          | 1 => Some ([], InString (code' :: acc))
          | _ => Some ([], InUnicode acc code' (Nat.pred todo))
          end
      | None => None
      end
  end.

Fixpoint lex (st : lexing) (s : jsstring) : option (list token) :=
  match s with
  | [] =>
      match st with
      | Between => Some []
      | InWord acc =>
          match scalar_of_word (rev acc) with
          | Some v => Some [TScalar v]
          | None => None
          end
      | _ => None
      end
  | c :: s' =>
      match lex_step st c with
      | Some (ts, st') =>
          match lex st' s' with
          | Some rest => Some (ts ++ rest)
          | None => None
          end
      | None => None
      end
  end.

(** The parser is a state machine over the tokens, with the open arrays
    and objects on a stack. *)
Inductive frame :=
| InArr (done : list value)                          (* items so far, reversed *)
| InObj (done : list (jsstring * value)) (key : jsstring).  (* members so far, reversed *)

Inductive parsing :=
| WantValue (stack : list frame)
| ArrFirst (stack : list frame)                      (* just after [[] *)
| ObjFirst (stack : list frame)                      (* just after [{] *)
| WantKey (done : list (jsstring * value)) (stack : list frame)
| WantColon (done : list (jsstring * value)) (key : jsstring) (stack : list frame)
| ArrNext (done : list value) (stack : list frame)   (* after an item *)
| ObjNext (done : list (jsstring * value)) (stack : list frame)  (* after a member *)
| Done (v : value).

(** A value is complete: hand it to the enclosing array or object. *)
Definition reduce (stack : list frame) (v : value) : parsing :=
  match stack with
  | [] => Done v
  | InArr done :: st => ArrNext (v :: done) st
  | InObj done key :: st => ObjNext ((key, v) :: done) st
  end.

Definition parse_value (stack : list frame) (t : token) : option parsing :=
  match t with
  | TScalar v => Some (reduce stack v)
  | TString s => Some (reduce stack (VStr s))
  | TLBracket => Some (ArrFirst stack)
  | TLBrace => Some (ObjFirst stack)
  | _ => None
  end.

Definition parse_step (st : parsing) (t : token) : option parsing :=
  match st with
  | WantValue stack => parse_value stack t
  | ArrFirst stack =>
      match t with
      | TRBracket => Some (reduce stack (VArr []))
      | _ => parse_value (InArr [] :: stack) t
      end
  | ObjFirst stack =>
      match t with
      | TRBrace => Some (reduce stack (VObj []))
      | TString k => Some (WantColon [] k stack)
      | _ => None
      end
  | WantKey done stack =>
      match t with
      | TString k => Some (WantColon done k stack)
      | _ => None
      end
  | WantColon done key stack =>
      match t with
      | TColon => Some (WantValue (InObj done key :: stack))
      | _ => None
      end
  | ArrNext done stack =>
      match t with
      | TComma => Some (WantValue (InArr done :: stack))
      | TRBracket => Some (reduce stack (VArr (rev done)))
      | _ => None
      end
  | ObjNext done stack =>
      match t with
      | TComma => Some (WantKey done stack)
      | TRBrace => Some (reduce stack (VObj (rev done)))
      | _ => None
      end
  | Done _ => None
  end.

Fixpoint parse_tokens (st : parsing) (ts : list token) : option value :=
  match ts with
  | [] => match st with Done v => Some v | _ => None end
  | t :: ts' =>
      match parse_step st t with
      | Some st' => parse_tokens st' ts'
      | None => None
      end
  end.

(** [JSON.parse(text)]: the value, or a [SyntaxError]. *)
Definition JSON_parse (text : jsstring) : result value :=
  match lex Between text with
  | Some ts =>
      match parse_tokens (WantValue []) ts with
      | Some v => ok v
      | None => throw SyntaxError
      end
  | None => throw SyntaxError
  end.

(** *** Code points, UTF-8 and encodeURIComponent *)

Definition is_lead (c : codeunit) : bool := in_range 55296 56319 c.   (* D800..DBFF *)
Definition is_trail (c : codeunit) : bool := in_range 56320 57343 c.  (* DC00..DFFF *)

(** [UTF16SurrogatePairToCodePoint]. *)
Definition pair_to_codepoint (lead trail : codeunit) : N :=
  ((lead - 55296) * 1024 + (trail - 56320) + 65536)%N.

(** The octets of the UTF-8 encoding of a code point. *)
Definition utf8 (cp : N) : list N :=
  if N.ltb cp 128 then [cp]
  else if N.ltb cp 2048 then
    [N.lor 192 (N.shiftr cp 6); N.lor 128 (N.land cp 63)]
  else if N.ltb cp 65536 then
    [N.lor 224 (N.shiftr cp 12);
     N.lor 128 (N.land (N.shiftr cp 6) 63);
     N.lor 128 (N.land cp 63)]
  else
    [N.lor 240 (N.shiftr cp 18);
     N.lor 128 (N.land (N.shiftr cp 12) 63);
     N.lor 128 (N.land (N.shiftr cp 6) 63);
     N.lor 128 (N.land cp 63)].

Definition hex_digit (d : N) : codeunit :=
  if N.ltb d 10 then (48 + d)%N else (55 + d)%N.

(** [%XY], in upper-case hexadecimal. *)
Definition percent (octet : N) : jsstring :=
  [37%N; hex_digit (N.shiftr octet 4); hex_digit (N.land octet 15)].

Definition percent_all (octets : list N) : jsstring :=
  flat_map percent octets.

(** The characters [encodeURIComponent] leaves alone: ASCII letters and
    digits and the marks [- _ . ! ~ * ' ( )]. *)
Definition unreserved (c : N) : bool :=
  is_upper c || is_lower c || is_digit c || oneof "-_.!~*'()" c.

(** [encodeURIComponent(s)]: the code units are read left to right; an
    unreserved one is copied; otherwise the code point at that place is
    taken (two code units for a surrogate pair) and each octet of its UTF-8
    encoding is written as [%XY]; a surrogate without its partner throws a
    [URIError]. *)
Fixpoint encodeURIComponent (s : jsstring) : result jsstring :=
  match s with
  | [] => ok []
  | c :: s' =>
      if unreserved c then
        match encodeURIComponent s' with
        | inl e => inl e
        | inr r => ok (c :: r)
        end
      else if is_trail c then throw URIError
      else if is_lead c then
        match s' with
        | d :: s'' =>
            if is_trail d then
              match encodeURIComponent s'' with
              | inl e => inl e
              | inr r => ok (percent_all (utf8 (pair_to_codepoint c d)) ++ r)
              end
            else throw URIError
        | [] => throw URIError
        end
      else
        match encodeURIComponent s' with
        | inl e => inl e
        | inr r => ok (percent_all (utf8 c) ++ r)
        end
  end.

(** [StringToCodePoints]: surrogate pairs are joined, a surrogate alone
    stands for itself. *)
Fixpoint StringToCodePoints (s : jsstring) : list N :=
  match s with
  | [] => []
  | c :: s' =>
      if is_lead c then
        match s' with
        | d :: s'' =>
            if is_trail d then pair_to_codepoint c d :: StringToCodePoints s''
            else c :: StringToCodePoints s'
        | [] => [c]
        end
      else c :: StringToCodePoints s'
  end.

(** [CodePointsToString]. *)
Definition codepoint_to_units (cp : N) : jsstring :=
  if N.ltb cp 65536 then [cp]
  else [(55296 + N.shiftr (cp - 65536) 10)%N; (56320 + N.land (cp - 65536) 1023)%N].

Definition CodePointsToString (cps : list N) : jsstring :=
  flat_map codepoint_to_units cps.

(** [decodeURIComponent(s)], the inverse: [%XY] is read as an octet, the
    octets are read as UTF-8, everything else is copied.  It is a state
    machine over the code units: outside an escape, after the [%], after
    the first hexadecimal digit; and, across escapes, the UTF-8 sequence
    under way: how many octets it still needs, the bits gathered, and the
    least code point the sequence may stand for. *)
Inductive utf8_state := Fresh | Pending (need : nat) (acc : N) (least : N).

Inductive uri_state :=
| Plain (u : utf8_state)
| Percent (u : utf8_state)
| Hex (u : utf8_state) (hi : N).

(** One more octet: the output it completes, and the sequence under way. *)
Definition on_octet (u : utf8_state) (b : N) : option (jsstring * utf8_state) :=
  match u with
  | Fresh =>
      if N.ltb b 128 then Some ([b], Fresh)
      else if in_range 192 223 b then Some ([], Pending 1 (b - 192) 128)
      else if in_range 224 239 b then Some ([], Pending 2 (b - 224) 2048)
      else if in_range 240 247 b then Some ([], Pending 3 (b - 240) 65536)
      else None
  | Pending need acc least =>
      if in_range 128 191 b then
        let acc' := (acc * 64 + (b - 128))%N in
        match need with
        | 1 =>
            if N.leb least acc' && N.ltb acc' 1114112
               && negb (in_range 55296 57343 acc')
            then Some (codepoint_to_units acc', Fresh)
            else None
        | _ => Some ([], Pending (Nat.pred need) acc' least)
        end
      else None
  end.

Fixpoint decode (st : uri_state) (s : jsstring) : option jsstring :=
  match s with
  | [] => match st with Plain Fresh => Some [] | _ => None end
  | c :: rest =>
      match st with
      | Plain u =>
          if N.eqb c 37 then decode (Percent u) rest
          else
            match u with
            | Fresh => option_map (cons c) (decode (Plain Fresh) rest)
            | _ => None
            end
      | Percent u =>
          match radix_digit 16 c with
          | Some hi => decode (Hex u hi) rest
          | None => None
          end
      | Hex u hi =>
          match radix_digit 16 c with
          | Some lo =>
              match on_octet u (hi * 16 + lo) with
              | Some (out, u') => option_map (app out) (decode (Plain u') rest)
              | None => None
              end
          | None => None
          end
      end
  end.

Definition decodeURIComponent (s : jsstring) : result jsstring :=
  match decode (Plain Fresh) s with
  | Some r => ok r
  | None => throw URIError
  end.

(** *** Case conversion

    [toLowerCase] maps the code points of the string through the Unicode
    Default Case Conversion, a table of the Unicode Character Database.
    The table is not part of the program; it is a parameter here, known
    only through what it does to ASCII text. *)
Class Unicode := {
  toLowercase : list N -> list N;
  toLowercase_ascii :
    forall cps, forallb (fun c => N.ltb c 128) cps = true ->
                toLowercase cps = map ascii_lower cps
}.

Definition toLowerCase `{Unicode} (s : jsstring) : jsstring :=
  CodePointsToString (toLowercase (StringToCodePoints s)).

(** *** Buffers and base64 *)

Definition Buffer := list Byte.byte.

Definition octet (b : Byte.byte) : N := Byte.to_N b.

(** The base64 alphabet: [A-Z], [a-z], [0-9], [+] and [/]. *)
Definition base64_char (v : N) : codeunit :=
  if N.ltb v 26 then (65 + v)%N
  else if N.ltb v 52 then (97 + (v - 26))%N
  else if N.ltb v 62 then (48 + (v - 52))%N
  else if N.eqb v 62 then 43%N
  else 47%N.

(** [buffer.toString("base64")]: three octets give four characters; one or
    two octets left over are padded with [=]. *)
Fixpoint base64 (b : list N) : jsstring :=
  match b with
  | [] => []
  | [x] =>
      [base64_char (N.shiftr x 2);
       base64_char (N.shiftl (N.land x 3) 4);
       61%N; 61%N]
  | [x; y] =>
      [base64_char (N.shiftr x 2);
       base64_char (N.lor (N.shiftl (N.land x 3) 4) (N.shiftr y 4));
       base64_char (N.shiftl (N.land y 15) 2);
       61%N]
  | x :: y :: z :: rest =>
      base64_char (N.shiftr x 2)
      :: base64_char (N.lor (N.shiftl (N.land x 3) 4) (N.shiftr y 4))
      :: base64_char (N.lor (N.shiftl (N.land y 15) 2) (N.shiftr z 6))
      :: base64_char (N.land z 63)
      :: base64 rest
  end.

Definition Buffer_to_base64 (b : Buffer) : jsstring := base64 (map octet b).

End JS.

Import JS.


(* ===================================================================== *)
(** ** External calls                                                     *)
(* ===================================================================== *)

(** A handler is a program over the calls it makes to the outside (the
    image library, the inference API, the headless browser): it either
    returns, or makes a call and goes on with the answer.  Logging
    ([console.log], [console.error]) is left out. *)
Section Programs.

Variable E : Type -> Type.

Inductive prog (R : Type) : Type :=
| Ret (r : R)
| Vis (X : Type) (e : E X) (k : X -> prog R).

Fixpoint pbind {A B} (p : prog A) (f : A -> prog B) : prog B :=
  match p with
  | Ret r => f r
  | Vis e k => Vis e (fun x => pbind (k x) f)
  end.

(** An [async] body: it returns a value or throws. *)
Definition task (A : Type) : Type := prog (result A).

Definition ret {A} (x : A) : task A := Ret (ok x).

(** A pure step that may throw. *)
Definition lift {A} (r : result A) : task A := Ret r.

(** [await] of an external promise: the answer, or the rejection thrown. *)
Definition await {X} (e : E (result X)) : task X := Vis e (fun r => Ret r).

(** A call to an [async] function of the program that catches all its
    exceptions itself. *)
Definition safe {A} (p : prog A) : task A := pbind p (fun x => Ret (ok x)).

Definition tbind {A B} (c : task A) (k : A -> task B) : task B :=
  pbind c (fun r => match r with
                    | inl e => Ret (inl e)
                    | inr x => k x
                    end).

(** [try { body } catch (error) { handler }], for a handler that cannot
    throw and for one that can. *)
Definition try_catch {A} (body : task A) (handler : exn -> prog A) : prog A :=
  pbind body (fun r => match r with
                       | inl e => handler e
                       | inr x => Ret x
                       end).

Definition try_catch_task {A} (body : task A) (handler : exn -> task A)
  : task A :=
  pbind body (fun r => match r with
                       | inl e => handler e
                       | inr x => Ret (ok x)
                       end).

(** The outside world answers every call, and may change while doing so:
    from a state [S] and a call it gives the answer and the next state. *)
Definition world (S : Type) : Type := S -> forall X, E X -> X * S.

(** One external call together with the answer it got. *)
Inductive call : Type :=
| Called (X : Type) (e : E X) (answer : X).

(** What a program returns in a world, and the calls it makes there, in
    order. *)
Fixpoint run {S R} (w : world S) (s : S) (p : prog R) : R :=
  match p with
  | Ret r => r
  | Vis e k => let '(x, s') := w s _ e in run w s' (k x)
  end.

Fixpoint calls {S R} (w : world S) (s : S) (p : prog R) : list call :=
  match p with
  | Ret _ => []
  | Vis e k => let '(x, s') := w s _ e in Called e x :: calls w s' (k x)
  end.

(** The state the world is left in. *)
Fixpoint after {S R} (w : world S) (s : S) (p : prog R) : S :=
  match p with
  | Ret _ => s
  | Vis e k => let '(x, s') := w s _ e in after w s' (k x)
  end.

End Programs.

Arguments Ret {E R} r.
Arguments Vis {E R X} e k.
Arguments ret {E A} x.
Arguments lift {E A} r.
Arguments await {E X} e.
Arguments safe {E A} p.
Arguments Called {E X} e answer.

Declare Scope task_scope.
Delimit Scope task_scope with task.
Notation "x <~ c ;; k" := (tbind c (fun x => k))
  (at level 61, c at next level, right associativity) : task_scope.

(** The answer of the inference API to a chat completion request:
    [choices[i].message.content]. *)
Record Message := { content : option jsstring }.
Record Choice := { message : option Message }.
Record ChatCompletion := { choices : list Choice }.

(** [completion.choices[0]?.message?.content || ""]. *)
Definition first_content_or_empty (completion : ChatCompletion) : jsstring :=
  match choices completion with
  | [] => []
  | c :: _ =>
      match message c with
      | Some m => match content m with Some s => s | None => [] end
      | None => []
      end
  end.

(* ===================================================================== *)
(** ** The recommendation endpoint                                        *)
(* ===================================================================== *)

Module Recommend.

(** [interface GiftRecommendation].  The interface types [name],
    [description] and [match_reason] as strings, but they hold whatever the
    model's JSON held there. *)
Record GiftRecommendation := {
  name : value;
  description : value;
  price : number;
  match_reason : value;
  amazon_link : jsstring;
  etsy_link : jsstring
}.

(** The external calls of this route. *)
Inductive event : Type -> Type :=
| SharpCompress (input : Buffer) : event (result Buffer)
    (* sharp(buffer).resize(200, 200, ...).jpeg({quality: 40, ...}).toBuffer() *)
| GroqAnalyzeImage : event (result ChatCompletion)
    (* groq.chat.completions.create, the fixed image analysis prompt *)
| GroqRecommend (age budget : number) (profileAnalysis : jsstring)
  : event (result ChatCompletion).
    (* groq.chat.completions.create, the recommendation prompt built from
       the three arguments *)

Local Open Scope task_scope.

(** [async function compressImage(buffer: Buffer): Promise<string>].
    A [Buffer] is never falsy, so of [!buffer || buffer.length === 0] the
    length test decides. *)
#[warnings="-abstract-large-number"] Definition compressImage (buffer : Buffer) : prog event jsstring :=
  try_catch
    (match buffer with
     | [] => ret []
     | _ =>
         compressedImageBuffer <~ await (SharpCompress buffer) ;;
         let base64 := Buffer_to_base64 compressedImageBuffer in
         let truncatedBase64 := slice_to 50000 base64 in
         ret truncatedBase64
     end)
    (fun _ => Ret []).

(** [async function analyzeImage(base64Image: string): Promise<string>]. *)
Definition analyzeImage (base64Image : jsstring) : prog event jsstring :=
  try_catch
    (completion <~ await GroqAnalyzeImage ;;
     let analysis := first_content_or_empty completion in
     ret analysis)
    (fun _ => Ret []).

(** [response.choices[0].message.content?.trim() || "[]"]. *)
Definition reply_text (response : ChatCompletion) : result jsstring :=
  match choices response with
  | [] => throw TypeError
  | c :: _ =>
      match message c with
      | None => throw TypeError
      | Some m =>
          match content m with
          | None => ok (lit "[]")
          | Some s =>
              match trim s with
              | [] => ok (lit "[]")
              | t => ok t
              end
          end
      end
  end.

(** [/\[[\s\S]*\]/]: an opening bracket, anything, a closing bracket. *)
Definition json_array_re : regex :=
  [one (oneof "["); star anyc; one (oneof "]")].

(** "Extract JSON if it's wrapped in other text". *)
Definition extract_json (recommendationsText : jsstring) : jsstring :=
  match match_first json_array_re recommendationsText with
  | Some jsonMatch => jsonMatch
  | None => recommendationsText
  end.

(** "Clean up the JSON string": the twelve replacements, in order. *)
Definition clean_json (recommendationsText : jsstring) : jsstring :=
  let t := recommendationsText in
  let t := replace [one (codes [8220; 8221]%N)] [34%N] t in             (* /[\u201C\u201D]/g *)
  let t := replace [one (codes [8216; 8217]%N)] (lit "'") t in          (* /[\u2018\u2019]/g *)
  let t := replace [one (oneof "'")] (lit "'") t in                     (* /'/g *)
  let t := replace [one (codes [10%N])] (lit " ") t in                  (* /\n/g *)
  let t := replace [one (oneof ","); star spacec; one (oneof "}")] (lit "}") t in  (* /,\s*}/g *)
  let t := replace [plus spacec] (lit " ") t in                         (* /\s+/g *)
  let t := replace [star spacec; one (oneof ":"); star spacec] (lit ":") t in      (* /\s*:\s*/g *)
  let t := replace [star spacec; one (oneof ","); star spacec] (lit ",") t in      (* /\s*,\s*/g *)
  let t := replace [one (nocase "i"); one (nocase "t"); one (oneof "''");
                    one (nocase "s")] (lit "it is") t in                (* /it['']s/gi *)
  let t := replace [one (oneof "''"); one (oneof "s"); one spacec] (lit "s ") t in     (* /['']s\s/g *)
  let t := replace [one (oneof "''"); one (oneof "r"); one (oneof "e"); one spacec]
                   (lit " are ") t in                                   (* /['']re\s/g *)
  let t := replace [one (oneof "''"); one (oneof "t"); one spacec] (lit "t ") t in     (* /['']t\s/g *)
  t.

(** [/[$,]/g]. *)
Definition currency_re : regex := [one (oneof "$,")].

Definition amazon_prefix : jsstring := lit "https://www.amazon.com/s?k=".
Definition etsy_prefix : jsstring := lit "https://www.etsy.com/search?q=".

Local Open Scope js_scope.

(** [encodeURIComponent(v)] for any value: the argument is converted to a
    string first. *)
Definition encode_value (v : value) : result jsstring :=
  s <- to_string v ;; encodeURIComponent s.

(** The callback of [recommendations.map]. *)
Definition to_recommendation (budget : number) (rec : value)
  : result GiftRecommendation :=
  rec_name <- get rec (lit "name") ;;
  rec_description <- get rec (lit "description") ;;
  rec_price <- get rec (lit "price") ;;
  price_text <- to_string (or_else rec_price (VNum budget)) ;;
  rec_match_reason <- get rec (lit "match_reason") ;;
  amazon <- encode_value (or_else rec_name (VStr [])) ;;
  etsy <- encode_value (or_else rec_name (VStr [])) ;;
  ok {| name := or_else rec_name (VStr (lit "Gift suggestion"));
        description := or_else rec_description (VStr []);
        price := parseFloat (replace currency_re [] price_text);
        match_reason := or_else rec_match_reason (VStr []);
        amazon_link := amazon_prefix ++ amazon;
        etsy_link := etsy_prefix ++ etsy |}.

(** [recommendations.map(...)]: only an array has a [map] to call. *)
Definition map_recommendations (budget : number) (recommendations : value)
  : result (list GiftRecommendation) :=
  match recommendations with
  | VArr items => mapM (to_recommendation budget) items
  | _ => throw TypeError
  end.

(** The [try] block after the [await]. *)
Definition recommendations_of_response (budget : number)
           (response : ChatCompletion) : result (list GiftRecommendation) :=
  recommendationsText <- reply_text response ;;
  recommendations <- JSON_parse (clean_json (extract_json recommendationsText)) ;;
  map_recommendations budget recommendations.

(** "Return fallback recommendations". *)
Definition fallback (budget : number) : result (list GiftRecommendation) :=
  amazon <- encodeURIComponent (lit "gift") ;;
  etsy <- encodeURIComponent (lit "gift") ;;
  ok [ {| name := VStr (lit "No recommendations available");
          description := VStr (lit "No personalized gift recommendations available.");
          price := budget;
          match_reason := VStr (lit "No profile analysis available.");
          amazon_link := amazon_prefix ++ amazon;
          etsy_link := etsy_prefix ++ etsy |} ].

Local Open Scope task_scope.

(** [async function generateGiftRecommendations(age, budget,
    profileAnalysis): Promise<GiftRecommendation[]>]. *)
Definition generateGiftRecommendations (age budget : number)
           (profileAnalysis : jsstring) : task event (list GiftRecommendation) :=
  try_catch_task
    (response <~ await (GroqRecommend age budget profileAnalysis) ;;
     lift (recommendations_of_response budget response))
    (fun _ => lift (fallback budget)).

(** The multipart form of the request: fields hold strings or files;
    [get] answers the first entry of a name, or [null]. *)
Inductive FormDataEntryValue :=
| FString (s : jsstring)
| FFile (bytes : Buffer).

Definition FormData := list (jsstring * FormDataEntryValue).

Fixpoint form_get (field : jsstring) (formData : FormData)
  : option FormDataEntryValue :=
  match formData with
  | [] => None
  | (k, v) :: rest => if str_eqb k field then Some v else form_get field rest
  end.

(** [Number(formData.get(...))]: [null] is [+0], a string is read as a
    numeric literal, a file is not a number. *)
Definition Number (entry : option FormDataEntryValue) : number :=
  match entry with
  | None => zero false
  | Some (FString s) => StringToNumber s
  | Some (FFile _) => NaN
  end.

(** What [request.formData()] resolves to, or rejects with. *)
Record Request := { formData : result FormData }.

Inductive Body :=
| Error (error : jsstring)
| Recommendations (recommendations : list GiftRecommendation).

(** [NextResponse.json(body, { status })]. *)
Record Response := { body : Body; status : N }.

Definition json (b : Body) (st : N) : Response := {| body := b; status := st |}.

(** [export async function POST(request: Request)]. *)
Definition POST (request : Request) : prog event Response :=
  try_catch
    (formData <~ lift (formData request) ;;
     let age := Number (form_get (lit "age") formData) in
     let budget := Number (form_get (lit "budget") formData) in
     let imageFile := form_get (lit "instagram-grid") formData in
     if negb (truthy_number age) || negb (truthy_number budget) then
       ret (json (Error (lit "Missing required fields")) 400)
     else
       profileAnalysis <~
         match imageFile with
         | Some (FFile bytes) =>
             base64Image <~ safe (compressImage bytes) ;;
             safe (analyzeImage base64Image)
         | Some (FString (_ :: _)) => lift (throw TypeError)  (* a string has no arrayBuffer() *)
         | Some (FString []) | None => ret []
         end ;;
       recommendations <~
         generateGiftRecommendations age budget
           (match profileAnalysis with
            | [] => lit "No profile analysis available."
            | _ => profileAnalysis
            end) ;;
       ret (json (Recommendations recommendations) 200))
    (fun _ => Ret (json (Error (lit "Failed to get gift recommendations")) 500)).

End Recommend.

(* ===================================================================== *)
(** ** The scrape endpoint                                                *)
(* ===================================================================== *)

Module Scrape.

Section WithUnicode.

Context `{Unicode}.

(** The elements of [posts] in [interface InstagramProfile]. *)
Record Post := {
  imageUrl : option jsstring;
  caption : option jsstring;
  likes : option number;
  hashtags : option (list jsstring);
  mentions : option (list jsstring)
}.

(** [interface InstagramProfile].  [username] is whatever the request
    body held under that name. *)
Record InstagramProfile := {
  username : value;
  bio : option jsstring;
  posts : list Post
}.

(** What the page of one post shows to the three DOM queries. *)
Record PostPage := {
  h1_text : option jsstring;         (* document.querySelector("h1")?.textContent *)
  img_src : option jsstring;         (* document.querySelector("article img")?.src *)
  likes_text : option jsstring       (* document.querySelector("section span")?.textContent *)
}.

(** The external calls of this route: the headless browser and the
    inference API. *)
Inductive event : Type -> Type :=
| Launch : event (result unit)                       (* puppeteer.launch({ headless: "new" }) *)
| NewPage : event (result unit)                      (* browser.newPage() *)
| SetViewport : event (result unit)                  (* page.setViewport({ width: 1280, height: 800 }) *)
| Goto (url : jsstring) (networkidle0 : bool) : event (result unit)   (* page.goto(url, ...) *)
| WaitForSelector : event (result unit)              (* page.waitForSelector("article a", { timeout: 5000 }) *)
| QueryPostLinks : event (result (list jsstring))    (* the href of every "article a" of the page *)
| QueryPost : event (result PostPage)
| QueryBio : event (result (option jsstring))        (* document.querySelector(".-vDIg span")?.textContent *)
| Close : event (result unit)                        (* browser.close() *)
| GroqAnalyzeProfile (profileData : InstagramProfile) : event (result ChatCompletion).
    (* groq.chat.completions.create, the prompt built from the bio and,
       for each post, its caption, hashtags and likes *)

(** [/#[\w]+/g] and [/@[\w]+/g]. *)
Definition hashtag_re : regex := [one (oneof "#"); plus wordc].
Definition mention_re : regex := [one (oneof "@"); plus wordc].

(** [caption.match(re) || []]. *)
Definition matches_or_empty (re : regex) (s : jsstring) : list jsstring :=
  match match_all re s with
  | Some ms => ms
  | None => []
  end.

(** [x || ""] for a string that may be absent. *)
Definition or_empty (x : option jsstring) : jsstring :=
  match x with
  | Some s => s
  | None => []
  end.

(** The object built inside [page.evaluate] for one post. *)
Definition postData (page : PostPage) : Post :=
  let caption := or_empty (h1_text page) in
  {| imageUrl := img_src page;
     caption := Some caption;
     likes := Some (parseInt (match likes_text page with
                              | Some (c :: s) => c :: s
                              | _ => lit "0"
                              end));
     hashtags := Some (matches_or_empty hashtag_re caption);
     mentions := Some (matches_or_empty mention_re caption) |}.

Local Open Scope task_scope.

(** "Visit each post to get detailed info". *)
Fixpoint visit_posts (postUrls : list jsstring) : task event (list Post) :=
  match postUrls with
  | [] => ret []
  | url :: rest =>
      _ <~ await (Goto url true) ;;
      page <~ await QueryPost ;;
      posts <~ visit_posts rest ;;
      ret (postData page :: posts)
  end.

Definition profile_url (username : jsstring) : jsstring :=
  lit "https://www.instagram.com/" ++ username ++ lit "/".

(** [async function scrapeInstagramProfile(username):
    Promise<InstagramProfile | null>]. *)
Definition scrapeInstagramProfile (username : value)
  : prog event (option InstagramProfile) :=
  try_catch
    (_ <~ await Launch ;;
     _ <~ await NewPage ;;
     _ <~ await SetViewport ;;
     name <~ lift (to_string username) ;;
     _ <~ await (Goto (profile_url name) true) ;;
     _ <~ await WaitForSelector ;;
     links <~ await QueryPostLinks ;;
     let postUrls := firstn 10 links in
     posts <~ visit_posts postUrls ;;
     _ <~ await (Goto (profile_url name) false) ;;
     bio <~ await QueryBio ;;
     _ <~ await Close ;;
     ret (Some {| username := username;
                  bio := Some (or_empty bio);
                  posts := posts |}))
    (fun _ => Ret None).

(** [async function analyzeProfile(profileData): Promise<string>]. *)
Definition analyzeProfile (profileData : InstagramProfile) : prog event jsstring :=
  try_catch
    (completion <~ await (GroqAnalyzeProfile profileData) ;;
     let analysis := first_content_or_empty completion in
     ret analysis)
    (fun _ => Ret []).

(** [new Set<string>()]: the elements in insertion order; [add] of an
    element already there changes nothing. *)
Definition StringSet := list jsstring.

Definition set_has (x : jsstring) (s : StringSet) : bool :=
  existsb (str_eqb x) s.

Definition set_add (s : StringSet) (x : jsstring) : StringSet :=
  if set_has x s then s else s ++ [x].

(** [xs.forEach((x) => interests.add(f x))]. *)
Definition add_all (s : StringSet) (xs : list jsstring) : StringSet :=
  fold_left set_add xs s.

(** [/\W+/]. *)
Definition nonword_re : regex := [plus nonwordc].

(** [text?.toLowerCase().split(/\W+/).filter((word) => word.length > 3)]:
    [None] when the text is absent. *)
Definition keywords (text : option jsstring) : option (list jsstring) :=
  match text with
  | Some t =>
      Some (filter (fun word => Nat.ltb 3 (length word))
                   (split nonword_re (toLowerCase t)))
  | None => None
  end.

Definition or_nil (xs : option (list jsstring)) : list jsstring :=
  match xs with
  | Some l => l
  | None => []
  end.

(** "Add hashtags": [tag.slice(1).toLowerCase()] for each tag of a post. *)
Definition hashtag_interests (post : Post) : list jsstring :=
  map (fun tag => toLowerCase (slice_from 1 tag)) (or_nil (hashtags post)).

Definition add_hashtags (interests : StringSet) (posts : list Post) : StringSet :=
  fold_left (fun s post => add_all s (hashtag_interests post)) posts interests.

(** "Extract keywords from captions". *)
Definition add_caption_keywords (interests : StringSet) (posts : list Post)
  : StringSet :=
  fold_left (fun s post => add_all s (or_nil (keywords (caption post))))
            posts interests.

(** "Add bio keywords". *)
Definition add_bio_keywords (interests : StringSet) (bio : option jsstring)
  : StringSet :=
  add_all interests (or_nil (keywords bio)).

(** "Extract interests from posts": [Array.from(interests)] at the end. *)
Definition extract_interests (profileData : InstagramProfile) : list jsstring :=
  let interests : StringSet := [] in
  let interests := add_hashtags interests (posts profileData) in
  let interests := add_caption_keywords interests (posts profileData) in
  let interests := add_bio_keywords interests (bio profileData) in
  interests.

(** What [request.json()] resolves to, or rejects with. *)
Record Request := { json_body : result value }.

Inductive Body :=
| Error (error : jsstring)
| Scraped (profile : InstagramProfile) (interests : list jsstring)
          (analysis : jsstring).

Record Response := { body : Body; status : N }.

Definition json (b : Body) (st : N) : Response := {| body := b; status := st |}.

(** [export async function POST(request: Request)]. *)
Definition POST (request : Request) : prog event Response :=
  try_catch
    (parsed <~ lift (json_body request) ;;
     username <~ lift (get parsed (lit "username")) ;;
     if negb (truthy username) then
       ret (json (Error (lit "Username is required")) 400)
     else
       scraped <~ safe (scrapeInstagramProfile username) ;;
       match scraped with
       | None => ret (json (Error (lit "Failed to fetch Instagram data")) 404)
       | Some profileData =>
           analysis <~ safe (analyzeProfile profileData) ;;
           let interests := extract_interests profileData in
           ret (json (Scraped profileData interests analysis) 200)
       end)
    (fun _ => Ret (json (Error (lit "Failed to fetch Instagram data")) 500)).

End WithUnicode.

End Scrape.

(* ===================================================================== *)
(** ** Vocabulary of the specification                                    *)
(* ===================================================================== *)

(** A Unicode table for concrete runs: it lower-cases the ASCII letters,
    as every table does, and leaves the other code points alone. *)
Definition ascii_table : Unicode :=
  {| toLowercase := map ascii_lower;
     toLowercase_ascii := fun cps _ => eq_refl |}.

(** A string without a surrogate that lacks its partner. *)
Fixpoint well_formed (s : jsstring) : bool :=
  match s with
  | [] => true
  | c :: s' =>
      if is_lead c then
        match s' with
        | d :: s'' => is_trail d && well_formed s''
        | [] => false
        end
      else negb (is_trail c) && well_formed s'
  end.

(** A Unicode scalar value: below 0x110000 and not a surrogate. *)
Definition scalar (cp : N) : bool :=
  N.ltb cp 1114112 && negb (in_range 55296 57343 cp).

(** A string of 16-bit code units, as every string of the language is. *)
Definition units16 (s : jsstring) : bool :=
  forallb (fun c => N.ltb c 65536) s.

(** Percent-encoding as the specification words it: every character (code
    point) that is not an unreserved URI component character is replaced
    by the [%XY] forms of its UTF-8 octets; the unreserved ones stay. *)
Definition percent_encode (cps : list N) : jsstring :=
  flat_map (fun cp => if unreserved cp then [cp] else percent_all (utf8 cp)) cps.

(** The one recommendation returned when the model's reply is of no use. *)
Definition fallback_recommendation (budget : number)
  : Recommend.GiftRecommendation :=
  {| Recommend.name := VStr (lit "No recommendations available");
     Recommend.description :=
       VStr (lit "No personalized gift recommendations available.");
     Recommend.price := budget;
     Recommend.match_reason := VStr (lit "No profile analysis available.");
     Recommend.amazon_link := lit "https://www.amazon.com/s?k=gift";
     Recommend.etsy_link := lit "https://www.etsy.com/search?q=gift" |}.

(** The chat completion whose first choice carries [text]. *)
Definition completion_with (text : jsstring) : ChatCompletion :=
  {| choices := [ {| message := Some {| content := Some text |} |} ] |}.

(** A world without state that answers by a fixed function. *)
Definition fixed_world {E : Type -> Type} (f : forall X, E X -> X) : world E unit :=
  fun s X e => (f X e, s).

(** A reply of the model that is prose, not JSON. *)
Definition prose_reply : jsstring := lit "Sorry, I cannot help with that.".

(** A world in which the image library and the image analysis fail and the
    model answers the recommendation request with [reply]. *)
Definition replying (reply : jsstring) : forall X, Recommend.event X -> X :=
  fun X e =>
    match e in Recommend.event T return T with
    | Recommend.SharpCompress _ => inl ExternalError
    | Recommend.GroqAnalyzeImage => inl ExternalError
    | Recommend.GroqRecommend _ _ _ => inr (completion_with reply)
    end.

(** The claim that the price of a recommendation is the model's price
    value, converted to a string, stripped of [$] and [,] and parsed. *)
Definition price_from_model_price (rec : value) (r : Recommend.GiftRecommendation)
  : Prop :=
  exists p text,
    get rec (lit "price") = ok p /\
    to_string p = ok text /\
    Recommend.price r = parseFloat (replace Recommend.currency_re [] text).

(** The claim that the two links of a recommendation embed its name,
    percent-encoded. *)
Definition links_embed_name (r : Recommend.GiftRecommendation) : Prop :=
  exists name_text,
    to_string (Recommend.name r) = ok name_text /\
    Recommend.amazon_link r
    = lit "https://www.amazon.com/s?k="
      ++ percent_encode (StringToCodePoints name_text) /\
    Recommend.etsy_link r
    = lit "https://www.etsy.com/search?q="
      ++ percent_encode (StringToCodePoints name_text).

(** Requests to the recommendation endpoint: a form without the age field,
    and a form with the age field given and a budget of 50. *)
Definition form_without_age : Recommend.Request :=
  {| Recommend.formData := ok [(lit "budget", Recommend.FString (lit "50"))] |}.

Definition form_with_age (age : jsstring) : Recommend.Request :=
  {| Recommend.formData :=
       ok [(lit "age", Recommend.FString age);
           (lit "budget", Recommend.FString (lit "50"))] |}.

(** The 400 response of the recommendation endpoint. *)
Definition missing_fields_response : Recommend.Response :=
  Recommend.json (Recommend.Error (lit "Missing required fields")) 400.

(** A reply with one item named with spaces, punctuation and an accented
    letter, and priced with a currency symbol; the item it parses to; the
    recommendation made of it. *)
Definition mug_reply : jsstring :=
  litq "Here you go: [{'name': 'Caf\u00e9 mug & saucer #2 (blue)!', 'price': '$1,200.50'}]".

Definition mug_item : value :=
  VObj [(lit "name", VStr (lit "Caf" ++ [233%N] ++ lit " mug & saucer #2 (blue)!"));
        (lit "price", VStr (lit "$1,200.50"))].

Definition mug_recommendation : Recommend.GiftRecommendation :=
  {| Recommend.name := VStr (lit "Caf" ++ [233%N] ++ lit " mug & saucer #2 (blue)!");
     Recommend.description := VStr [];
     Recommend.price := of_decimal false 12005 (-1);
     Recommend.match_reason := VStr [];
     Recommend.amazon_link :=
       lit "https://www.amazon.com/s?k=Caf%C3%A9%20mug%20%26%20saucer%20%232%20(blue)!";
     Recommend.etsy_link :=
       lit "https://www.etsy.com/search?q=Caf%C3%A9%20mug%20%26%20saucer%20%232%20(blue)!" |}.

(** A reply whose item is priced 0; the item; the recommendation made of
    it for a budget of 50. *)
Definition free_book_reply : jsstring :=
  litq "[{'name': 'Book', 'price': 0}]".

Definition free_book_item : value :=
  VObj [(lit "name", VStr (lit "Book")); (lit "price", VNum (zero false))].

Definition free_book_recommendation : Recommend.GiftRecommendation :=
  {| Recommend.name := VStr (lit "Book");
     Recommend.description := VStr [];
     Recommend.price := of_N false 50;
     Recommend.match_reason := VStr [];
     Recommend.amazon_link := lit "https://www.amazon.com/s?k=Book";
     Recommend.etsy_link := lit "https://www.etsy.com/search?q=Book" |}.

(** A string without [#] (code unit 35), and a string whose first code
    unit is a word character. *)
Definition no_hash (s : jsstring) : bool :=
  forallb (fun c => negb (N.eqb c 35)) s.

Definition starts_with_word (s : jsstring) : bool :=
  match s with
  | c :: _ => is_word c
  | [] => false
  end.

(** The page of a post whose caption is [text], and a profile with the
    posts of such pages. *)
Definition page_with_caption (text : jsstring) : Scrape.PostPage :=
  {| Scrape.h1_text := Some text;
     Scrape.img_src := None;
     Scrape.likes_text := None |}.

Definition profile_with_captions (captions : list jsstring) (bio : jsstring)
  : Scrape.InstagramProfile :=
  {| Scrape.username := VStr (lit "someone");
     Scrape.bio := Some bio;
     Scrape.posts := map (fun c => Scrape.postData (page_with_caption c)) captions |}.

(** Requests to the scrape endpoint, by their parsed body. *)
Definition scrape_request (parsed : value) : Scrape.Request :=
  {| Scrape.json_body := ok parsed |}.

(** The member [username] of a parsed JSON body, when the body is an
    object that has one; a body with a missing or empty username. *)
Definition body_username (parsed : value) : option value :=
  match parsed with
  | VObj members => lookup (lit "username") members
  | _ => None
  end.

Definition username_missing (parsed : value) : Prop :=
  body_username parsed = None \/ body_username parsed = Some (VStr []).

(** The 400 response of the scrape endpoint. *)
Definition username_required_response : Scrape.Response :=
  Scrape.json (Scrape.Error (lit "Username is required")) 400.

(** A world in which the browser cannot be launched and the inference API
    is down. *)
Definition offline : forall X, Scrape.event X -> X :=
  fun X e =>
    match e in Scrape.event T return T with
    | Scrape.Launch => inl ExternalError
    | Scrape.NewPage => inl ExternalError
    | Scrape.SetViewport => inl ExternalError
    | Scrape.Goto _ _ => inl ExternalError
    | Scrape.WaitForSelector => inl ExternalError
    | Scrape.QueryPostLinks => inl ExternalError
    | Scrape.QueryPost => inl ExternalError
    | Scrape.QueryBio => inl ExternalError
    | Scrape.Close => inl ExternalError
    | Scrape.GroqAnalyzeProfile _ => inl ExternalError
    end.

(** A world in which the profile shows one post, captioned [caption], and
    the biography [bio], and the model answers [analysis]. *)
Definition online (caption bio analysis : jsstring)
  : forall X, Scrape.event X -> X :=
  fun X e =>
    match e in Scrape.event T return T with
    | Scrape.Launch => ok tt
    | Scrape.NewPage => ok tt
    | Scrape.SetViewport => ok tt
    | Scrape.Goto _ _ => ok tt
    | Scrape.WaitForSelector => ok tt
    | Scrape.QueryPostLinks => ok [lit "https://www.instagram.com/p/1/"]
    | Scrape.QueryPost => ok (page_with_caption caption)
    | Scrape.QueryBio => ok (Some bio)
    | Scrape.Close => ok tt
    | Scrape.GroqAnalyzeProfile _ => ok (completion_with analysis)
    end.

(** A world in which the image library returns [compressed] and the model
    answers both requests with [reply]. *)
Definition compressing (compressed : Buffer) (reply : jsstring)
  : forall X, Recommend.event X -> X :=
  fun X e =>
    match e in Recommend.event T return T with
    | Recommend.SharpCompress _ => ok compressed
    | Recommend.GroqAnalyzeImage => ok (completion_with reply)
    | Recommend.GroqRecommend _ _ _ => ok (completion_with reply)
    end.

(** ** Vocabulary of the further properties *)

(** The recommendation requests among the calls of a run: the age, the
    budget and the analysis each was made with. *)
Definition recommend_request (c : call Recommend.event)
  : list (number * number * jsstring) :=
  match c with
  | Called e _ =>
      match e with
      | Recommend.GroqRecommend age budget profileAnalysis =>
          [(age, budget, profileAnalysis)]
      | _ => []
      end
  end.

Definition recommend_requests (cs : list (call Recommend.event))
  : list (number * number * jsstring) :=
  flat_map recommend_request cs.

(** The image field of a form is usable: absent, empty, or a file. *)
Definition image_usable (formData : Recommend.FormData) : bool :=
  match Recommend.form_get (lit "instagram-grid") formData with
  | Some (Recommend.FString (_ :: _)) => false
  | _ => true
  end.

(** A form with an age of 30, a budget of 50 and an uploaded file. *)
Definition form_with_image (bytes : Buffer) : Recommend.Request :=
  {| Recommend.formData :=
       ok [(lit "age", Recommend.FString (lit "30"));
           (lit "budget", Recommend.FString (lit "50"));
           (lit "instagram-grid", Recommend.FFile bytes)] |}.

(** A string without an opening square bracket (code unit 91), and one
    without a closing square bracket (code unit 93). *)
Definition no_open (s : jsstring) : bool :=
  forallb (fun c => negb (N.eqb c 91)) s.

Definition no_close (s : jsstring) : bool :=
  forallb (fun c => negb (N.eqb c 93)) s.

(** What the cleaning leaves: no white space but the plain space, and no
    curly quote. *)
Definition plain (c : codeunit) : bool :=
  (negb (is_space c) || N.eqb c 32)
  && negb (codes [8220; 8221; 8216; 8217]%N c).

(** A character that needs no escaping in a URL query: unreserved, or the
    [%] of an escape. *)
Definition url_safe (c : codeunit) : bool := unreserved c || N.eqb c 37.

(** The characters of base64 text: the alphabet and the padding [=]. *)
Definition is_base64 (c : codeunit) : bool :=
  is_upper c || is_lower c || is_digit c
  || N.eqb c 43 || N.eqb c 47 || N.eqb c 61.

(** A world that answers the recommendation request with [answer] and in
    which the image library and the image analysis fail. *)
Definition answering (answer : result ChatCompletion)
  : forall X, Recommend.event X -> X :=
  fun X e =>
    match e in Recommend.event T return T with
    | Recommend.SharpCompress _ => inl ExternalError
    | Recommend.GroqAnalyzeImage => inl ExternalError
    | Recommend.GroqRecommend _ _ _ => answer
    end.

(** A call that closes the browser and is answered without an error. *)
Definition closes_browser (c : call Scrape.event) : bool :=
  match c with
  | Called e answer =>
      match e in Scrape.event T return T -> bool with
      | Scrape.Close => fun a => match a with inr _ => true | inl _ => false end
      | _ => fun _ => false
      end answer
  end.

(** The pages a run navigates to, in order, each with its [waitUntil:
    "networkidle0"] option. *)
Definition navigation (c : call Scrape.event) : list (jsstring * bool) :=
  match c with
  | Called e _ =>
      match e with
      | Scrape.Goto url networkidle0 => [(url, networkidle0)]
      | _ => []
      end
  end.

Definition navigations (cs : list (call Scrape.event)) : list (jsstring * bool) :=
  flat_map navigation cs.

(** A lower-case letter, a digit or an underscore. *)
Definition is_lower_word (c : codeunit) : bool :=
  is_lower c || is_digit c || N.eqb c 95.

(** The recommendation made of an item without members, for a budget of
    50. *)
Definition unnamed_recommendation : Recommend.GiftRecommendation :=
  {| Recommend.name := VStr (lit "Gift suggestion");
     Recommend.description := VStr [];
     Recommend.price := of_N false 50;
     Recommend.match_reason := VStr [];
     Recommend.amazon_link := lit "https://www.amazon.com/s?k=";
     Recommend.etsy_link := lit "https://www.etsy.com/search?q=" |}.

(* ===================================================================== *)
(** * Part II: theorems                                                   *)
(* ===================================================================== *)

(** ** Facts about the runtime model *)

Lemma str_eqb_eq : forall a b, str_eqb a b = true <-> a = b.
Proof.
  induction a as [|x a IH]; destruct b as [|y b]; simpl; split;
    try congruence; try discriminate.
  - intros Hxy. apply andb_prop in Hxy as [Hx Ha].
    apply N.eqb_eq in Hx. apply IH in Ha. congruence.
  - intros Heq. injection Heq as -> ->.
    rewrite N.eqb_refl. simpl. now apply IH.
Qed.

Lemma str_eqb_refl : forall a, str_eqb a a = true.
Proof. intros a. now apply str_eqb_eq. Qed.

(** ** Facts about programs *)

Section ProgramFacts.

Variable E : Type -> Type.
Variable S : Type.
Variable w : world E S.

(** Running a sequence: the second part runs in the state the first part
    leaves, on what the first part returns. *)
Lemma run_pbind :
  forall (A B : Type) (p : prog E A) (f : A -> prog E B) s,
    run w s (pbind p f) = run w (after w s p) (f (run w s p)).
Proof.
  induction p as [r | X e k IH]; intros f s; simpl; [reflexivity|].
  destruct (w s e) as [x s']. apply IH.
Qed.

Lemma calls_pbind :
  forall (A B : Type) (p : prog E A) (f : A -> prog E B) s,
    calls w s (pbind p f)
    = calls w s p ++ calls w (after w s p) (f (run w s p)).
Proof.
  induction p as [r | X e k IH]; intros f s; simpl; [reflexivity|].
  destruct (w s e) as [x s']. simpl. f_equal. apply IH.
Qed.

(** A sequence of steps that may throw returns only if its first step
    returns. *)
Lemma run_tbind_ok :
  forall (A B : Type) (c : task E A) (k : A -> task E B) s y,
    run w s (tbind c k) = ok y ->
    exists x, run w s c = ok x /\ run w (after w s c) (k x) = ok y.
Proof.
  intros A B c k s y. unfold tbind. rewrite run_pbind.
  destruct (run w s c) as [e|x]; simpl; [discriminate|]. eauto.
Qed.

(** What [try ... catch] returns. *)
Lemma run_try_catch :
  forall (A : Type) (body : task E A) (handler : exn -> prog E A) s,
    run w s (try_catch body handler)
    = match run w s body with
      | inl e => run w (after w s body) (handler e)
      | inr x => x
      end.
Proof.
  intros A body handler s. unfold try_catch. rewrite run_pbind.
  destruct (run w s body); reflexivity.
Qed.

Lemma run_safe :
  forall (A : Type) (p : prog E A) s, run w s (safe p) = ok (run w s p).
Proof. intros A p s. unfold safe. now rewrite run_pbind. Qed.

End ProgramFacts.

(** *** The runtime model on known inputs *)

Example number_to_string_examples :
  map number_to_string
      [of_N false 50; of_decimal false 1 (-1); of_decimal true 15 (-1);
       of_decimal false 1 21; of_decimal false 1 (-7);
       of_decimal false 12005 (-1); of_decimal false 5 (-324);
       of_decimal false 1 400; NaN; zero true]
  = [lit "50"; lit "0.1"; lit "-1.5"; lit "1e+21"; lit "1e-7";
     lit "1200.5"; lit "5e-324"; lit "Infinity"; lit "NaN"; lit "0"].
Proof. vm_compute. reflexivity. Qed.

Example parseFloat_examples :
  map (fun s => number_to_string (parseFloat (lit s)))
      ["1200.50"; "  12.5px"; "-.5e3"; "1e"; "5."; "abc"; ""; "1,200"]%string
  = [lit "1200.5"; lit "12.5"; lit "-500"; lit "1"; lit "5"; lit "NaN";
     lit "NaN"; lit "1"].
Proof. vm_compute. reflexivity. Qed.

Example StringToNumber_examples :
  map (fun s => number_to_string (StringToNumber (lit s)))
      ["30"; " 12.5 "; ""; "12px"; "0x1F"; "1e3"; "-0"; "abc"]%string
  = [lit "30"; lit "12.5"; lit "0"; lit "NaN"; lit "31"; lit "1000";
     lit "0"; lit "NaN"].
Proof. vm_compute. reflexivity. Qed.

Example JSON_parse_examples :
  JSON_parse (litq "{'a': [1, true, null, 'x\ny'], 'a': 2}")
  = ok (VObj [(lit "a", VArr [VNum (of_N false 1); VBool true; VNull;
                              VStr [120; 10; 121]%N]);
              (lit "a", VNum (of_N false 2))])
  /\ get (VObj [(lit "a", VNull); (lit "a", VNum (of_N false 2))]) (lit "a")
     = ok (VNum (of_N false 2))
  /\ JSON_parse (litq "[1,]") = throw SyntaxError
  /\ JSON_parse (litq "{'a':1,}") = throw SyntaxError
  /\ JSON_parse (lit "01") = throw SyntaxError
  /\ JSON_parse (lit "") = throw SyntaxError
  /\ JSON_parse (lit " [ ] ") = ok (VArr []).
Proof. vm_compute. repeat split. Qed.

Example to_string_examples :
  to_string (VArr [VNum (of_N false 1); VNull; VArr [VStr (lit "a"); VObj []]])
  = ok (lit "1,,a,[object Object]")
  /\ to_string (VObj [(lit "toString", VNum (of_N false 1))]) = throw TypeError.
Proof. vm_compute. split; reflexivity. Qed.

Example decodeURIComponent_examples :
  decodeURIComponent (lit "Caf%C3%A9%20%26%20%F0%9F%98%80")
  = ok (lit "Caf" ++ [233; 32; 38; 32; 55357; 56832]%N)
  /\ decodeURIComponent (lit "%C0%80") = throw URIError
  /\ decodeURIComponent (lit "%ED%A0%80") = throw URIError
  /\ decodeURIComponent (lit "100%") = throw URIError.
Proof. vm_compute. repeat split. Qed.

Example encodeURIComponent_examples :
  encodeURIComponent (lit "a b&c/d'e(f)")
  = ok (lit "a%20b%26c%2Fd'e(f)")
  /\ encodeURIComponent [8364%N] = ok (lit "%E2%82%AC")
  /\ encodeURIComponent [55357%N; 56832%N] = ok (lit "%F0%9F%98%80")
  /\ encodeURIComponent [55357%N] = throw URIError.
Proof. vm_compute. repeat split. Qed.

Example base64_examples :
  map (fun s => base64 (lit s)) [""; "f"; "fo"; "foo"; "foobar"]%string
  = [lit ""; lit "Zg=="; lit "Zm8="; lit "Zm9v"; lit "Zm9vYmFy"].
Proof. vm_compute. reflexivity. Qed.

Example regex_examples :
  replace [star (oneof "a")] (lit "x") (lit "baaac") = lit "xbxxcx"
  /\ split [plus nonwordc] (lit "hello, big  world!")
     = [lit "hello"; lit "big"; lit "world"; lit ""]
  /\ split [plus nonwordc] (lit "") = [lit ""]
  /\ match_first [one (oneof "["); star anyc; one (oneof "]")]
                 (lit "so: [1, [2]] ok] bye")
     = Some (lit "[1, [2]] ok]")
  /\ match_all [one (oneof "#"); plus wordc] (lit "no tags here") = None.
Proof. vm_compute. repeat split. Qed.

Ltac bool_to_prop :=
  repeat (rewrite ?orb_true_iff, ?andb_true_iff, ?orb_false_iff,
            ?andb_false_iff, ?negb_true_iff, ?negb_false_iff,
            ?N.leb_le, ?N.leb_gt, ?N.eqb_eq, ?N.eqb_neq,
            ?N.ltb_lt, ?N.ltb_ge in * ).

(** *** encodeURIComponent against percent-encoding *)

Lemma unreserved_ascii : forall c, unreserved c = true -> (c < 128)%N.
Proof.
  intros c.
  unfold unreserved, is_upper, is_lower, is_digit, in_range, oneof, codes.
  simpl. bool_to_prop. lia.
Qed.

Lemma unreserved_not_surrogate :
  forall c, unreserved c = true -> is_lead c = false /\ is_trail c = false.
Proof.
  intros c Hu. apply unreserved_ascii in Hu.
  unfold is_lead, is_trail, in_range. bool_to_prop. lia.
Qed.

Lemma lead_not_trail : forall c, is_lead c = true -> is_trail c = false.
Proof.
  intros c. unfold is_lead, is_trail, in_range. bool_to_prop. lia.
Qed.

Lemma pair_not_unreserved :
  forall c d, unreserved (pair_to_codepoint c d) = false.
Proof.
  intros c d.
  destruct (unreserved (pair_to_codepoint c d)) eqn:Hu; [|reflexivity].
  apply unreserved_ascii in Hu. unfold pair_to_codepoint in Hu. lia.
Qed.

(** The loop of [encodeURIComponent], which walks the code units, does
    what the specification says about the characters of the string: on a
    well-formed string it percent-encodes the code points that are not
    unreserved, and on any other string it throws. *)
Lemma encodeURIComponent_percent_encode :
  forall s,
    encodeURIComponent s
    = if well_formed s then ok (percent_encode (StringToCodePoints s))
      else throw URIError.
Proof.
  assert (Hlen : forall n s, length s <= n ->
            encodeURIComponent s
            = if well_formed s then ok (percent_encode (StringToCodePoints s))
              else throw URIError).
  { induction n as [|n IH]; intros s Hs.
    - destruct s; [reflexivity | simpl in Hs; lia].
    - destruct s as [|c s']; [reflexivity|].
      simpl in Hs.
      cbn [encodeURIComponent well_formed StringToCodePoints].
      destruct (unreserved c) eqn:Hu.
      + destruct (unreserved_not_surrogate c Hu) as [-> ->].
        rewrite (IH s') by lia. cbn [negb andb].
        destruct (well_formed s'); [|reflexivity].
        unfold percent_encode. cbn [flat_map]. rewrite Hu. reflexivity.
      + destruct (is_trail c) eqn:Ht.
        * destruct (is_lead c) eqn:Hl.
          -- apply lead_not_trail in Hl. congruence.
          -- reflexivity.
        * destruct (is_lead c) eqn:Hl.
          -- destruct s' as [|d s'']; [reflexivity|].
             destruct (is_trail d) eqn:Htd; [|reflexivity].
             simpl in Hs. rewrite (IH s'') by lia. cbn [andb].
             destruct (well_formed s''); [|reflexivity].
             unfold percent_encode. cbn [flat_map].
             rewrite pair_not_unreserved. reflexivity.
          -- rewrite (IH s') by lia. cbn [negb andb].
             destruct (well_formed s'); [|reflexivity].
             unfold percent_encode. cbn [flat_map]. rewrite Hu. reflexivity. }
  intros s. apply (Hlen (length s)). apply Nat.le_refl.
Qed.

Lemma encodeURIComponent_ok :
  forall s r,
    encodeURIComponent s = ok r ->
    well_formed s = true /\ r = percent_encode (StringToCodePoints s).
Proof.
  intros s r. rewrite encodeURIComponent_percent_encode.
  destruct (well_formed s); [|discriminate].
  intros Heq. injection Heq as <-. split; reflexivity.
Qed.

(** *** decodeURIComponent after encodeURIComponent *)

Section URIRoundTrip.

Local Open Scope N_scope.

(** A check on every number below a bound, done by computing. *)
Lemma below_cases :
  forall (f : N -> bool) (n : nat),
    forallb f (map N.of_nat (seq 0 n)) = true ->
    forall x, (x < N.of_nat n)%N -> f x = true.
Proof.
  intros f n Hall x Hx. rewrite forallb_forall in Hall. apply Hall.
  apply in_map_iff. exists (N.to_nat x). split; [apply N2Nat.id|].
  apply in_seq. lia.
Qed.

Lemma radix_hex : forall d, (d < 16)%N -> radix_digit 16 (hex_digit d) = Some d.
Proof.
  intros d Hd.
  assert (H := @below_cases (fun d => match radix_digit 16 (hex_digit d) with Some x => N.eqb x d | None => false end) 16 eq_refl d Hd).
  simpl in H. destruct (radix_digit 16 (hex_digit d)); [|discriminate].
  apply N.eqb_eq in H. now subst.
Qed.

Lemma octet_split : forall b, (b < 256)%N -> (N.shiftr b 4 < 16 /\ N.land b 15 < 16 /\ N.shiftr b 4 * 16 + N.land b 15 = b)%N.
Proof.
  intros b Hb. rewrite N.shiftr_div_pow2. change 15%N with (N.ones 4). rewrite N.land_ones.
  change (2 ^ 4)%N with 16%N. 
  pose proof (N.div_mod b 16). pose proof (N.mod_lt b 16).
  assert (b / 16 < 16)%N by (apply N.Div0.div_lt_upper_bound; lia).
  lia.
Qed.

(** One escape [%XY] is read as one octet. *)
Lemma decode_percent :
  forall u b rest,
    (b < 256)%N ->
    decode (Plain u) (percent b ++ rest)
    = match on_octet u b with
      | Some (out, u') => option_map (app out) (decode (Plain u') rest)
      | None => None
      end.
Proof.
  intros u b rest Hb. destruct (octet_split Hb) as [Hhi [Hlo Hsum]].
  unfold percent. cbn [app decode N.eqb Pos.eqb].
  rewrite (radix_hex Hhi), (radix_hex Hlo), Hsum. reflexivity.
Qed.


(** [N.lor] of a marker and a payload that fits under it is their sum. *)
Lemma lor_marker :
  forall x,
    ((x < 64 -> N.lor 128 x = 128 + x)
     /\ (x < 32 -> N.lor 192 x = 192 + x)
     /\ (x < 16 -> N.lor 224 x = 224 + x)
     /\ (x < 8 -> N.lor 240 x = 240 + x))%N.
Proof.
  intros x. repeat split; intros Hx.
  - apply N.eqb_eq. apply (@below_cases (fun x => N.eqb (N.lor 128 x) (128 + x)) 64%nat eq_refl x Hx).
  - apply N.eqb_eq. apply (@below_cases (fun x => N.eqb (N.lor 192 x) (192 + x)) 32%nat eq_refl x Hx).
  - apply N.eqb_eq. apply (@below_cases (fun x => N.eqb (N.lor 224 x) (224 + x)) 16%nat eq_refl x Hx).
  - apply N.eqb_eq. apply (@below_cases (fun x => N.eqb (N.lor 240 x) (240 + x)) 8%nat eq_refl x Hx).
Qed.

(** The octets of [utf8] by division instead of bit operations. *)
Lemma utf8_arith :
  forall cp,
    utf8 cp
    = if N.ltb cp 128 then [cp]
      else if N.ltb cp 2048 then [192 + cp / 64; 128 + cp mod 64]
      else if N.ltb cp 65536 then
        [224 + cp / 4096; 128 + (cp / 64) mod 64; 128 + cp mod 64]
      else if N.ltb cp 2097152 then
        [240 + cp / 262144; 128 + (cp / 4096) mod 64;
         128 + (cp / 64) mod 64; 128 + cp mod 64]
      else utf8 cp.
Proof.
  intros cp. unfold utf8.
  assert (Hland : forall y, N.land y 63 = y mod 64).
  { intros y. change 63 with (N.ones 6). now rewrite N.land_ones. }
  assert (Hlow : forall y, N.lor 128 (N.land y 63) = 128 + y mod 64).
  { intros y. rewrite Hland. apply lor_marker. apply N.mod_lt. discriminate. }
  rewrite !Hlow, !N.shiftr_div_pow2.
  change (2 ^ 6) with 64. change (2 ^ 12) with 4096. change (2 ^ 18) with 262144.
  destruct (N.ltb cp 128) eqn:H1; [reflexivity|].
  destruct (N.ltb cp 2048) eqn:H2.
  { f_equal. apply lor_marker. apply N.ltb_lt in H2.
    apply N.Div0.div_lt_upper_bound. lia. }
  destruct (N.ltb cp 65536) eqn:H3.
  { f_equal. apply lor_marker. apply N.ltb_lt in H3.
    apply N.Div0.div_lt_upper_bound. lia. }
  destruct (N.ltb cp 2097152) eqn:H4; [|reflexivity].
  f_equal. apply lor_marker. apply N.ltb_lt in H4.
  apply N.Div0.div_lt_upper_bound. lia.
Qed.

Lemma on_octet_ascii : forall b, b < 128 -> on_octet Fresh b = Some ([b], Fresh).
Proof. intros b Hb. unfold on_octet. apply N.ltb_lt in Hb. now rewrite Hb. Qed.

Lemma on_octet_lead2 :
  forall x, x < 32 -> on_octet Fresh (192 + x) = Some ([], Pending 1 x 128).
Proof.
  intros x Hx. unfold on_octet, in_range.
  replace (192 + x <? 128) with false by (symmetry; bool_to_prop; lia).
  replace ((192 <=? 192 + x) && (192 + x <=? 223)) with true
    by (symmetry; bool_to_prop; lia).
  now replace (192 + x - 192) with x by lia.
Qed.

Lemma on_octet_lead3 :
  forall x, x < 16 -> on_octet Fresh (224 + x) = Some ([], Pending 2 x 2048).
Proof.
  intros x Hx. unfold on_octet, in_range.
  replace (224 + x <? 128) with false by (symmetry; bool_to_prop; lia).
  replace ((192 <=? 224 + x) && (224 + x <=? 223)) with false
    by (symmetry; bool_to_prop; lia).
  replace ((224 <=? 224 + x) && (224 + x <=? 239)) with true
    by (symmetry; bool_to_prop; lia).
  now replace (224 + x - 224) with x by lia.
Qed.

Lemma on_octet_lead4 :
  forall x, x < 8 -> on_octet Fresh (240 + x) = Some ([], Pending 3 x 65536).
Proof.
  intros x Hx. unfold on_octet, in_range.
  replace (240 + x <? 128) with false by (symmetry; bool_to_prop; lia).
  replace ((192 <=? 240 + x) && (240 + x <=? 223)) with false
    by (symmetry; bool_to_prop; lia).
  replace ((224 <=? 240 + x) && (240 + x <=? 239)) with false
    by (symmetry; bool_to_prop; lia).
  replace ((240 <=? 240 + x) && (240 + x <=? 247)) with true
    by (symmetry; bool_to_prop; lia).
  now replace (240 + x - 240) with x by lia.
Qed.

Lemma on_octet_continue :
  forall n acc least x,
    x < 64 ->
    on_octet (Pending (S (S n)) acc least) (128 + x)
    = Some ([], Pending (S n) (acc * 64 + x) least).
Proof.
  intros n acc least x Hx. unfold on_octet, in_range.
  replace ((128 <=? 128 + x) && (128 + x <=? 191)) with true
    by (symmetry; bool_to_prop; lia).
  now replace (128 + x - 128) with x by lia.
Qed.

Lemma on_octet_last :
  forall acc least x,
    x < 64 ->
    least <= acc * 64 + x ->
    scalar (acc * 64 + x) = true ->
    on_octet (Pending 1 acc least) (128 + x)
    = Some (codepoint_to_units (acc * 64 + x), Fresh).
Proof.
  intros acc least x Hx Hleast Hscalar. unfold on_octet, in_range.
  replace ((128 <=? 128 + x) && (128 + x <=? 191)) with true
    by (symmetry; bool_to_prop; lia).
  replace (128 + x - 128) with x by lia.
  unfold scalar, in_range in Hscalar. apply N.leb_le in Hleast.
  rewrite Hleast. cbn [andb]. now rewrite Hscalar.
Qed.

(** The escapes of one code point are read back as that code point. *)
Lemma decode_codepoint :
  forall cp rest,
    scalar cp = true ->
    decode (Plain Fresh) (percent_all (utf8 cp) ++ rest)
    = option_map (app (codepoint_to_units cp)) (decode (Plain Fresh) rest).
Proof.
  intros cp rest Hscalar.
  assert (Hcp := Hscalar). unfold scalar, in_range in Hcp. bool_to_prop.
  destruct Hcp as [Hmax Hsur].
  pose proof (N.div_mod cp 64 ltac:(discriminate)) as H64.
  pose proof (N.mod_lt cp 64 ltac:(discriminate)) as Hm64.
  rewrite utf8_arith. unfold percent_all.
  destruct (N.ltb cp 128) eqn:H1.
  { apply N.ltb_lt in H1. cbn [flat_map]. rewrite app_nil_r.
    rewrite decode_percent by lia. rewrite on_octet_ascii by assumption.
    unfold codepoint_to_units.
    replace (cp <? 65536) with true by (symmetry; bool_to_prop; lia).
    reflexivity. }
  apply N.ltb_ge in H1.
  destruct (N.ltb cp 2048) eqn:H2.
  { apply N.ltb_lt in H2.
    assert (cp / 64 < 32) by (apply N.Div0.div_lt_upper_bound; lia).
    cbn [flat_map]. rewrite app_nil_r, <- app_assoc.
    rewrite decode_percent by lia. rewrite on_octet_lead2 by assumption.
    rewrite decode_percent by lia.
    rewrite on_octet_last; try assumption.
    - replace (cp / 64 * 64 + cp mod 64) with cp by lia.
      destruct (decode (Plain Fresh) rest); reflexivity.
    - lia.
    - now replace (cp / 64 * 64 + cp mod 64) with cp by lia. }
  apply N.ltb_ge in H2.
  pose proof (N.div_mod (cp / 64) 64 ltac:(discriminate)) as H4096.
  pose proof (N.mod_lt (cp / 64) 64 ltac:(discriminate)) as Hm4096.
  assert (Hdd : cp / 64 / 64 = cp / 4096) by (rewrite N.Div0.div_div; reflexivity).
  destruct (N.ltb cp 65536) eqn:H3.
  { apply N.ltb_lt in H3.
    assert (cp / 4096 < 16) by (apply N.Div0.div_lt_upper_bound; lia).
    cbn [flat_map]. rewrite app_nil_r, <- !app_assoc.
    rewrite decode_percent by lia. rewrite on_octet_lead3 by assumption.
    rewrite decode_percent by lia. rewrite on_octet_continue by assumption.
    rewrite decode_percent by lia.
    assert (Heq : (cp / 4096 * 64 + (cp / 64) mod 64) * 64 + cp mod 64 = cp) by lia.
    rewrite on_octet_last; try assumption.
    - rewrite Heq. destruct (decode (Plain Fresh) rest); reflexivity.
    - lia.
    - now rewrite Heq. }
  apply N.ltb_ge in H3.
  replace (cp <? 2097152) with true by (symmetry; bool_to_prop; lia).
  pose proof (N.div_mod (cp / 4096) 64 ltac:(discriminate)) as H18.
  pose proof (N.mod_lt (cp / 4096) 64 ltac:(discriminate)) as Hm18.
  assert (Hddd : cp / 4096 / 64 = cp / 262144) by (rewrite N.Div0.div_div; reflexivity).
  assert (cp / 262144 < 8) by (apply N.Div0.div_lt_upper_bound; lia).
  cbn [flat_map]. rewrite app_nil_r, <- !app_assoc.
  rewrite decode_percent by lia. rewrite on_octet_lead4 by assumption.
  rewrite decode_percent by lia. rewrite on_octet_continue by assumption.
  rewrite decode_percent by lia. rewrite on_octet_continue by assumption.
  rewrite decode_percent by lia.
  assert (Heq : ((cp / 262144 * 64 + (cp / 4096) mod 64) * 64
                 + (cp / 64) mod 64) * 64 + cp mod 64 = cp) by lia.
  rewrite on_octet_last; try assumption.
  - rewrite Heq. destruct (decode (Plain Fresh) rest); reflexivity.
  - lia.
  - now rewrite Heq.
Qed.

Lemma decode_percent_encode :
  forall cps,
    forallb scalar cps = true ->
    decode (Plain Fresh) (percent_encode cps) = Some (CodePointsToString cps).
Proof.
  unfold percent_encode, CodePointsToString.
  induction cps as [|cp cps IH]; [reflexivity|].
  cbn [forallb flat_map]. intros Hall.
  apply andb_prop in Hall as [Hcp Hall].
  destruct (unreserved cp) eqn:Hu.
  - assert (H37 : N.eqb cp 37 = false).
    { destruct (N.eqb cp 37) eqn:Heq; [|reflexivity].
      apply N.eqb_eq in Heq. subst cp. discriminate Hu. }
    apply unreserved_ascii in Hu.
    cbn [app decode]. rewrite H37, (IH Hall). unfold codepoint_to_units.
    replace (cp <? 65536) with true by (symmetry; bool_to_prop; lia).
    reflexivity.
  - rewrite decode_codepoint by assumption. now rewrite (IH Hall).
Qed.

Lemma pair_roundtrip :
  forall c d,
    is_lead c = true -> is_trail d = true ->
    scalar (pair_to_codepoint c d) = true
    /\ codepoint_to_units (pair_to_codepoint c d) = [c; d].
Proof.
  intros c d Hc Hd. unfold is_lead, is_trail, in_range in *. bool_to_prop.
  unfold scalar, codepoint_to_units, pair_to_codepoint, in_range.
  split; [bool_to_prop; lia|].
  replace ((c - 55296) * 1024 + (d - 56320) + 65536 <? 65536) with false
    by (symmetry; bool_to_prop; lia).
  replace ((c - 55296) * 1024 + (d - 56320) + 65536 - 65536)
    with ((d - 56320) + (c - 55296) * 1024) by lia.
  rewrite N.shiftr_div_pow2. change 1023 with (N.ones 10). rewrite N.land_ones.
  change (2 ^ 10) with 1024.
  rewrite N.div_add by discriminate. rewrite N.Div0.mod_add.
  rewrite N.div_small, N.mod_small by lia.
  f_equal; [lia | f_equal; lia].
Qed.

Lemma codepoints_roundtrip :
  forall s,
    units16 s = true ->
    well_formed s = true ->
    forallb scalar (StringToCodePoints s) = true
    /\ CodePointsToString (StringToCodePoints s) = s.
Proof.
  assert (Hlen : forall n s, (length s <= n)%nat ->
            units16 s = true -> well_formed s = true ->
            forallb scalar (StringToCodePoints s) = true
            /\ CodePointsToString (StringToCodePoints s) = s).
  { unfold CodePointsToString.
    induction n as [|n IH]; intros s Hs H16 Hwf.
    - destruct s; [split; reflexivity | simpl in Hs; lia].
    - destruct s as [|c s']; [split; reflexivity|].
      simpl in Hs. cbn [units16 forallb] in H16.
      apply andb_prop in H16 as [Hc H16].
      cbn [well_formed StringToCodePoints] in *.
      destruct (is_lead c) eqn:Hl.
      + destruct s' as [|d s'']; [discriminate|].
        apply andb_prop in Hwf as [Hd Hwf]. rewrite Hd.
        cbn [forallb] in H16. apply andb_prop in H16 as [_ H16].
        simpl in Hs.
        destruct (IH s'' ltac:(lia) H16 Hwf) as [IH1 IH2].
        destruct (pair_roundtrip _ _ Hl Hd) as [Hsc Hunits].
        cbn [forallb flat_map]. rewrite Hsc, IH1, Hunits, IH2. split; reflexivity.
      + apply andb_prop in Hwf as [Ht Hwf]. apply negb_true_iff in Ht.
        destruct (IH s' ltac:(lia) H16 Hwf) as [IH1 IH2].
        cbn [forallb flat_map]. rewrite IH1, IH2.
        unfold codepoint_to_units. rewrite Hc.
        split; [|reflexivity]. rewrite andb_true_r.
        unfold scalar, is_lead, is_trail, in_range in *. bool_to_prop. lia. }
  intros s. apply (Hlen (length s)). apply Nat.le_refl.
Qed.

(** What [encodeURIComponent] writes, [decodeURIComponent] reads back: the
    encoding loses nothing of the string. *)
Theorem decodeURIComponent_encodeURIComponent :
  forall s r,
    units16 s = true ->
    encodeURIComponent s = ok r ->
    decodeURIComponent r = ok s.
Proof.
  intros s r H16 Henc.
  apply encodeURIComponent_ok in Henc as [Hwf ->].
  destruct (codepoints_roundtrip s H16 Hwf) as [Hsc Hback].
  unfold decodeURIComponent. rewrite decode_percent_encode by assumption.
  now rewrite Hback.
Qed.

End URIRoundTrip.

(** ** The interests of the scrape endpoint *)

Module ScrapeFacts.

Import Scrape.

Section Interests.

Context `{Unicode}.

Lemma set_has_In : forall x s, set_has x s = true <-> In x s.
Proof.
  intros x s. unfold set_has. rewrite existsb_exists. split.
  - intros [y [Hy Heq]]. apply str_eqb_eq in Heq. now subst.
  - intros Hin. exists x. split; [assumption | apply str_eqb_refl].
Qed.

(** [add] keeps what is in the set and puts the new element in. *)
Lemma In_set_add : forall s x y, In y (set_add s x) <-> In y s \/ y = x.
Proof.
  intros s x y. unfold set_add.
  destruct (set_has x s) eqn:Hhas.
  - apply set_has_In in Hhas. split; [now left | intros [Hy | ->]; assumption].
  - rewrite in_app_iff. simpl. intuition.
Qed.

Lemma In_add_all : forall xs s y, In y (add_all s xs) <-> In y s \/ In y xs.
Proof.
  unfold add_all.
  induction xs as [|x xs IH]; intros s y; simpl.
  - intuition.
  - rewrite IH, In_set_add. intuition.
Qed.

Lemma In_fold_add_all :
  forall (A : Type) (f : A -> list jsstring) (l : list A) s y,
    In y (fold_left (fun s a => add_all s (f a)) l s)
    <-> In y s \/ exists a, In a l /\ In y (f a).
Proof.
  intros A f. induction l as [|a l IH]; intros s y; simpl.
  - split; [now left | intros [Hy | [a [[] _]]]; assumption].
  - rewrite IH, In_add_all. split.
    + intros [[Hy | Hy] | [b [Hb Hy]]].
      * now left.
      * right. exists a. auto.
      * right. exists b. auto.
    + intros [Hy | [b [[-> | Hb] Hy]]].
      * left. now left.
      * left. now right.
      * right. exists b. auto.
Qed.

(** Where each interest comes from: a hashtag of a post, a keyword of a
    caption, or a keyword of the biography. *)
Lemma In_extract_interests :
  forall profileData y,
    In y (extract_interests profileData)
    <-> (exists post, In post (posts profileData) /\ In y (hashtag_interests post))
        \/ (exists post, In post (posts profileData)
                         /\ In y (or_nil (keywords (caption post))))
        \/ In y (or_nil (keywords (bio profileData))).
Proof.
  intros profileData y. unfold extract_interests, add_bio_keywords,
    add_caption_keywords, add_hashtags.
  rewrite In_add_all.
  rewrite (In_fold_add_all (fun post => or_nil (keywords (caption post)))).
  rewrite (In_fold_add_all hashtag_interests).
  simpl. intuition.
Qed.

(** The keywords of a text are the pieces between runs of non-word
    characters of the lower-cased text, those of more than 3 code units. *)
Lemma In_keywords :
  forall (t : jsstring) (word : jsstring),
    In word (or_nil (keywords (Some t)))
    <-> In word (split nonword_re (toLowerCase t)) /\ 3 < length word.
Proof.
  intros t word. simpl. rewrite filter_In, Nat.ltb_lt. reflexivity.
Qed.

(** C5. Keyword extraction keeps no word of length 3 or less: every word
    taken from a caption or from the biography, that is every element of
    [text?.toLowerCase().split(/\W+/).filter(...)], has more than 3 code
    units. *)
Theorem keywords_longer_than_three :
  forall (text : option jsstring) (word : jsstring),
    In word (or_nil (keywords text)) -> 3 < length word.
Proof.
  intros [t|] word Hin.
  - now apply In_keywords in Hin.
  - destruct Hin.
Qed.


(** X25. An interest of 3 code units or less can only come from a
    hashtag: the keywords of captions and of the biography are all longer. *)
Lemma short_interest_is_hashtag :
  forall (profileData : InstagramProfile) (word : jsstring),
    In word (extract_interests profileData) ->
    length word <= 3 ->
    exists post, In post (posts profileData) /\ In word (hashtag_interests post).
Proof.
  intros profileData word Hin Hshort.
  apply In_extract_interests in Hin as [Htag | [[post [_ Hword]] | Hword]].
  - exact Htag.
  - destruct (caption post); [apply In_keywords in Hword; lia | destruct Hword].
  - destruct (bio profileData); [apply In_keywords in Hword; lia | destruct Hword].
Qed.

(** *** Scanning for hashtags *)

Lemma span_app :
  forall p tag rest,
    forallb p tag = true ->
    match rest with c :: _ => p c = false | [] => True end ->
    span p (tag ++ rest) = length tag.
Proof.
  intros p tag rest. induction tag as [|c tag IH]; simpl; intros Htag Hrest.
  - destruct rest as [|c rest]; [reflexivity|]. simpl. now rewrite Hrest.
  - apply andb_prop in Htag as [-> Htag]. f_equal. auto.
Qed.

(** Passing over the rest of a match. *)
Lemma scan_matches_skip :
  forall r pre s,
    scan_matches r (pre ++ s) (length pre) = scan_matches r s 0.
Proof.
  intros r. induction pre as [|c pre IH]; intros s; simpl; [|apply IH].
  destruct s; reflexivity.
Qed.

(** The pattern [/#[\w]+/] does not match where there is no [#]. *)
Lemma hashtag_needs_hash :
  forall c s, N.eqb c 35 = false -> match_here hashtag_re (c :: s) = None.
Proof.
  intros c s Hc. unfold hashtag_re, oneof, codes. simpl.
  now rewrite Hc.
Qed.

Lemma scan_no_hash :
  forall before s,
    no_hash before = true ->
    scan_matches hashtag_re (before ++ s) 0 = scan_matches hashtag_re s 0.
Proof.
  induction before as [|c before IH]; intros s Hno; [reflexivity|].
  simpl in Hno. apply andb_prop in Hno as [Hc Hno].
  apply negb_true_iff in Hc.
  change ((c :: before) ++ s) with (c :: (before ++ s)).
  cbn [scan_matches]. rewrite hashtag_needs_hash by exact Hc. now apply IH.
Qed.

(** A [#] followed by word characters, up to a character that is not
    one, is one match; the scan goes on after it. *)
Lemma scan_hashtag :
  forall tag rest,
    forallb is_word tag = true ->
    tag <> [] ->
    starts_with_word rest = false ->
    scan_matches hashtag_re (35%N :: tag ++ rest) 0
    = (35%N :: tag) :: scan_matches hashtag_re rest 0.
Proof.
  intros tag rest Htag Hne Hrest.
  assert (Hspan : span wordc (tag ++ rest) = length tag).
  { apply span_app; [assumption|]. destruct rest; [exact I | exact Hrest]. }
  assert (Hmatch : match_here hashtag_re (35%N :: tag ++ rest)
                   = Some (S (length tag))).
  { unfold hashtag_re.
    change (match_here [one (oneof "#"); plus wordc] (35%N :: tag ++ rest))
      with (option_map S (greedy (match_here []) (tag ++ rest) 1
                                 (span wordc (tag ++ rest)))).
    rewrite Hspan. destruct tag as [|c tag]; [congruence|].
    cbn [length greedy Nat.ltb Nat.leb match_here option_map].
    now rewrite Nat.add_0_r. }
  cbn [scan_matches]. rewrite Hmatch. cbn [Nat.pred].
  rewrite scan_matches_skip. f_equal.
  change (35%N :: tag ++ rest) with ((35%N :: tag) ++ rest).
  cbn [app firstn]. f_equal.
  rewrite firstn_app, Nat.sub_diag, firstn_all. cbn [firstn]. apply app_nil_r.
Qed.


(** *** Lower-casing ASCII text *)

Lemma StringToCodePoints_ascii :
  forall s, forallb (fun c => N.ltb c 128) s = true -> StringToCodePoints s = s.
Proof.
  induction s as [|c s IH]; [reflexivity|]. simpl. intros Hs.
  apply andb_prop in Hs as [Hc Hs].
  assert (Hl : is_lead c = false).
  { unfold is_lead, in_range. bool_to_prop. lia. }
  rewrite Hl. f_equal. auto.
Qed.

Lemma CodePointsToString_bmp :
  forall cps, forallb (fun c => N.ltb c 65536) cps = true ->
              CodePointsToString cps = cps.
Proof.
  unfold CodePointsToString.
  induction cps as [|c cps IH]; [reflexivity|]. simpl. intros Hs.
  apply andb_prop in Hs as [Hc Hs].
  unfold codepoint_to_units. rewrite Hc. simpl. f_equal. auto.
Qed.

(** On ASCII text [toLowerCase] lower-cases the letters [A] to [Z] and
    changes nothing else. *)
Lemma toLowerCase_ascii :
  forall s, forallb (fun c => N.ltb c 128) s = true ->
            toLowerCase s = map ascii_lower s.
Proof.
  intros s Hs. unfold toLowerCase.
  rewrite StringToCodePoints_ascii by assumption.
  rewrite toLowercase_ascii by assumption.
  apply CodePointsToString_bmp.
  rewrite forallb_forall in *. intros c Hc.
  apply in_map_iff in Hc as [x [<- Hx]]. apply Hs in Hx.
  unfold ascii_lower, is_upper, in_range.
  destruct (N.leb 65 x && N.leb x 90); bool_to_prop; lia.
Qed.

(** C4. A caption that contains [#gift #fun], with no other [#] before or
    after and no word character right after it, has exactly the hashtags
    [#gift] and [#fun]; with the [#] stripped and the tag lower-cased they
    give exactly the set [{gift, fun}] of interests. *)
Theorem gift_fun_hashtags :
  forall (page : PostPage) (before after : jsstring),
    h1_text page = Some (before ++ lit "#gift #fun" ++ after) ->
    no_hash before = true ->
    no_hash after = true ->
    starts_with_word after = false ->
    let post := postData page in
    hashtags post = Some [lit "#gift"; lit "#fun"]
    /\ add_hashtags [] [post] = [lit "gift"; lit "fun"].
Proof.
  intros page before after Hcaption Hbefore Hafter Hword post.
  assert (Hscan : scan_matches hashtag_re
                    (before ++ lit "#gift #fun" ++ after) 0
                  = [lit "#gift"; lit "#fun"]).
  { rewrite scan_no_hash by assumption.
    change (lit "#gift #fun" ++ after)
      with (35%N :: lit "gift" ++ (lit " " ++ lit "#fun" ++ after)).
    rewrite scan_hashtag; [|reflexivity|discriminate|reflexivity].
    rewrite (scan_no_hash (lit " ")) by reflexivity.
    change (lit "#fun" ++ after) with (35%N :: lit "fun" ++ after).
    rewrite scan_hashtag; [|reflexivity|discriminate|assumption].
    rewrite <- (app_nil_r after), scan_no_hash by assumption.
    reflexivity. }
  assert (Htags : hashtags post = Some [lit "#gift"; lit "#fun"]).
  { unfold post, postData, matches_or_empty, match_all.
    cbn [hashtags]. rewrite Hcaption. cbn [or_empty].
    rewrite Hscan. reflexivity. }
  split; [exact Htags|].
  unfold add_hashtags, hashtag_interests. cbn [fold_left].
  rewrite Htags. cbn [or_nil map slice_from skipn].
  change (skipn 1 (lit "#gift")) with (lit "gift").
  change (skipn 1 (lit "#fun")) with (lit "fun").
  rewrite !toLowerCase_ascii by reflexivity.
  reflexivity.
Qed.

(** The guard [if (!username)]: a falsy username ends the handler at
    once. *)
Lemma POST_username_guard :
  forall request parsed username,
    json_body request = ok parsed ->
    get parsed (lit "username") = ok username ->
    truthy username = false ->
    POST request = Ret username_required_response.
Proof.
  intros request parsed username Hbody Hget Hfalsy.
  unfold POST, try_catch, tbind, lift. rewrite Hbody. unfold ok. cbn [pbind].
  change (@inr exn value username) with (ok username) in Hget.
  unfold ok in Hget. rewrite Hget. cbn [pbind]. rewrite Hfalsy. reflexivity.
Qed.

(** When the username read from the body is [undefined] or the empty
    string, the request is answered with status 400 and an error object,
    and no external call is made. *)
Theorem missing_username_rejected :
  forall request parsed,
    json_body request = ok parsed ->
    get parsed (lit "username") = ok VUndefined
    \/ get parsed (lit "username") = ok (VStr []) ->
    forall S (w : world event S) s,
      run w s (POST request) = username_required_response
      /\ status (run w s (POST request)) = 400%N
      /\ calls w s (POST request) = [].
Proof.
  intros request parsed Hbody Hmissing S w s.
  assert (Hret : POST request = Ret username_required_response).
  { destruct Hmissing as [Hget | Hget];
      apply (POST_username_guard request Hbody Hget); reflexivity. }
  rewrite Hret. repeat split.
Qed.

(** C8. A request whose JSON body is not [null] and has no username, or
    an empty one, is answered with status 400 and an error object, and no
    external call is made: the scraper is not launched.  The body may be
    an object without the member, or a number, a string, a boolean or an
    array, which have no such member; a JSON text never parses to
    [undefined]. *)
Theorem missing_username_rejected_unless_null :
  forall request parsed,
    json_body request = ok parsed ->
    parsed <> VNull ->
    parsed <> VUndefined ->
    username_missing parsed ->
    forall S (w : world event S) s,
      run w s (POST request) = username_required_response
      /\ status (run w s (POST request)) = 400%N
      /\ calls w s (POST request) = [].
Proof.
  intros request parsed Hbody Hnull Hundefined Hmissing S w s.
  assert (Hget : exists username,
             get parsed (lit "username") = ok username
             /\ truthy username = false).
  { destruct parsed as [| |b|x|text|items|members];
      try congruence; try (exists VUndefined; split; reflexivity).
    unfold username_missing, body_username in Hmissing. unfold get.
    destruct Hmissing as [-> | ->];
      [exists VUndefined | exists (VStr [])]; split; reflexivity. }
  destruct Hget as [username [Hget Hfalsy]].
  rewrite (POST_username_guard request Hbody Hget Hfalsy). repeat split.
Qed.

(** The handler answers every request, with status 200, 400, 404 or
    500. *)
Lemma scrape_POST_status :
  forall S (w : world event S) s request,
    In (status (run w s (POST request))) [200; 400; 404; 500]%N.
Proof.
  intros S w s request. unfold POST. rewrite run_try_catch.
  match goal with
  | |- context [run w s ?body] => destruct (run w s body) as [e|x] eqn:Hbody
  end.
  - simpl. auto.
  - apply run_tbind_ok in Hbody as [parsed [_ Hbody]].
    apply run_tbind_ok in Hbody as [username [_ Hbody]].
    destruct (negb (truthy username)).
    + injection Hbody as <-. simpl. auto.
    + apply run_tbind_ok in Hbody as [[profileData|] [_ Hbody]].
      * apply run_tbind_ok in Hbody as [analysis [_ Hbody]].
        injection Hbody as <-. simpl. auto.
      * injection Hbody as <-. simpl. auto.
Qed.

(** A 200 response carries the scraped profile and the interests
    extracted from it. *)
Lemma POST_ok_interests :
  forall S (w : world event S) s request,
    status (run w s (POST request)) = 200%N ->
    exists profileData analysis,
      body (run w s (POST request))
      = Scraped profileData (extract_interests profileData) analysis.
Proof.
  intros S w s request. unfold POST. rewrite run_try_catch.
  match goal with
  | |- context [run w s ?body] => destruct (run w s body) as [e|x] eqn:Hbody
  end.
  - discriminate.
  - apply run_tbind_ok in Hbody as [parsed [_ Hbody]].
    apply run_tbind_ok in Hbody as [username [_ Hbody]].
    destruct (negb (truthy username)).
    + injection Hbody as <-. discriminate.
    + apply run_tbind_ok in Hbody as [[profileData|] [_ Hbody]].
      * apply run_tbind_ok in Hbody as [analysis [_ Hbody]].
        injection Hbody as <-. intros _. now exists profileData, analysis.
      * injection Hbody as <-. discriminate.
Qed.

End Interests.

Lemma keywords_longer_than_three_witness :
  In (lit "love") (or_nil (@keywords ascii_table (Some (lit "I love my cat"))))
  /\ 3 < length (lit "love").
Proof.
  split.
  - vm_compute. left. reflexivity.
  - apply (@keywords_longer_than_three ascii_table
             (Some (lit "I love my cat")) (lit "love")).
    vm_compute. left. reflexivity.
Defined.


Lemma short_interest_is_hashtag_witness :
  exists post,
    In post (posts (profile_with_captions [lit "A day out #fun"] (lit "")))
    /\ In (lit "fun") (@hashtag_interests ascii_table post).
Proof.
  apply (@short_interest_is_hashtag ascii_table
           (profile_with_captions [lit "A day out #fun"] (lit ""))
           (lit "fun")).
  - vm_compute. left. reflexivity.
  - vm_compute. repeat constructor.
Defined.

(** Short words of captions and of the biography are dropped, short
    hashtags are kept. *)
Example short_words_and_short_tags :
  @extract_interests ascii_table
    (profile_with_captions [lit "Fun day at the zoo #fun #Zoo"] (lit "I am a cat mom"))
  = [lit "fun"; lit "zoo"].
Proof. vm_compute. reflexivity. Qed.


Lemma gift_fun_hashtags_witness :
  hashtags (postData (page_with_caption (lit "#gift #fun")))
  = Some [lit "#gift"; lit "#fun"]
  /\ @add_hashtags ascii_table []
       [postData (page_with_caption (lit "#gift #fun"))]
     = [lit "gift"; lit "fun"].
Proof.
  apply (@gift_fun_hashtags ascii_table
           (page_with_caption (lit "#gift #fun")) [] []);
    reflexivity.
Defined.

(** The same inside a sentence, with capitals: the whole extraction. *)
Example gift_fun_in_a_sentence :
  @extract_interests ascii_table
    (profile_with_captions [lit "Yay: #Gift #FUN!"] (lit ""))
  = [lit "gift"; lit "fun"].
Proof. vm_compute. reflexivity. Qed.

Lemma missing_username_rejected_unless_null_witness :
  run (fixed_world offline) tt (@POST ascii_table (scrape_request (VObj [])))
  = username_required_response
  /\ status (run (fixed_world offline) tt
                 (@POST ascii_table (scrape_request (VObj [])))) = 400%N
  /\ calls (fixed_world offline) tt (@POST ascii_table (scrape_request (VObj [])))
     = [].
Proof.
  apply (@missing_username_rejected_unless_null ascii_table
           (scrape_request (VObj [])) (VObj [])).
  - reflexivity.
  - discriminate.
  - discriminate.
  - left. reflexivity.
Defined.

(** The body [null] has no username, and is not answered with 400: the
    destructuring throws before the guard, and the handler answers 500. *)
Lemma null_body_not_rejected_with_400 :
  username_missing VNull
  /\ run (fixed_world offline) tt (@POST ascii_table (scrape_request VNull))
     = json (Error (lit "Failed to fetch Instagram data")) 500
  /\ status (run (fixed_world offline) tt
                 (@POST ascii_table (scrape_request VNull))) <> 400%N.
Proof.
  split; [left; reflexivity|].
  split; [reflexivity | discriminate].
Qed.

(** The other bodies that are not objects are answered with 400. *)
Example array_and_number_bodies_rejected :
  @POST ascii_table (scrape_request (VArr [])) = Ret username_required_response
  /\ @POST ascii_table (scrape_request (VNum (of_N false 5)))
     = Ret username_required_response.
Proof. split; reflexivity. Qed.

(** The body [{"username": ""}] is rejected in the same way; the body
    [null] has no properties to read, the destructuring throws and the
    handler answers 500; with a username the scraper is launched. *)
Example empty_username_rejected :
  @POST ascii_table (scrape_request (VObj [(lit "username", VStr [])]))
  = Ret username_required_response.
Proof. reflexivity. Qed.

Example null_body_fails :
  @POST ascii_table (scrape_request VNull)
  = Ret (json (Error (lit "Failed to fetch Instagram data")) 500).
Proof. reflexivity. Qed.

Example username_launches_scraper :
  calls (fixed_world offline) tt
        (@POST ascii_table
           (scrape_request (VObj [(lit "username", VStr (lit "someone"))])))
  = [Called Launch (inl ExternalError)].
Proof. reflexivity. Qed.

(** The whole handler in a world that shows one post. *)
Example POST_scrapes_profile :
  run (fixed_world (online (lit "A day out #fun") (lit "I am a cat mom")
                           (lit "Likes outings.")))
      tt
      (@POST ascii_table
         (scrape_request (VObj [(lit "username", VStr (lit "someone"))])))
  = json (Scraped {| username := VStr (lit "someone");
                     bio := Some (lit "I am a cat mom");
                     posts := [postData (page_with_caption (lit "A day out #fun"))] |}
                  [lit "fun"]
                  (lit "Likes outings."))
         200.
Proof. vm_compute. reflexivity. Qed.

End ScrapeFacts.

(** ** The recommendation endpoint *)

Lemma mapM_Forall2 :
  forall (A B : Type) (f : A -> result B) l out,
    mapM f l = ok out -> Forall2 (fun x y => f x = ok y) l out.
Proof.
  intros A B f. induction l as [|x l IH]; intros out; simpl.
  - intros Heq. injection Heq as <-. constructor.
  - destruct (f x) as [e|y] eqn:Hfx; [discriminate|].
    destruct (mapM f l) as [e|ys]; [discriminate|].
    intros Heq. injection Heq as <-. constructor; auto.
Qed.

(** Turns [rbind c k = ok r] into the two steps it is made of. *)
Lemma rbind_ok :
  forall (A B : Type) (c : result A) (k : A -> result B) r,
    rbind c k = ok r -> exists x, c = ok x /\ k x = ok r.
Proof.
  intros A B [e|x] k r; simpl; [discriminate|]. intros Hk. now exists x.
Qed.

Module RecommendFacts.

Import Recommend.

(** The catch block does not throw: it returns the one fallback
    recommendation. *)
Lemma fallback_value :
  forall budget, fallback budget = ok [fallback_recommendation budget].
Proof. reflexivity. Qed.

(** What [generateGiftRecommendations] returns, from the answer of the
    inference API. *)
Lemma generateGiftRecommendations_run :
  forall S (w : world event S) s s' age budget profileAnalysis answer,
    w s _ (GroqRecommend age budget profileAnalysis) = (answer, s') ->
    run w s (generateGiftRecommendations age budget profileAnalysis)
    = match rbind answer (recommendations_of_response budget) with
      | inr recommendations => ok recommendations
      | inl _ => ok [fallback_recommendation budget]
      end.
Proof.
  intros S w s s' age budget profileAnalysis answer Hw.
  unfold generateGiftRecommendations, try_catch_task, tbind, await, lift.
  simpl. rewrite Hw.
  destruct answer as [e|response]; simpl; [reflexivity|].
  destruct (recommendations_of_response budget response); reflexivity.
Qed.

(** Whatever the inference API answers, and also when it rejects the
    request, [generateGiftRecommendations] returns a list: it never
    throws. *)
Lemma generateGiftRecommendations_returns :
  forall S (w : world event S) s age budget profileAnalysis,
    exists recommendations,
      run w s (generateGiftRecommendations age budget profileAnalysis)
      = ok recommendations.
Proof.
  intros S w s age budget profileAnalysis.
  destruct (w s _ (GroqRecommend age budget profileAnalysis))
    as [answer s'] eqn:Hw.
  rewrite (generateGiftRecommendations_run _ _ _ _ _ Hw).
  destruct (rbind answer (recommendations_of_response budget)); eauto.
Qed.

(** C1. When the cleaned text of the model's reply does not parse as
    JSON, or parses to a value that cannot be mapped to recommendations,
    [generateGiftRecommendations] does not throw: it returns a list of
    exactly one recommendation, the fallback one, whose price is the
    requested budget. *)
Theorem unusable_reply_gives_fallback :
  forall S (w : world event S) s s' age budget profileAnalysis response text,
    w s _ (GroqRecommend age budget profileAnalysis) = (inr response, s') ->
    reply_text response = ok text ->
    (exists e, JSON_parse (clean_json (extract_json text)) = inl e)
    \/ (exists v e, JSON_parse (clean_json (extract_json text)) = ok v
                    /\ map_recommendations budget v = inl e) ->
    run w s (generateGiftRecommendations age budget profileAnalysis)
    = ok [fallback_recommendation budget]
    /\ price (fallback_recommendation budget) = budget.
Proof.
  intros S w s s' age budget profileAnalysis response text Hw Htext Hbad.
  split; [|reflexivity].
  rewrite (generateGiftRecommendations_run _ _ _ _ _ Hw). simpl.
  unfold recommendations_of_response. rewrite Htext. simpl.
  destruct Hbad as [[e He] | [v [e [Hv He]]]].
  - rewrite He. reflexivity.
  - rewrite Hv. simpl. rewrite He. reflexivity.
Qed.

Lemma unusable_reply_gives_fallback_witness :
  let w := fixed_world (replying prose_reply) in
  let age := of_N false 30 in
  let budget := of_N false 50 in
  run w tt (generateGiftRecommendations age budget [])
  = ok [fallback_recommendation budget]
  /\ price (fallback_recommendation budget) = budget.
Proof.
  intros w age budget.
  apply (@unusable_reply_gives_fallback unit w tt tt age budget []
           (completion_with prose_reply) prose_reply).
  - reflexivity.
  - reflexivity.
  - left. exists SyntaxError. vm_compute. reflexivity.
Defined.

(** The guard [if (!age || !budget)]: a falsy age or budget ends the
    handler at once. *)
Lemma POST_guard :
  forall request fd,
    formData request = ok fd ->
    truthy_number (Number (form_get (lit "age") fd)) = false
    \/ truthy_number (Number (form_get (lit "budget") fd)) = false ->
    POST request = Ret missing_fields_response.
Proof.
  intros request fd Hfd Hfalsy.
  unfold POST, try_catch, tbind, lift. rewrite Hfd. simpl.
  assert (Hguard : negb (truthy_number (Number (form_get (lit "age") fd)))
                   || negb (truthy_number (Number (form_get (lit "budget") fd)))
                   = true).
  { destruct Hfalsy as [-> | ->]; simpl; auto using orb_true_r. }
  simpl in Hguard. simpl. rewrite Hguard. reflexivity.
Qed.

(** C2. A request whose form lacks the age field or the budget field is
    answered with status 400 and an error object, and no external call is
    made: neither compression, nor analysis, nor recommendation. *)
Theorem missing_field_rejected :
  forall request fd,
    formData request = ok fd ->
    form_get (lit "age") fd = None \/ form_get (lit "budget") fd = None ->
    forall S (w : world event S) s,
      run w s (POST request) = missing_fields_response
      /\ status (run w s (POST request)) = 400%N
      /\ calls w s (POST request) = [].
Proof.
  intros request fd Hfd Hmissing S w s.
  rewrite (POST_guard request Hfd).
  - repeat split.
  - destruct Hmissing as [-> | ->]; [left | right]; reflexivity.
Qed.

Lemma missing_field_rejected_witness :
  run (fixed_world (replying prose_reply)) tt (POST form_without_age)
  = missing_fields_response
  /\ status (run (fixed_world (replying prose_reply)) tt (POST form_without_age))
     = 400%N
  /\ calls (fixed_world (replying prose_reply)) tt (POST form_without_age) = [].
Proof.
  apply (@missing_field_rejected form_without_age
           [(lit "budget", FString (lit "50"))]).
  - reflexivity.
  - left. reflexivity.
Defined.

(** C9. The guard tests the numbers, not the presence of the fields: when
    [Number(...)] of the age or of the budget is zero or NaN, the request
    gets the same 400 response as one that lacks the field, and no
    external call is made. *)
Theorem zero_or_nan_rejected :
  forall request fd,
    formData request = ok fd ->
    is_zero (Number (form_get (lit "age") fd)) = true
    \/ is_nan (Number (form_get (lit "age") fd)) = true
    \/ is_zero (Number (form_get (lit "budget") fd)) = true
    \/ is_nan (Number (form_get (lit "budget") fd)) = true ->
    forall S (w : world event S) s,
      run w s (POST request) = missing_fields_response
      /\ calls w s (POST request) = [].
Proof.
  intros request fd Hfd Hfalsy S w s.
  rewrite (POST_guard request Hfd).
  - split; reflexivity.
  - unfold truthy_number.
    destruct Hfalsy as [-> | [Hn | [-> | Hn]]];
      [left | left | right | right]; try reflexivity;
      rewrite Hn; apply negb_false_iff, orb_true_r.
Qed.

Lemma zero_or_nan_rejected_witness :
  run (fixed_world (replying prose_reply)) tt (POST (form_with_age (lit "abc")))
  = missing_fields_response
  /\ calls (fixed_world (replying prose_reply)) tt (POST (form_with_age (lit "abc")))
     = [].
Proof.
  apply (@zero_or_nan_rejected (form_with_age (lit "abc"))
           [(lit "age", FString (lit "abc")); (lit "budget", FString (lit "50"))]).
  - reflexivity.
  - right. left. vm_compute. reflexivity.
Defined.

(** An age of ["0"] and an age of ["0.0"] are rejected alike; an age of
    ["30"] passes the guard. *)
Example age_zero_rejected :
  POST (form_with_age (lit "0")) = Ret missing_fields_response
  /\ POST (form_with_age (lit " 0.0 ")) = Ret missing_fields_response.
Proof. split; vm_compute; reflexivity. Qed.

(** A body that is not a form makes [request.formData()] reject: the
    handler answers 500. *)
Example not_a_form_fails :
  POST {| formData := throw TypeError |}
  = Ret (json (Error (lit "Failed to get gift recommendations")) 500).
Proof. reflexivity. Qed.

Example age_thirty_accepted :
  calls (fixed_world (replying prose_reply)) tt (POST (form_with_age (lit "30")))
  = [Called (GroqRecommend (of_N false 30) (of_N false 50)
                           (lit "No profile analysis available."))
            (inr (completion_with prose_reply))].
Proof. vm_compute. reflexivity. Qed.

(** C7. [compressImage] returns at most 50000 characters whatever the
    buffer and whatever the image library does; for the empty buffer it
    returns the empty string without calling the library; when the library
    fails it returns the empty string; otherwise it returns the first 50000
    characters of the base64 form of the compressed image.  No exception
    leaves the function. *)
#[warnings="-abstract-large-number"] Theorem compressImage_bounded :
  forall S (w : world event S) s (buffer : Buffer),
    length (run w s (compressImage buffer)) <= 50000
    /\ match buffer with
       | [] =>
           run w s (compressImage buffer) = []
           /\ calls w s (compressImage buffer) = []
       | _ =>
           match fst (w s _ (SharpCompress buffer)) with
           | inl _ => run w s (compressImage buffer) = []
           | inr compressed =>
               run w s (compressImage buffer)
               = slice_to 50000 (Buffer_to_base64 compressed)
           end
       end.
Proof.
  intros S w s buffer. destruct buffer as [|b buffer].
  - cbn -[Nat.of_num_uint]. split; [apply Nat.le_0_l | split; reflexivity].
  - unfold compressImage, try_catch, tbind, await, ret.
    cbn -[Nat.of_num_uint slice_to Buffer_to_base64].
    destruct (w s _ (SharpCompress (b :: buffer))) as [[e|compressed] s'];
      cbn -[Nat.of_num_uint slice_to Buffer_to_base64].
    + split; [apply Nat.le_0_l | reflexivity].
    + split; [apply firstn_le_length | reflexivity].
Qed.

(** The object built by the callback of [recommendations.map], field by
    field. *)
Lemma to_recommendation_ok :
  forall budget rec r,
    to_recommendation budget rec = ok r ->
    exists rec_name rec_description rec_price rec_match_reason
           price_text name_text encoded,
      get rec (lit "name") = ok rec_name
      /\ get rec (lit "description") = ok rec_description
      /\ get rec (lit "price") = ok rec_price
      /\ get rec (lit "match_reason") = ok rec_match_reason
      /\ to_string (or_else rec_price (VNum budget)) = ok price_text
      /\ to_string (or_else rec_name (VStr [])) = ok name_text
      /\ encodeURIComponent name_text = ok encoded
      /\ r = {| name := or_else rec_name (VStr (lit "Gift suggestion"));
                description := or_else rec_description (VStr []);
                price := parseFloat (replace currency_re [] price_text);
                match_reason := or_else rec_match_reason (VStr []);
                amazon_link := amazon_prefix ++ encoded;
                etsy_link := etsy_prefix ++ encoded |}.
Proof.
  intros budget rec r Hr. unfold to_recommendation in Hr.
  apply rbind_ok in Hr as [rec_name [Hname Hr]].
  apply rbind_ok in Hr as [rec_description [Hdescription Hr]].
  apply rbind_ok in Hr as [rec_price [Hprice Hr]].
  apply rbind_ok in Hr as [price_text [Hprice_text Hr]].
  apply rbind_ok in Hr as [rec_match_reason [Hmatch_reason Hr]].
  apply rbind_ok in Hr as [amazon [Hamazon Hr]].
  apply rbind_ok in Hr as [etsy [Hetsy Hr]].
  rewrite Hamazon in Hetsy. injection Hetsy as <-.
  unfold encode_value in Hamazon.
  apply rbind_ok in Hamazon as [name_text [Hname_text Hencoded]].
  exists rec_name, rec_description, rec_price, rec_match_reason,
    price_text, name_text, amazon.
  injection Hr as <-. repeat split; assumption.
Qed.

Lemma map_recommendations_ok :
  forall budget recommendations out,
    map_recommendations budget recommendations = ok out ->
    exists items,
      recommendations = VArr items
      /\ Forall2 (fun rec r => to_recommendation budget rec = ok r) items out.
Proof.
  intros budget recommendations out Hout.
  destruct recommendations; try discriminate.
  exists items. split; [reflexivity|]. now apply mapM_Forall2.
Qed.

(** The whole path from the reply of the model to the recommendations, on
    two replies. *)
Example mug_reply_recommendations :
  recommendations_of_response (of_N false 50) (completion_with mug_reply)
  = ok [mug_recommendation]
  /\ JSON_parse (clean_json (extract_json mug_reply)) = ok (VArr [mug_item]).
Proof. split; vm_compute; reflexivity. Qed.

Example free_book_reply_recommendations :
  recommendations_of_response (of_N false 50) (completion_with free_book_reply)
  = ok [free_book_recommendation]
  /\ JSON_parse (clean_json (extract_json free_book_reply))
     = ok (VArr [free_book_item]).
Proof. split; vm_compute; reflexivity. Qed.

(** C3, as the claim states it, fails: the model prices the book at 0, the
    reply parses, and the recommendation made of it for a budget of 50 is
    priced 50, which is not the number read from the model's price. *)
Lemma price_not_from_model_price :
  JSON_parse (clean_json (extract_json free_book_reply))
  = ok (VArr [free_book_item])
  /\ map_recommendations (of_N false 50) (VArr [free_book_item])
     = ok [free_book_recommendation]
  /\ ~ price_from_model_price free_book_item free_book_recommendation.
Proof.
  split; [vm_compute; reflexivity|].
  split; [vm_compute; reflexivity|].
  intros [p [text [Hp [Htext Hprice]]]].
  vm_compute in Hp. injection Hp as <-.
  vm_compute in Htext. injection Htext as <-.
  vm_compute in Hprice. discriminate Hprice.
Qed.

(** C3, amended.  For every recommendation made from a parsed reply, the
    price is [parseFloat] of a string stripped of every [$] and [,]; that
    string is the string form of the model's price value when the value is
    truthy, and of the requested budget when the model's price is missing
    or falsy (0, the empty string, [null], [false]). *)
Theorem price_from_price_or_budget :
  forall budget recommendations out,
    map_recommendations budget recommendations = ok out ->
    exists items,
      recommendations = VArr items
      /\ Forall2
           (fun rec r =>
              exists rec_price text,
                get rec (lit "price") = ok rec_price
                /\ to_string (if truthy rec_price then rec_price
                              else VNum budget) = ok text
                /\ price r = parseFloat (replace currency_re [] text))
           items out.
Proof.
  intros budget recommendations out Hout.
  apply map_recommendations_ok in Hout as [items [-> Hitems]].
  exists items. split; [reflexivity|].
  revert Hitems. apply Forall2_impl. intros rec r Hr.
  apply to_recommendation_ok in Hr
    as (rec_name & rec_description & rec_price & rec_match_reason
        & price_text & name_text & encoded
        & _ & _ & Hprice & _ & Hprice_text & _ & _ & ->).
  exists rec_price, price_text. repeat split; assumption.
Qed.

Lemma price_from_price_or_budget_witness :
  exists items,
    VArr [mug_item; free_book_item] = VArr items
    /\ Forall2
         (fun rec r =>
            exists rec_price text,
              get rec (lit "price") = ok rec_price
              /\ to_string (if truthy rec_price then rec_price
                            else VNum (of_N false 50)) = ok text
              /\ price r = parseFloat (replace currency_re [] text))
         items [mug_recommendation; free_book_recommendation].
Proof.
  apply (@price_from_price_or_budget (of_N false 50)
           (VArr [mug_item; free_book_item])
           [mug_recommendation; free_book_recommendation]).
  vm_compute. reflexivity.
Defined.

(** The query of the links.  For every recommendation made from a parsed
    reply, the Amazon and the Etsy link are the fixed search prefix
    followed by [rec.name || ""], as a string, percent-encoded: every
    character of it that is not an unreserved URI component character is
    replaced by the [%XY] forms of its UTF-8 octets.  That string is then
    well formed: one with a lone surrogate has no percent-encoding and
    makes the whole reply unusable. *)
Theorem links_percent_encoded :
  forall budget recommendations out,
    map_recommendations budget recommendations = ok out ->
    exists items,
      recommendations = VArr items
      /\ Forall2
           (fun rec r =>
              exists rec_name name_text,
                get rec (lit "name") = ok rec_name
                /\ to_string (or_else rec_name (VStr [])) = ok name_text
                /\ well_formed name_text = true
                /\ amazon_link r
                   = lit "https://www.amazon.com/s?k="
                     ++ percent_encode (StringToCodePoints name_text)
                /\ etsy_link r
                   = lit "https://www.etsy.com/search?q="
                     ++ percent_encode (StringToCodePoints name_text))
           items out.
Proof.
  intros budget recommendations out Hout.
  apply map_recommendations_ok in Hout as [items [-> Hitems]].
  exists items. split; [reflexivity|].
  revert Hitems. apply Forall2_impl. intros rec r Hr.
  apply to_recommendation_ok in Hr
    as (rec_name & rec_description & rec_price & rec_match_reason
        & price_text & name_text & encoded
        & Hname & _ & _ & _ & _ & Hname_text & Hencoded & ->).
  apply encodeURIComponent_ok in Hencoded as [Hwf ->].
  exists rec_name, name_text. repeat split; assumption.
Qed.

(** The links do not always embed the name of the recommendation: the
    item [{}] is named "Gift suggestion", and its links embed the empty
    string. *)
Lemma links_do_not_embed_default_name :
  JSON_parse (clean_json (extract_json (lit "[{}]"))) = ok (VArr [VObj []])
  /\ map_recommendations (of_N false 50) (VArr [VObj []])
     = ok [unnamed_recommendation]
  /\ name unnamed_recommendation = VStr (lit "Gift suggestion")
  /\ ~ links_embed_name unnamed_recommendation.
Proof.
  split; [vm_compute; reflexivity|].
  split; [vm_compute; reflexivity|].
  split; [reflexivity|].
  intros [name_text [Htext [Hamazon _]]].
  vm_compute in Htext. injection Htext as <-.
  vm_compute in Hamazon. discriminate Hamazon.
Qed.

(** C6. For every recommendation made from a parsed reply whose item has a
    truthy name, the recommendation carries that name, and the Amazon and
    the Etsy link embed it correctly percent-encoded: each is the fixed
    search prefix followed by the name, as a string, with every character
    that is not an unreserved URI component character replaced by the
    [%XY] forms of its UTF-8 octets.  For an item whose name is missing or
    falsy, the recommendation is named "Gift suggestion" and both links
    are the bare prefixes: they embed the empty string. *)
Theorem links_embed_model_name :
  forall budget recommendations out,
    map_recommendations budget recommendations = ok out ->
    exists items,
      recommendations = VArr items
      /\ Forall2
           (fun rec r =>
              exists rec_name,
                get rec (lit "name") = ok rec_name
                /\ if truthy rec_name
                   then name r = rec_name /\ links_embed_name r
                   else name r = VStr (lit "Gift suggestion")
                        /\ amazon_link r = lit "https://www.amazon.com/s?k="
                        /\ etsy_link r = lit "https://www.etsy.com/search?q=")
           items out.
Proof.
  intros budget recommendations out Hout.
  apply map_recommendations_ok in Hout as [items [-> Hitems]].
  exists items. split; [reflexivity|].
  revert Hitems. apply Forall2_impl. intros rec r Hr.
  apply to_recommendation_ok in Hr
    as (rec_name & rec_description & rec_price & rec_match_reason
        & price_text & name_text & encoded
        & Hname & _ & _ & _ & _ & Hname_text & Hencoded & ->).
  exists rec_name. split; [assumption|].
  unfold or_else in *. destruct (truthy rec_name).
  - split; [reflexivity|].
    apply encodeURIComponent_ok in Hencoded as [Hwf ->].
    exists name_text. repeat split. assumption.
  - cbn in Hname_text. injection Hname_text as <-.
    cbn in Hencoded. injection Hencoded as <-.
    repeat split.
Qed.

Lemma links_embed_model_name_witness :
  exists items,
    VArr [mug_item; VObj []] = VArr items
    /\ Forall2
         (fun rec r =>
            exists rec_name,
              get rec (lit "name") = ok rec_name
              /\ if truthy rec_name
                 then name r = rec_name /\ links_embed_name r
                 else name r = VStr (lit "Gift suggestion")
                      /\ amazon_link r = lit "https://www.amazon.com/s?k="
                      /\ etsy_link r = lit "https://www.etsy.com/search?q=")
         items [mug_recommendation; unnamed_recommendation].
Proof.
  apply (@links_embed_model_name (of_N false 50) (VArr [mug_item; VObj []])
           [mug_recommendation; unnamed_recommendation]).
  vm_compute. reflexivity.
Defined.

(** Two edges of the links.  An item without a name is shown as "Gift
    suggestion" and its links search for the empty string; a name with a
    lone surrogate cannot be encoded, and the whole reply is replaced by
    the fallback. *)
Example unnamed_item_links :
  map_recommendations (of_N false 50) (VArr [VObj []])
  = ok [ {| name := VStr (lit "Gift suggestion");
            description := VStr [];
            price := of_N false 50;
            match_reason := VStr [];
            amazon_link := lit "https://www.amazon.com/s?k=";
            etsy_link := lit "https://www.etsy.com/search?q=" |} ].
Proof. vm_compute. reflexivity. Qed.

Example lone_surrogate_name_falls_back :
  JSON_parse (litq "[{'name': '\ud83d'}]")
  = ok (VArr [VObj [(lit "name", VStr [55357%N])]])
  /\ map_recommendations (of_N false 50) (VArr [VObj [(lit "name", VStr [55357%N])]])
     = throw URIError
  /\ run (fixed_world (replying (litq "[{'name': '\ud83d'}]"))) tt
         (generateGiftRecommendations (of_N false 30) (of_N false 50) [])
     = ok [fallback_recommendation (of_N false 50)].
Proof. vm_compute. repeat split. Qed.

(** A name that is a well-formed string always gets its links: with a
    price that converts to a string, the item is mapped. *)
Lemma named_item_is_mapped :
  forall budget members name_text rec_price price_text,
    get (VObj members) (lit "name") = ok (VStr name_text) ->
    well_formed name_text = true ->
    get (VObj members) (lit "price") = ok rec_price ->
    to_string (or_else rec_price (VNum budget)) = ok price_text ->
    exists r,
      to_recommendation budget (VObj members) = ok r
      /\ amazon_link r
         = amazon_prefix ++ percent_encode (StringToCodePoints name_text).
Proof.
  intros budget members name_text rec_price price_text Hname Hwf Hprice Htext.
  assert (Henc : encode_value (or_else (VStr name_text) (VStr []))
                 = ok (percent_encode (StringToCodePoints name_text))).
  { unfold encode_value.
    destruct name_text as [|c rest]; [reflexivity|].
    cbn [or_else truthy to_string rbind ok].
    rewrite encodeURIComponent_percent_encode, Hwf. reflexivity. }
  assert (Hget : forall key, exists x, get (VObj members) key = ok x).
  { intros key. unfold get. destruct (lookup key members); eauto. }
  destruct (Hget (lit "description")) as [rec_description Hd].
  destruct (Hget (lit "match_reason")) as [rec_match_reason Hm].
  unfold to_recommendation.
  rewrite Hname, Hd, Hprice, Hm. unfold ok, rbind at 1 2 3.
  change (@inr exn jsstring price_text) with (ok price_text) in Htext.
  rewrite Htext. unfold ok, rbind at 1 2.
  rewrite Henc. unfold ok, rbind.
  eexists. split; reflexivity.
Qed.

(** The cleaning works on the whole text, inside the strings too: a
    contraction is spelled out and the space after a comma is dropped
    before the name is parsed and encoded. *)
Example cleaning_reaches_names :
  clean_json (lit "it's a mug, really : yes") = lit "it is a mug,really:yes"
  /\ clean_json (lit "they're here and don't go, kid's toy ")
     = lit "they are here and dont go,kids toy ".
Proof. vm_compute. split; reflexivity. Qed.

(** The whole handler on a form with age 30, budget 50 and no image: a
    reply in prose gives status 200 and the fallback recommendation; a
    usable reply gives the recommendations made of it. *)
Example POST_with_prose_reply :
  run (fixed_world (replying prose_reply)) tt (POST (form_with_age (lit "30")))
  = json (Recommendations [fallback_recommendation (of_N false 50)]) 200.
Proof. vm_compute. reflexivity. Qed.

Example POST_with_mug_reply :
  run (fixed_world (replying mug_reply)) tt (POST (form_with_age (lit "30")))
  = json (Recommendations [mug_recommendation]) 200.
Proof. vm_compute. reflexivity. Qed.

(** With an image: three calls, in order. *)
Example POST_with_image :
  let request :=
    {| formData := ok [(lit "age", FString (lit "30"));
                       (lit "budget", FString (lit "50"));
                       (lit "instagram-grid", FFile [Byte.x01; Byte.x02])] |} in
  let w := fixed_world (compressing [Byte.x66; Byte.x6f] mug_reply) in
  calls w tt (POST request)
  = [Called (SharpCompress [Byte.x01; Byte.x02]) (ok [Byte.x66; Byte.x6f]);
     Called GroqAnalyzeImage (ok (completion_with mug_reply));
     Called (GroqRecommend (of_N false 30) (of_N false 50) mug_reply)
            (ok (completion_with mug_reply))]
  /\ run w tt (compressImage [Byte.x01; Byte.x02]) = lit "Zm8=".
Proof. vm_compute. split; reflexivity. Qed.

(** The handler answers every request, with status 200, 400 or 500. *)
Lemma recommend_POST_status :
  forall S (w : world event S) s request,
    status (run w s (POST request)) = 200%N
    \/ status (run w s (POST request)) = 400%N
    \/ status (run w s (POST request)) = 500%N.
Proof.
  intros S w s request. unfold POST. rewrite run_try_catch.
  match goal with
  | |- context [run w s ?body] => destruct (run w s body) as [e|x] eqn:Hbody
  end.
  - right. right. reflexivity.
  - apply run_tbind_ok in Hbody as [fd [_ Hbody]].
    match type of Hbody with
    | context [if ?guard then _ else _] => destruct guard
    end.
    + injection Hbody as <-. right. left. reflexivity.
    + apply run_tbind_ok in Hbody as [profileAnalysis [_ Hbody]].
      apply run_tbind_ok in Hbody as [recommendations [_ Hbody]].
      injection Hbody as <-. left. reflexivity.
Qed.

End RecommendFacts.

(** ** Calls and states of programs *)

Section CallFacts.

Variable E : Type -> Type.
Variable S : Type.
Variable w : world E S.

Lemma after_pbind :
  forall (A B : Type) (p : prog E A) (f : A -> prog E B) s,
    after w s (pbind p f) = after w (after w s p) (f (run w s p)).
Proof.
  induction p as [r | X e k IH]; intros f s; simpl; [reflexivity|].
  destruct (w s e) as [x s']. apply IH.
Qed.

(** A sequence of steps that may throw, forwards. *)
Lemma run_tbind :
  forall (A B : Type) (c : task E A) (k : A -> task E B) s,
    run w s (tbind c k)
    = match run w s c with
      | inl e => inl e
      | inr x => run w (after w s c) (k x)
      end.
Proof.
  intros A B c k s. unfold tbind. rewrite run_pbind.
  destruct (run w s c); reflexivity.
Qed.

Lemma calls_tbind :
  forall (A B : Type) (c : task E A) (k : A -> task E B) s,
    calls w s (tbind c k)
    = calls w s c
      ++ match run w s c with
         | inl e => []
         | inr x => calls w (after w s c) (k x)
         end.
Proof.
  intros A B c k s. unfold tbind. rewrite calls_pbind.
  destruct (run w s c); reflexivity.
Qed.

Lemma after_tbind :
  forall (A B : Type) (c : task E A) (k : A -> task E B) s,
    after w s (tbind c k)
    = match run w s c with
      | inl e => after w s c
      | inr x => after w (after w s c) (k x)
      end.
Proof.
  intros A B c k s. unfold tbind. rewrite after_pbind.
  destruct (run w s c); reflexivity.
Qed.

Lemma calls_try_catch :
  forall (A : Type) (body : task E A) (handler : exn -> prog E A) s,
    calls w s (try_catch body handler)
    = calls w s body
      ++ match run w s body with
         | inl e => calls w (after w s body) (handler e)
         | inr x => []
         end.
Proof.
  intros A body handler s. unfold try_catch. rewrite calls_pbind.
  destruct (run w s body); reflexivity.
Qed.

Lemma calls_safe :
  forall (A : Type) (p : prog E A) s, calls w s (safe p) = calls w s p.
Proof.
  intros A p s. unfold safe. rewrite calls_pbind. apply app_nil_r.
Qed.

Lemma after_safe :
  forall (A : Type) (p : prog E A) s, after w s (safe p) = after w s p.
Proof. intros A p s. unfold safe. now rewrite after_pbind. Qed.

Lemma run_lift : forall (A : Type) (r : result A) s, run w s (lift r) = r.
Proof. reflexivity. Qed.

Lemma calls_lift : forall (A : Type) (r : result A) s, calls w s (lift r) = [].
Proof. reflexivity. Qed.

Lemma after_lift : forall (A : Type) (r : result A) s, after w s (lift r) = s.
Proof. reflexivity. Qed.

(** A handler that only returns makes no call. *)
Lemma calls_try_catch_ret :
  forall (A : Type) (body : task E A) (d : exn -> A) s,
    calls w s (try_catch body (fun e => Ret (d e))) = calls w s body.
Proof.
  intros A body d s. rewrite calls_try_catch.
  destruct (run w s body); apply app_nil_r.
Qed.

Lemma run_await :
  forall (X : Type) (e : E (result X)) s, run w s (await e) = fst (w s e).
Proof. intros X e s. simpl. now destruct (w s e). Qed.

Lemma calls_await :
  forall (X : Type) (e : E (result X)) s,
    calls w s (await e) = [Called e (fst (w s e))].
Proof. intros X e s. simpl. now destruct (w s e). Qed.

Lemma after_await :
  forall (X : Type) (e : E (result X)) s, after w s (await e) = snd (w s e).
Proof. intros X e s. simpl. now destruct (w s e). Qed.

(** What [try ... catch] returns when the handler only returns. *)
Lemma run_try_catch_ret :
  forall (A : Type) (body : task E A) (d : exn -> A) s,
    run w s (try_catch body (fun e => Ret (d e)))
    = match run w s body with
      | inl e => d e
      | inr x => x
      end.
Proof.
  intros A body d s. rewrite run_try_catch. now destruct (run w s body).
Qed.

End CallFacts.

(** ** Matching, replacing and splitting *)

Module RegexFacts.

(** Giving back: [greedy] settles on the largest count at which the rest
    of the pattern matches. *)
Lemma greedy_largest :
  forall (cont : jsstring -> option nat) s lo j n k,
    lo <= j -> j <= k ->
    cont (skipn j s) = Some n ->
    (forall i, j < i -> i <= k -> cont (skipn i s) = None) ->
    greedy cont s lo k = Some (j + n).
Proof.
  intros cont s lo j n. induction k as [|k IH]; intros Hlo Hjk Hj Hnone.
  - assert (j = 0) by lia. subst j. cbn [greedy].
    replace (Nat.ltb 0 lo) with false by (symmetry; apply Nat.ltb_ge; lia).
    now rewrite Hj.
  - cbn [greedy].
    replace (Nat.ltb (S k) lo) with false by (symmetry; apply Nat.ltb_ge; lia).
    destruct (Nat.eq_dec j (S k)) as [->|Hne].
    + now rewrite Hj.
    + rewrite (Hnone (S k)) by lia. apply IH; try lia; try assumption.
      intros i Hi Hik. apply Hnone; lia.
Qed.

Lemma span_all : forall s, span anyc s = length s.
Proof. induction s as [|c s IH]; simpl; congruence. Qed.

Lemma close_here :
  forall s, match_here [one (oneof "]")] s
            = match s with
              | c :: _ => if N.eqb c 93 then Some 1 else None
              | [] => None
              end.
Proof.
  intros [|c s]; [reflexivity|]. unfold oneof, codes. simpl.
  rewrite orb_false_r. destruct (N.eqb c 93); reflexivity.
Qed.

Lemma no_close_skipn :
  forall post i, no_close post = true -> no_close (skipn i post) = true.
Proof.
  induction post as [|c post IH]; intros [|i] Hno; simpl in *; try reflexivity.
  - assumption.
  - apply andb_prop in Hno as [_ Hno]. auto.
Qed.

Lemma close_none :
  forall s, no_close s = true -> match_here [one (oneof "]")] s = None.
Proof.
  intros [|c s] Hno; rewrite close_here; [reflexivity|].
  simpl in Hno. apply andb_prop in Hno as [Hc _].
  apply negb_true_iff in Hc. now rewrite Hc.
Qed.

(** From an opening bracket the pattern [/\[[\s\S]*\]/] runs to the last
    closing bracket. *)
Lemma json_array_here :
  forall mid post,
    no_close post = true ->
    match_here Recommend.json_array_re (91%N :: mid ++ 93%N :: post)
    = Some (S (S (length mid))).
Proof.
  intros mid post Hpost. unfold Recommend.json_array_re.
  change (match_here [one (oneof "["); star anyc; one (oneof "]")]
            (91%N :: mid ++ 93%N :: post))
    with (option_map S
            (greedy (match_here [one (oneof "]")]) (mid ++ 93%N :: post) 0
                    (span anyc (mid ++ 93%N :: post)))).
  rewrite span_all.
  rewrite (@greedy_largest _ (mid ++ 93%N :: post) 0 (length mid) 1).
  - simpl. f_equal. lia.
  - lia.
  - rewrite length_app. simpl. lia.
  - rewrite skipn_app, Nat.sub_diag, skipn_all. reflexivity.
  - intros i Hi _. rewrite skipn_app.
    rewrite skipn_all2 by lia. cbn [app].
    destruct (i - length mid) as [|d] eqn:Hd; [lia|]. cbn [skipn].
    apply close_none. now apply no_close_skipn.
Qed.

Lemma json_array_needs_open :
  forall c s, N.eqb c 91 = false -> match_here Recommend.json_array_re (c :: s) = None.
Proof.
  intros c s Hc. unfold Recommend.json_array_re, oneof, codes. simpl.
  now rewrite Hc.
Qed.

Lemma match_first_no_open :
  forall pre s,
    no_open pre = true ->
    match_first Recommend.json_array_re (pre ++ s)
    = match_first Recommend.json_array_re s.
Proof.
  induction pre as [|c pre IH]; intros s Hno; [reflexivity|].
  simpl in Hno. apply andb_prop in Hno as [Hc Hno].
  apply negb_true_iff in Hc.
  change ((c :: pre) ++ s) with (c :: (pre ++ s)).
  cbn [match_first]. rewrite json_array_needs_open by exact Hc. now apply IH.
Qed.

(** Every code unit of the result of a replacement comes from the string
    or from the replacement text. *)
Lemma replace_all_keeps :
  forall (P : codeunit -> bool) r rep,
    forallb P rep = true ->
    forall s skip, forallb P s = true -> forallb P (replace_all r rep s skip) = true.
Proof.
  intros P r rep Hrep. induction s as [|c s IH]; intros skip Hs.
  - cbn [replace_all]. destruct skip; [|reflexivity].
    destruct (match_here r []); [assumption | reflexivity].
  - cbn [forallb] in Hs. apply andb_prop in Hs as [Hc Hs].
    cbn [replace_all]. destruct skip as [|k]; [|now apply IH].
    destruct (match_here r (c :: s)) as [[|k]|].
    + rewrite forallb_app, Hrep. cbn [forallb andb]. rewrite Hc. now apply IH.
    + rewrite forallb_app, Hrep. now apply IH.
    + cbn [forallb]. rewrite Hc. now apply IH.
Qed.

Lemma replace_keeps :
  forall (P : codeunit -> bool) r rep s,
    forallb P rep = true -> forallb P s = true ->
    forallb P (replace r rep s) = true.
Proof. intros P r rep s Hrep Hs. now apply replace_all_keeps. Qed.

(** Replacing every code unit of a class leaves none of the class, when
    the replacement text has none. *)
Lemma replace_one_removes :
  forall (cls : codeunit -> bool) rep s,
    forallb (fun c => negb (cls c)) rep = true ->
    forallb (fun c => negb (cls c)) (replace [one cls] rep s) = true.
Proof.
  intros cls rep s Hrep. unfold replace.
  induction s as [|c s IH]; [reflexivity|].
  cbn [replace_all match_here one qnt JS.cls].
  destruct (cls c) eqn:Hc.
  - cbn [option_map]. now rewrite forallb_app, Hrep.
  - cbn [forallb]. now rewrite Hc.
Qed.

Lemma plus_here :
  forall (p : codeunit -> bool) c s,
    match_here [plus p] (c :: s)
    = if p c then Some (S (span p s)) else None.
Proof.
  intros p c s. cbn [match_here plus qnt cls span].
  destruct (p c); [|reflexivity].
  cbn [greedy Nat.ltb Nat.leb match_here]. now rewrite Nat.add_0_r.
Qed.

(** After [/\s+/g] is replaced by a space, the only white space left is
    the space. *)
Lemma replace_spaces_collapses :
  forall s,
    forallb (fun c => negb (is_space c) || N.eqb c 32)
            (replace [plus spacec] (lit " ") s) = true.
Proof.
  intros s. unfold replace. generalize 0 as skip.
  induction s as [|c s IH]; intros skip.
  - cbn [replace_all]. destruct skip; reflexivity.
  - cbn [replace_all]. destruct skip as [|k]; [|apply IH].
    rewrite plus_here. destruct (spacec c) eqn:Hc.
    + change (lit " " ++ replace_all [plus spacec] (lit " ") s (span spacec s))
        with (32%N :: replace_all [plus spacec] (lit " ") s (span spacec s)).
      cbn [forallb]. rewrite (IH (span spacec s)). reflexivity.
    + unfold spacec in Hc. cbn [forallb]. rewrite Hc. apply IH.
Qed.

End RegexFacts.

Module MatchFacts.

(** Every match of a [g] scan is an anchored match somewhere in the
    string. *)
Lemma scan_matches_In :
  forall r s skip m,
    In m (scan_matches r s skip) ->
    exists t n, match_here r t = Some n /\ m = firstn n t.
Proof.
  intros r. induction s as [|c s IH]; intros skip m Hin.
  - simpl in Hin. destruct skip; [|destruct Hin].
    destruct (match_here r []) as [n|] eqn:Hm; [|destruct Hin].
    destruct Hin as [<- | []]. exists [], n. split; [assumption|].
    now destruct n.
  - cbn [scan_matches] in Hin. destruct skip as [|k]; [|eauto].
    destruct (match_here r (c :: s)) as [n|] eqn:Hm; [|eauto].
    destruct Hin as [<- | Hin]; eauto.
Qed.

Lemma span_le : forall p s, span p s <= length s.
Proof.
  intros p. induction s as [|c s IH]; simpl; [lia|].
  destruct (p c); simpl; lia.
Qed.

Lemma firstn_span : forall p s, forallb p (firstn (span p s) s) = true.
Proof.
  intros p. induction s as [|c s IH]; simpl; [reflexivity|].
  destruct (p c) eqn:Hc; simpl; [now rewrite Hc | reflexivity].
Qed.

(** With nothing after it, a [+] takes its whole span, which must not be
    empty. *)
Lemma plus_last :
  forall p s,
    match_here [plus p] s
    = match span p s with 0 => None | S k => Some (S k) end.
Proof.
  intros p s. cbn [match_here plus qnt cls].
  destruct (span p s) as [|k]; [reflexivity|].
  cbn [greedy Nat.ltb Nat.leb match_here]. now rewrite Nat.add_0_r.
Qed.

(** A match of a mark followed by [\w+]: the mark and the longest run of
    word characters after it. *)
Lemma marked_word :
  forall p t n,
    match_here [one p; plus wordc] t = Some n ->
    exists c word,
      firstn n t = c :: word /\ p c = true
      /\ word <> [] /\ forallb is_word word = true.
Proof.
  intros p [|c t] n; [discriminate|].
  change (match_here [one p; plus wordc] (c :: t))
    with (if p c then option_map S (match_here [plus wordc] t) else None).
  destruct (p c) eqn:Hc; [|discriminate].
  rewrite plus_last. destruct (span wordc t) as [|k] eqn:Hspan; [discriminate|].
  intros Hn. injection Hn as <-. exists c, (firstn (S k) t).
  repeat split; [assumption | |].
  - destruct t; [discriminate Hspan | discriminate].
  - rewrite <- Hspan. apply (firstn_span wordc).
Qed.

End MatchFacts.

(** ** Reading the model's reply *)

Module CleanFacts.
Import Recommend.

(** X1. "Extract JSON if it's wrapped in other text": what precedes the
    first opening bracket and what follows the last closing bracket is
    dropped, and all that lies between them is kept. *)
Theorem extract_json_outermost :
  forall pre mid post,
    no_open pre = true ->
    no_close post = true ->
    extract_json (pre ++ 91%N :: mid ++ 93%N :: post) = 91%N :: mid ++ [93%N].
Proof.
  intros pre mid post Hpre Hpost. unfold extract_json.
  rewrite RegexFacts.match_first_no_open by assumption.
  cbn [match_first]. rewrite RegexFacts.json_array_here by assumption.
  rewrite firstn_cons. f_equal.
  rewrite firstn_app, firstn_all2 by lia.
  replace (S (length mid) - length mid) with 1 by lia. reflexivity.
Qed.

(** A text without an opening bracket is left as it is. *)
Lemma extract_json_unwrapped :
  forall text, no_open text = true -> extract_json text = text.
Proof.
  intros text Hno. unfold extract_json.
  rewrite <- (app_nil_r text).
  rewrite RegexFacts.match_first_no_open by assumption. reflexivity.
Qed.

(** X2. "Clean up the JSON string": the cleaned text holds no white
    space character other than the plain space (no line break, no tab),
    and no curly quote. *)
Theorem clean_json_plain :
  forall text, forallb plain (clean_json text) = true.
Proof.
  intros text.
  assert (Hall : forallb (fun c => negb (codes [8220; 8221]%N c)) (clean_json text) = true
                 /\ forallb (fun c => negb (codes [8216; 8217]%N c)) (clean_json text) = true
                 /\ forallb (fun c => negb (is_space c) || N.eqb c 32) (clean_json text) = true).
  { unfold clean_json. cbv zeta. repeat split.
    - do 11 (apply RegexFacts.replace_keeps; [reflexivity|]).
      apply RegexFacts.replace_one_removes. reflexivity.
    - do 10 (apply RegexFacts.replace_keeps; [reflexivity|]).
      apply RegexFacts.replace_one_removes. reflexivity.
    - do 6 (apply RegexFacts.replace_keeps; [reflexivity|]).
      apply RegexFacts.replace_spaces_collapses. }
  destruct Hall as (Ha & Hb & Hw).
  rewrite forallb_forall in *. intros c Hc.
  specialize (Ha c Hc). specialize (Hb c Hc). specialize (Hw c Hc).
  unfold plain. rewrite Hw. cbn [andb].
  unfold codes in *. cbn [existsb] in *.
  apply negb_true_iff in Ha, Hb. apply negb_true_iff.
  rewrite !orb_false_iff in *. tauto.
Qed.

Lemma extract_json_outermost_witness :
  extract_json (lit "Here you go: [1, 2] Enjoy.") = lit "[1, 2]".
Proof.
  exact (@extract_json_outermost (lit "Here you go: ") (lit "1, 2")
           (lit " Enjoy.") eq_refl eq_refl).
Defined.

(** White space is not always turned into a space: next to a colon or a
    comma it is deleted. *)
Example cleaning_deletes_space_at_colon :
  clean_json (lit "a" ++ [10%N] ++ lit ":b") = lit "a:b"
  /\ clean_json (lit "a" ++ [9%N] ++ lit "b") = lit "a b".
Proof. vm_compute. split; reflexivity. Qed.

End CleanFacts.

(** ** The links of a recommendation *)

Section URLSafe.
Local Open Scope N_scope.

Lemma hex_digit_unreserved : forall d, d < 16 -> unreserved (hex_digit d) = true.
Proof.
  intros d Hd.
  exact (@below_cases (fun d => unreserved (hex_digit d)) 16%nat eq_refl d Hd).
Qed.

Lemma percent_url_safe :
  forall b, b < 256 -> forallb url_safe (percent b) = true.
Proof.
  intros b Hb. destruct (octet_split Hb) as [Hhi [Hlo _]].
  unfold percent, url_safe. cbn [forallb].
  rewrite (hex_digit_unreserved Hhi), (hex_digit_unreserved Hlo). reflexivity.
Qed.

Lemma utf8_octets :
  forall cp, scalar cp = true -> forallb (fun b => b <? 256) (utf8 cp) = true.
Proof.
  intros cp Hcp. unfold scalar in Hcp. apply andb_prop in Hcp as [Hmax _].
  apply N.ltb_lt in Hmax. rewrite utf8_arith.
  pose proof (N.mod_lt cp 64 ltac:(discriminate)) as Hm1.
  pose proof (N.mod_lt (cp / 64) 64 ltac:(discriminate)) as Hm2.
  pose proof (N.mod_lt (cp / 4096) 64 ltac:(discriminate)) as Hm3.
  destruct (cp <? 128) eqn:H1.
  { cbn [forallb]. apply N.ltb_lt in H1. rewrite andb_true_r. apply N.ltb_lt. lia. }
  destruct (cp <? 2048) eqn:H2.
  { apply N.ltb_lt in H2.
    assert (cp / 64 < 32) by (apply N.Div0.div_lt_upper_bound; lia).
    cbn [forallb]. bool_to_prop. lia. }
  destruct (cp <? 65536) eqn:H3.
  { apply N.ltb_lt in H3.
    assert (cp / 4096 < 16) by (apply N.Div0.div_lt_upper_bound; lia).
    cbn [forallb]. bool_to_prop. lia. }
  replace (cp <? 2097152) with true by (symmetry; bool_to_prop; lia).
  assert (cp / 262144 < 8) by (apply N.Div0.div_lt_upper_bound; lia).
  cbn [forallb]. bool_to_prop. lia.
Qed.

Lemma percent_all_url_safe :
  forall octets,
    forallb (fun b => b <? 256) octets = true ->
    forallb url_safe (percent_all octets) = true.
Proof.
  induction octets as [|b octets IH]; [reflexivity|].
  intros Hall. cbn [forallb] in Hall. apply andb_prop in Hall as [Hb Hall].
  apply N.ltb_lt in Hb.
  change (percent_all (b :: octets)) with (percent b ++ percent_all octets).
  rewrite forallb_app. apply andb_true_intro.
  split; [exact (percent_url_safe Hb) | exact (IH Hall)].
Qed.

Lemma percent_encode_url_safe :
  forall cps,
    forallb scalar cps = true ->
    forallb url_safe (percent_encode cps) = true.
Proof.
  induction cps as [|cp cps IH]; [reflexivity|].
  intros Hall. cbn [forallb] in Hall. apply andb_prop in Hall as [Hcp Hall].
  change (percent_encode (cp :: cps))
    with ((if unreserved cp then [cp] else percent_all (utf8 cp))
          ++ percent_encode cps).
  rewrite forallb_app. apply andb_true_intro. split; [|exact (IH Hall)].
  destruct (unreserved cp) eqn:Hu.
  - unfold url_safe. cbn [forallb]. now rewrite Hu.
  - apply percent_all_url_safe. now apply utf8_octets.
Qed.

End URLSafe.

Module LinkFacts.
Import Recommend.
Import RecommendFacts.

(** X3. For an item whose name is a string, the query of both links is
    the same text; it holds only characters that are safe in a URL
    (unreserved ones and [%] escapes), and [decodeURIComponent] reads the
    name back from it. *)
Theorem link_query_round_trip :
  forall budget rec r name_text,
    to_recommendation budget rec = ok r ->
    get rec (lit "name") = ok (VStr name_text) ->
    units16 name_text = true ->
    exists query,
      amazon_link r = lit "https://www.amazon.com/s?k=" ++ query
      /\ etsy_link r = lit "https://www.etsy.com/search?q=" ++ query
      /\ forallb url_safe query = true
      /\ decodeURIComponent query = ok name_text.
Proof.
  intros budget rec r name_text Hr Hname H16.
  apply to_recommendation_ok in Hr
    as (rec_name & rec_description & rec_price & rec_match_reason
        & price_text & text & encoded
        & Hname' & _ & _ & _ & _ & Htext & Hencoded & ->).
  rewrite Hname in Hname'. injection Hname' as <-.
  assert (text = name_text).
  { destruct name_text; cbn in Htext; now injection Htext as <-. }
  subst text. exists encoded. repeat split.
  - destruct (encodeURIComponent_ok _ Hencoded) as [Hwf ->].
    apply percent_encode_url_safe.
    now destruct (@codepoints_roundtrip name_text H16 Hwf).
  - now apply decodeURIComponent_encodeURIComponent.
Qed.

(** X4. An item without a name, or with a falsy one (the empty string,
    [null], 0, [false]), is shown under the name "Gift suggestion", but
    its two links search for the empty string: the query after the prefix
    is empty, because the links are built from [rec.name || ""]. *)
Theorem unnamed_item_defaults :
  forall budget rec r rec_name,
    to_recommendation budget rec = ok r ->
    get rec (lit "name") = ok rec_name ->
    truthy rec_name = false ->
    name r = VStr (lit "Gift suggestion")
    /\ amazon_link r = lit "https://www.amazon.com/s?k="
    /\ etsy_link r = lit "https://www.etsy.com/search?q=".
Proof.
  intros budget rec r rec_name Hr Hname Hfalsy.
  apply to_recommendation_ok in Hr
    as (rec_name' & rec_description & rec_price & rec_match_reason
        & price_text & text & encoded
        & Hname' & _ & _ & _ & _ & Htext & Hencoded & ->).
  rewrite Hname in Hname'. injection Hname' as <-.
  unfold or_else in *. rewrite Hfalsy in *.
  cbn in Htext. injection Htext as <-.
  cbn in Hencoded. injection Hencoded as <-.
  repeat split.
Qed.

Lemma link_query_round_trip_witness :
  exists query,
    amazon_link mug_recommendation = lit "https://www.amazon.com/s?k=" ++ query
    /\ etsy_link mug_recommendation
       = lit "https://www.etsy.com/search?q=" ++ query
    /\ forallb url_safe query = true
    /\ decodeURIComponent query
       = ok (lit "Caf" ++ [233%N] ++ lit " mug & saucer #2 (blue)!").
Proof.
  apply (@link_query_round_trip (of_N false 50) mug_item mug_recommendation
           (lit "Caf" ++ [233%N] ++ lit " mug & saucer #2 (blue)!")).
  - vm_compute. reflexivity.
  - reflexivity.
  - reflexivity.
Defined.

Lemma unnamed_item_defaults_witness :
  name unnamed_recommendation = VStr (lit "Gift suggestion")
  /\ amazon_link unnamed_recommendation = lit "https://www.amazon.com/s?k="
  /\ etsy_link unnamed_recommendation = lit "https://www.etsy.com/search?q=".
Proof.
  apply (@unnamed_item_defaults (of_N false 50) (VObj []) unnamed_recommendation
           VUndefined).
  - vm_compute. reflexivity.
  - reflexivity.
  - reflexivity.
Defined.

End LinkFacts.

Module ReplyFacts.
Import Recommend.
Import RecommendFacts.

(** X5. A completion whose first choice has no content, or only white
    space, is read as the empty array: the function returns the empty
    list, not the fallback recommendation. *)
Theorem blank_reply_gives_no_recommendation :
  forall S (w : world event S) s s' age budget profileAnalysis
         response choice rest m,
    w s _ (GroqRecommend age budget profileAnalysis) = (inr response, s') ->
    choices response = choice :: rest ->
    message choice = Some m ->
    match content m with
    | None => True
    | Some text => trim text = []
    end ->
    run w s (generateGiftRecommendations age budget profileAnalysis) = ok [].
Proof.
  intros S w s s' age budget profileAnalysis response choice rest m
         Hw Hchoices Hmessage Hcontent.
  rewrite (generateGiftRecommendations_run _ _ _ _ _ Hw).
  assert (Htext : reply_text response = ok (lit "[]")).
  { unfold reply_text. rewrite Hchoices, Hmessage.
    destruct (content m) as [text|]; [|reflexivity]. now rewrite Hcontent. }
  cbn [rbind]. unfold recommendations_of_response. rewrite Htext.
  reflexivity.
Qed.

(** X6. When the inference API rejects the request, or answers without
    any choice, the function returns the fallback recommendation. *)
Theorem failed_request_gives_fallback :
  forall S (w : world event S) s s' age budget profileAnalysis answer,
    w s _ (GroqRecommend age budget profileAnalysis) = (answer, s') ->
    match answer with
    | inl _ => True
    | inr response => choices response = []
    end ->
    run w s (generateGiftRecommendations age budget profileAnalysis)
    = ok [fallback_recommendation budget].
Proof.
  intros S w s s' age budget profileAnalysis answer Hw Hanswer.
  rewrite (generateGiftRecommendations_run _ _ _ _ _ Hw).
  destruct answer as [e|response]; [reflexivity|].
  cbn [rbind]. unfold recommendations_of_response, reply_text.
  rewrite Hanswer. reflexivity.
Qed.

(** X7. The map keeps the items one to one and in order: there are as
    many recommendations as items, and every one of them has a truthy
    name, the model's or "Gift suggestion". *)
Theorem one_named_recommendation_per_item :
  forall budget recommendations out,
    map_recommendations budget recommendations = ok out ->
    exists items,
      recommendations = VArr items
      /\ length out = length items
      /\ Forall (fun r => truthy (name r) = true) out.
Proof.
  intros budget recommendations out Hout.
  apply map_recommendations_ok in Hout as [items [-> Hitems]].
  exists items. split; [reflexivity|]. split.
  - symmetry. eapply Forall2_length. eassumption.
  - induction Hitems as [|rec r items out Hr _ IH]; constructor; [|exact IH].
    apply to_recommendation_ok in Hr
      as (rec_name & rec_description & rec_price & rec_match_reason
          & price_text & name_text & encoded
          & _ & _ & _ & _ & _ & _ & _ & ->).
    cbn [name]. unfold or_else.
    destruct (truthy rec_name) eqn:Ht; [exact Ht | reflexivity].
Qed.

Lemma blank_reply_gives_no_recommendation_witness :
  run (fixed_world (replying (lit "  "))) tt
      (generateGiftRecommendations (of_N false 30) (of_N false 50)
                                   (lit "Likes tea."))
  = ok [].
Proof.
  apply (@blank_reply_gives_no_recommendation unit
           (fixed_world (replying (lit "  "))) tt tt
           (of_N false 30) (of_N false 50) (lit "Likes tea.")
           (completion_with (lit "  "))
           {| message := Some {| content := Some (lit "  ") |} |} []
           {| content := Some (lit "  ") |});
    reflexivity.
Defined.

Lemma failed_request_gives_fallback_witness :
  run (fixed_world (answering (inl ExternalError))) tt
      (generateGiftRecommendations (of_N false 30) (of_N false 50)
                                   (lit "Likes tea."))
  = ok [fallback_recommendation (of_N false 50)].
Proof.
  apply (@failed_request_gives_fallback unit
           (fixed_world (answering (inl ExternalError))) tt tt
           (of_N false 30) (of_N false 50) (lit "Likes tea.")
           (inl ExternalError)).
  - reflexivity.
  - exact I.
Defined.

(** The same when the answer has no choice at all. *)
Example no_choice_gives_fallback :
  run (fixed_world (answering (ok {| choices := [] |}))) tt
      (generateGiftRecommendations (of_N false 30) (of_N false 50)
                                   (lit "Likes tea."))
  = ok [fallback_recommendation (of_N false 50)].
Proof. vm_compute. reflexivity. Qed.

Lemma one_named_recommendation_per_item_witness :
  exists items,
    VArr [mug_item; VObj []] = VArr items
    /\ length [mug_recommendation; unnamed_recommendation] = length items
    /\ Forall (fun r => truthy (name r) = true)
              [mug_recommendation; unnamed_recommendation].
Proof.
  apply (@one_named_recommendation_per_item (of_N false 50)
           (VArr [mug_item; VObj []])
           [mug_recommendation; unnamed_recommendation]).
  vm_compute. reflexivity.
Defined.

End ReplyFacts.

(** ** The compressed image *)

Module ImageFacts.
Import Recommend.

Lemma base64_char_ok : forall v, is_base64 (base64_char v) = true.
Proof.
  intros v. unfold base64_char, is_base64, is_upper, is_lower, is_digit, in_range.
  destruct (N.ltb v 26) eqn:H1; [bool_to_prop; lia|].
  destruct (N.ltb v 52) eqn:H2; [bool_to_prop; lia|].
  destruct (N.ltb v 62) eqn:H3; [bool_to_prop; lia|].
  destruct (N.eqb v 62); reflexivity.
Qed.

(** Three octets at a time: a property of [base64] holds of every list
    when it holds of the lists of less than three octets and is kept by
    three more octets in front. *)
Lemma base64_ind :
  forall (P : list N -> Prop),
    P [] -> (forall x, P [x]) -> (forall x y, P [x; y]) ->
    (forall x y z rest, P rest -> P (x :: y :: z :: rest)) ->
    forall b, P b.
Proof.
  intros P H0 H1 H2 H3.
  assert (Hlen : forall n b, length b <= n -> P b).
  { induction n as [|n IH]; intros b Hb.
    - destruct b; [exact H0 | simpl in Hb; lia].
    - destruct b as [|x [|y [|z rest]]]; auto.
      apply H3. apply IH. simpl in Hb. lia. }
  intros b. apply (Hlen (length b)). apply Nat.le_refl.
Qed.

Lemma base64_alphabet : forall b, forallb is_base64 (base64 b) = true.
Proof.
  apply base64_ind.
  - reflexivity.
  - intros x. cbn [base64 forallb]. now rewrite !base64_char_ok.
  - intros x y. cbn [base64 forallb]. now rewrite !base64_char_ok.
  - intros x y z rest IH. cbn [base64 forallb]. now rewrite !base64_char_ok, IH.
Qed.

(** Four characters for every three octets, the last group padded. *)
Lemma base64_length :
  forall b, length (base64 b) = 4 * ((length b + 2) / 3).
Proof.
  apply base64_ind; try reflexivity.
  intros x y z rest IH. cbn [base64 length]. rewrite IH.
  replace (S (S (S (length rest))) + 2) with (length rest + 2 + 1 * 3) by lia.
  rewrite Nat.div_add by discriminate. lia.
Qed.

Lemma forallb_firstn :
  forall (A : Type) (P : A -> bool) n l,
    forallb P l = true -> forallb P (firstn n l) = true.
Proof.
  intros A P. induction n as [|n IH]; intros [|x l] Hl; try reflexivity.
  cbn [firstn forallb] in *. apply andb_prop in Hl as [-> Hl]. now apply IH.
Qed.

#[warnings="-abstract-large-number"] Lemma compressImage_run :
  forall S (w : world event S) s s' b buffer answer,
    w s _ (SharpCompress (b :: buffer)) = (answer, s') ->
    run w s (compressImage (b :: buffer))
    = match answer with
      | inl _ => []
      | inr compressed => slice_to 50000 (Buffer_to_base64 compressed)
      end.
Proof.
  intros S w s s' b buffer answer Hw.
  unfold compressImage, try_catch, tbind, await, ret.
  cbn -[Nat.of_num_uint slice_to Buffer_to_base64].
  rewrite Hw. destruct answer; reflexivity.
Qed.

(** X8. Whatever the image library returns, the result holds only
    characters of base64 text: letters, digits, [+], [/] and [=]. *)
Theorem compressImage_base64_text :
  forall S (w : world event S) s (buffer : Buffer),
    forallb is_base64 (run w s (compressImage buffer)) = true.
Proof.
  intros S w s [|b buffer]; [reflexivity|].
  destruct (w s _ (SharpCompress (b :: buffer))) as [answer s'] eqn:Hw.
  rewrite (compressImage_run _ _ _ _ Hw).
  destruct answer as [e|compressed]; [reflexivity|].
  unfold slice_to, Buffer_to_base64.
  apply forallb_firstn, base64_alphabet.
Qed.

(** The two sizes of the cut, as binary numbers. *)
#[warnings="-abstract-large-number"] Lemma cut_sizes :
  N.of_nat 37500 = 37500%N /\ N.of_nat 50000 = 50000%N.
Proof. split; vm_compute; reflexivity. Qed.

(** X9. The cut at 50000 characters is reached above 37500 octets: a
    compressed image of at most 37500 octets is returned whole, as its
    base64 text; a larger one gives exactly 50000 characters. *)
#[warnings="-abstract-large-number"] Theorem compressImage_truncation :
  forall S (w : world event S) s s' b buffer compressed,
    w s _ (SharpCompress (b :: buffer)) = (inr compressed, s') ->
    (length compressed <= 37500 ->
     run w s (compressImage (b :: buffer)) = Buffer_to_base64 compressed)
    /\ (37500 < length compressed ->
        length (run w s (compressImage (b :: buffer))) = 50000).
Proof.
  intros S w s s' b buffer compressed Hw.
  rewrite (compressImage_run _ _ _ _ Hw).
  destruct cut_sizes as [H3 H5].
  assert (Hlen : length (Buffer_to_base64 compressed)
                 = 4 * ((length compressed + 2) / 3)).
  { unfold Buffer_to_base64. now rewrite base64_length, length_map. }
  pose proof (Nat.div_mod_eq (length compressed + 2) 3) as Hdiv.
  pose proof (Nat.mod_upper_bound (length compressed + 2) 3 ltac:(discriminate))
    as Hmod.
  unfold slice_to. split; intros Hc.
  - apply firstn_all2. lia.
  - rewrite length_firstn. lia.
Qed.

#[warnings="-abstract-large-number"] Lemma compressImage_truncation_witness :
  run (fixed_world (compressing [Byte.x01; Byte.x02] prose_reply)) tt
      (compressImage [Byte.x00])
  = Buffer_to_base64 [Byte.x01; Byte.x02].
Proof.
  apply (proj1 (@compressImage_truncation unit
                  (fixed_world (compressing [Byte.x01; Byte.x02] prose_reply))
                  tt tt Byte.x00 [] [Byte.x01; Byte.x02] eq_refl)).
  destruct cut_sizes as [H3 _]. cbn [length]. lia.
Defined.

End ImageFacts.

(** ** The recommendation route as a whole *)

Module RecommendRoute.
Import Recommend.
Import RecommendFacts.

Lemma recommend_requests_app :
  forall a b, recommend_requests (a ++ b) = recommend_requests a ++ recommend_requests b.
Proof. intros a b. apply flat_map_app. Qed.

(** [generateGiftRecommendations] makes one recommendation request, with
    its three arguments. *)
Lemma generate_calls :
  forall S (w : world event S) s age budget profileAnalysis,
    recommend_requests
      (calls w s (generateGiftRecommendations age budget profileAnalysis))
    = [(age, budget, profileAnalysis)].
Proof.
  intros S w s age budget profileAnalysis.
  unfold generateGiftRecommendations, try_catch_task, tbind, await, lift.
  simpl. destruct (w s _ (GroqRecommend age budget profileAnalysis)) as [answer s'].
  destruct answer as [e|response]; simpl; [reflexivity|].
  destruct (recommendations_of_response budget response); reflexivity.
Qed.

Lemma compressImage_no_request :
  forall S (w : world event S) s buffer,
    recommend_requests (calls w s (compressImage buffer)) = [].
Proof.
  intros S w s buffer. destruct buffer as [|b buffer]; [reflexivity|].
  unfold compressImage, try_catch, tbind, await, ret.
  cbn -[Nat.of_num_uint slice_to Buffer_to_base64].
  destruct (w s _ (SharpCompress (b :: buffer))) as [[e|compressed] s'];
    reflexivity.
Qed.

Lemma analyzeImage_no_request :
  forall S (w : world event S) s base64Image,
    recommend_requests (calls w s (analyzeImage base64Image)) = [].
Proof.
  intros S w s base64Image.
  unfold analyzeImage, try_catch, tbind, await, ret. simpl.
  destruct (w s _ GroqAnalyzeImage) as [[e|completion] s']; reflexivity.
Qed.

(** Compressing and analysing an image never throws and makes no
    recommendation request. *)
Lemma analysis_of_file :
  forall S (w : world event S) s bytes,
    exists profileAnalysis,
      run w s (tbind (safe (compressImage bytes))
                     (fun base64Image => safe (analyzeImage base64Image)))
      = ok profileAnalysis
      /\ recommend_requests
           (calls w s (tbind (safe (compressImage bytes))
                             (fun base64Image => safe (analyzeImage base64Image))))
         = [].
Proof.
  intros S w s bytes.
  rewrite run_tbind, calls_tbind, run_safe, calls_safe.
  unfold ok. rewrite run_safe, calls_safe, after_safe.
  eexists. split; [reflexivity|].
  rewrite recommend_requests_app.
  now rewrite compressImage_no_request, analyzeImage_no_request.
Qed.

Lemma guard_passed :
  forall fd,
    truthy_number (Number (form_get (lit "age") fd)) = true ->
    truthy_number (Number (form_get (lit "budget") fd)) = true ->
    negb (truthy_number (Number (form_get (lit "age") fd)))
    || negb (truthy_number (Number (form_get (lit "budget") fd))) = false.
Proof. intros fd -> ->. reflexivity. Qed.

(** X10. Once the form is read, the age and the budget are truthy and the
    image field is absent, empty or a file, the request is answered with
    status 200 and a list of recommendations, whatever the image library
    and the inference API do: none of their failures fails the request. *)
Theorem accepted_request_answered :
  forall S (w : world event S) s request fd,
    formData request = ok fd ->
    truthy_number (Number (form_get (lit "age") fd)) = true ->
    truthy_number (Number (form_get (lit "budget") fd)) = true ->
    image_usable fd = true ->
    exists recommendations,
      run w s (POST request) = json (Recommendations recommendations) 200.
Proof.
  intros S w s request fd Hfd Hage Hbudget Himage.
  unfold POST. rewrite run_try_catch, run_tbind, run_lift, after_lift, Hfd.
  unfold ok at 1. cbv beta iota.
  rewrite (guard_passed fd Hage Hbudget), run_tbind.
  match goal with
  | |- context [run w s ?p] =>
      assert (Hstep : exists profileAnalysis, run w s p = inr profileAnalysis)
  end.
  { unfold image_usable in Himage.
    destruct (form_get (lit "instagram-grid") fd) as [[[|c t]|bytes]|];
      try discriminate; try (exists []; reflexivity).
    destruct (analysis_of_file w s bytes) as [pa [Hpa _]]. now exists pa. }
  destruct Hstep as [profileAnalysis Hstep]. rewrite Hstep.
  cbv beta iota. rewrite run_tbind.
  match goal with
  | |- context [run w ?s0 (generateGiftRecommendations ?a ?b ?p)] =>
      destruct (generateGiftRecommendations_returns w s0 a b p) as [recs ->]
  end.
  exists recs. reflexivity.
Qed.

(** X11. A request that passes the guard and has a usable image field
    makes exactly one recommendation request to the
    inference API, with the age and the budget of the form and an analysis
    that is never the empty string. *)
Theorem one_recommendation_request :
  forall S (w : world event S) s request fd,
    formData request = ok fd ->
    truthy_number (Number (form_get (lit "age") fd)) = true ->
    truthy_number (Number (form_get (lit "budget") fd)) = true ->
    image_usable fd = true ->
    exists profileAnalysis,
      profileAnalysis <> []
      /\ recommend_requests (calls w s (POST request))
         = [(Number (form_get (lit "age") fd),
             Number (form_get (lit "budget") fd),
             profileAnalysis)].
Proof.
  intros S w s request fd Hfd Hage Hbudget Himage.
  unfold POST.
  rewrite (calls_try_catch_ret w _
             (fun _ => json (Error (lit "Failed to get gift recommendations")) 500)).
  rewrite calls_tbind, run_lift, calls_lift, after_lift, Hfd.
  unfold ok at 1. cbv beta iota.
  rewrite (guard_passed fd Hage Hbudget), calls_tbind.
  match goal with
  | |- context [run w s ?p] =>
      assert (Hstep : exists profileAnalysis,
                 run w s p = inr profileAnalysis
                 /\ recommend_requests (calls w s p) = [])
  end.
  { unfold image_usable in Himage.
    destruct (form_get (lit "instagram-grid") fd) as [[[|c t]|bytes]|];
      try discriminate; try (exists []; split; reflexivity).
    exact (analysis_of_file w s bytes). }
  destruct Hstep as [profileAnalysis [Hstep Hnone]]. rewrite Hstep.
  cbv beta iota. rewrite calls_tbind.
  match goal with
  | |- context [run w ?s0 (generateGiftRecommendations ?a ?b ?p)] =>
      destruct (generateGiftRecommendations_returns w s0 a b p) as [recs ->];
      exists p
  end.
  split; [destruct profileAnalysis; discriminate|].
  cbv beta iota. cbn [app calls ret]. rewrite !app_nil_r.
  rewrite recommend_requests_app, Hnone. apply generate_calls.
Qed.

Lemma generate_one_call :
  forall S (w : world event S) s age budget profileAnalysis,
    calls w s (generateGiftRecommendations age budget profileAnalysis)
    = [Called (GroqRecommend age budget profileAnalysis)
              (fst (w s _ (GroqRecommend age budget profileAnalysis)))].
Proof.
  intros S w s age budget profileAnalysis.
  unfold generateGiftRecommendations, try_catch_task, tbind, await, lift.
  simpl. destruct (w s _ (GroqRecommend age budget profileAnalysis)) as [answer s'].
  destruct answer as [e|response]; simpl; [reflexivity|].
  destruct (recommendations_of_response budget response); reflexivity.
Qed.

(** X12. The status of the answer is decided by the form alone: 500 when
    the body is not a form; 400 when the age or the budget is falsy; 500
    when the image field is a non-empty string, which has no
    [arrayBuffer()]; 200 in every other case.  No answer of the image
    library or of the inference API changes the status. *)
Theorem recommend_status_table :
  forall S (w : world event S) s request,
    status (run w s (POST request))
    = match formData request with
      | inl _ => 500%N
      | inr fd =>
          if truthy_number (Number (form_get (lit "age") fd))
             && truthy_number (Number (form_get (lit "budget") fd))
          then if image_usable fd then 200%N else 500%N
          else 400%N
      end.
Proof.
  intros S w s request.
  destruct (formData request) as [e|fd] eqn:Hfd.
  { unfold POST. rewrite run_try_catch_ret, run_tbind, run_lift, Hfd.
    reflexivity. }
  destruct (truthy_number (Number (form_get (lit "age") fd))) eqn:Hage;
    [|rewrite (POST_guard request Hfd) by (now left); reflexivity].
  destruct (truthy_number (Number (form_get (lit "budget") fd))) eqn:Hbudget;
    [|rewrite (POST_guard request Hfd) by (now right); reflexivity].
  cbn [andb].
  unfold POST. rewrite run_try_catch_ret, run_tbind, run_lift, after_lift, Hfd.
  cbv beta iota. rewrite Hage, Hbudget. cbn [negb orb].
  rewrite run_tbind. unfold image_usable.
  destruct (form_get (lit "instagram-grid") fd) as [[[|c t]|bytes]|];
    [ | reflexivity
      | match goal with
        | |- context [@run ?E ?S0 ?R w s ?p] =>
            assert (Hstep : exists pa, @run E S0 R w s p = inr pa)
              by (destruct (analysis_of_file w s bytes) as [pa [Hpa _]];
                  now exists pa)
        end;
        destruct Hstep as [pa ->]
      | ];
    cbn [run ret after]; unfold ok; cbv beta iota; rewrite run_tbind;
    match goal with
    | |- context [run w ?s0 (generateGiftRecommendations ?a ?b ?p)] =>
        destruct (generateGiftRecommendations_returns w s0 a b p) as [recs ->]
    end; reflexivity.
Qed.

(** X13. For a form with a truthy age and a truthy budget and whose
    [instagram-grid] field is absent or is the empty string, nothing is
    compressed or analysed: the only external call is the recommendation
    request, made with the age and the budget of the form and the
    analysis text "No profile analysis available.". *)
Theorem no_image_no_analysis :
  forall S (w : world event S) s request fd,
    formData request = ok fd ->
    truthy_number (Number (form_get (lit "age") fd)) = true ->
    truthy_number (Number (form_get (lit "budget") fd)) = true ->
    form_get (lit "instagram-grid") fd = None
    \/ form_get (lit "instagram-grid") fd = Some (FString []) ->
    exists answer,
      calls w s (POST request)
      = [Called (GroqRecommend (Number (form_get (lit "age") fd))
                               (Number (form_get (lit "budget") fd))
                               (lit "No profile analysis available."))
                answer].
Proof.
  intros S w s request fd Hfd Hage Hbudget Himage.
  unfold POST.
  rewrite (calls_try_catch_ret w _
             (fun _ => json (Error (lit "Failed to get gift recommendations")) 500)).
  rewrite calls_tbind, run_lift, calls_lift, after_lift, Hfd.
  unfold ok at 1. cbv beta iota.
  rewrite (guard_passed fd Hage Hbudget), calls_tbind.
  eexists.
  destruct Himage as [-> | ->]; cbn [run calls ret app]; unfold ok;
    cbv beta iota; rewrite calls_tbind, generate_one_call;
    match goal with
    | |- context [run w ?s0 (generateGiftRecommendations ?a ?b ?p)] =>
        destruct (generateGiftRecommendations_returns w s0 a b p) as [recs ->]
    end; reflexivity.
Qed.

Lemma after_fixed_world :
  forall (f : forall X, event X -> X) (R : Type) (p : prog event R) s,
    after (fixed_world f) s p = s.
Proof.
  intros f R. induction p as [r | X e k IH]; intros s; [reflexivity|].
  cbn [after]. unfold fixed_world at 1. apply IH.
Qed.

(** X14. The content of the uploaded image has no influence on the
    answer: the image is compressed, but the analysis request does not
    carry it.  In a world whose answers depend only on the request made,
    two forms with the same age and budget and any two files get the same
    response. *)
Theorem image_content_ignored :
  forall (f : forall X, event X -> X) request1 request2 fd1 fd2 bytes1 bytes2,
    formData request1 = ok fd1 ->
    formData request2 = ok fd2 ->
    form_get (lit "age") fd1 = form_get (lit "age") fd2 ->
    form_get (lit "budget") fd1 = form_get (lit "budget") fd2 ->
    form_get (lit "instagram-grid") fd1 = Some (FFile bytes1) ->
    form_get (lit "instagram-grid") fd2 = Some (FFile bytes2) ->
    run (fixed_world f) tt (POST request1)
    = run (fixed_world f) tt (POST request2).
Proof.
  intros f request1 request2 fd1 fd2 bytes1 bytes2 Hfd1 Hfd2 Hage Hbudget
    Himage1 Himage2.
  unfold POST. unfold ok in Hfd1, Hfd2.
  rewrite !run_try_catch_ret, !run_tbind, !run_lift, !after_lift, Hfd1, Hfd2.
  cbv beta iota. rewrite Hage, Hbudget, Himage1, Himage2.
  destruct (negb _ || negb _); [reflexivity|].
  rewrite !run_tbind, !run_safe, !after_fixed_world.
  unfold ok. cbv beta iota. rewrite !run_safe.
  reflexivity.
Qed.

Lemma accepted_request_answered_witness :
  exists recommendations,
    run (fixed_world (compressing [Byte.x01] prose_reply)) tt
        (POST (form_with_image [Byte.x00]))
    = json (Recommendations recommendations) 200.
Proof.
  apply (@accepted_request_answered unit
           (fixed_world (compressing [Byte.x01] prose_reply)) tt
           (form_with_image [Byte.x00])
           [(lit "age", FString (lit "30"));
            (lit "budget", FString (lit "50"));
            (lit "instagram-grid", FFile [Byte.x00])]).
  - reflexivity.
  - vm_compute. reflexivity.
  - vm_compute. reflexivity.
  - reflexivity.
Defined.

Lemma one_recommendation_request_witness :
  exists profileAnalysis,
    profileAnalysis <> []
    /\ recommend_requests
         (calls (fixed_world (compressing [Byte.x01] prose_reply)) tt
                (POST (form_with_image [Byte.x00])))
       = [(StringToNumber (lit "30"), StringToNumber (lit "50"),
           profileAnalysis)].
Proof.
  apply (@one_recommendation_request unit
           (fixed_world (compressing [Byte.x01] prose_reply)) tt
           (form_with_image [Byte.x00])
           [(lit "age", FString (lit "30"));
            (lit "budget", FString (lit "50"));
            (lit "instagram-grid", FFile [Byte.x00])]).
  - reflexivity.
  - vm_compute. reflexivity.
  - vm_compute. reflexivity.
  - reflexivity.
Defined.

Lemma no_image_no_analysis_witness :
  exists answer,
    calls (fixed_world (replying prose_reply)) tt (POST (form_with_age (lit "30")))
    = [Called (GroqRecommend (StringToNumber (lit "30"))
                             (StringToNumber (lit "50"))
                             (lit "No profile analysis available."))
              answer].
Proof.
  apply (@no_image_no_analysis unit (fixed_world (replying prose_reply)) tt
           (form_with_age (lit "30"))
           [(lit "age", FString (lit "30"));
            (lit "budget", FString (lit "50"))]).
  - reflexivity.
  - vm_compute. reflexivity.
  - vm_compute. reflexivity.
  - left. reflexivity.
Defined.

(** An uploaded file is truthy even when it is empty: it is not
    compressed, but the analysis is requested. *)
Example empty_file_is_analysed :
  calls (fixed_world (replying prose_reply)) tt (POST (form_with_image []))
  = [Called GroqAnalyzeImage (inl ExternalError);
     Called (GroqRecommend (of_N false 30) (of_N false 50)
                           (lit "No profile analysis available."))
            (ok (completion_with prose_reply))].
Proof. vm_compute. reflexivity. Qed.

Lemma image_content_ignored_witness :
  run (fixed_world (compressing [Byte.x02] prose_reply)) tt
      (POST (form_with_image [Byte.x00]))
  = run (fixed_world (compressing [Byte.x02] prose_reply)) tt
        (POST (form_with_image [Byte.x01])).
Proof.
  apply (@image_content_ignored (compressing [Byte.x02] prose_reply)
           (form_with_image [Byte.x00]) (form_with_image [Byte.x01])
           [(lit "age", FString (lit "30"));
            (lit "budget", FString (lit "50"));
            (lit "instagram-grid", FFile [Byte.x00])]
           [(lit "age", FString (lit "30"));
            (lit "budget", FString (lit "50"));
            (lit "instagram-grid", FFile [Byte.x01])]
           [Byte.x00] [Byte.x01]);
    reflexivity.
Defined.

End RecommendRoute.

(** ** The scraper and the scrape route *)

Module ScrapeRoute.
Import Scrape.

Section Scraping.

Context `{Unicode}.
Variable S : Type.
Variable w : world event S.

Lemma visit_posts_run :
  forall urls s posts,
    run w s (visit_posts urls) = inr posts ->
    length posts = length urls
    /\ Forall (fun post => exists page, post = postData page) posts.
Proof.
  induction urls as [|url urls IH]; intros s posts Hrun.
  - injection Hrun as <-. split; [reflexivity | constructor].
  - cbn [visit_posts] in Hrun.
    apply run_tbind_ok in Hrun as [[] [_ Hrun]].
    apply run_tbind_ok in Hrun as [page [_ Hrun]].
    apply run_tbind_ok in Hrun as [rest [Hrest Hrun]].
    injection Hrun as <-. apply IH in Hrest as [Hlen Hall].
    split; [simpl; now rewrite Hlen|].
    constructor; [now exists page | assumption].
Qed.

Lemma visit_posts_calls :
  forall urls s,
    existsb closes_browser (calls w s (visit_posts urls)) = false
    /\ (forall posts, run w s (visit_posts urls) = inr posts ->
        navigations (calls w s (visit_posts urls))
        = map (fun url => (url, true)) urls).
Proof.
  induction urls as [|url urls IH]; intros s; [split; reflexivity|].
  cbn [visit_posts].
  rewrite calls_tbind, run_tbind, calls_await, run_await, after_await.
  destruct (w s (Goto url true)) as [[e|[]] s1]; cbn [fst snd];
    [split; [reflexivity | discriminate]|].
  rewrite calls_tbind, run_tbind, calls_await, run_await, after_await.
  destruct (w s1 QueryPost) as [[e|page] s2]; cbn [fst snd];
    [split; [reflexivity | discriminate]|].
  rewrite calls_tbind, run_tbind.
  destruct (IH s2) as [Hclose Hnav].
  destruct (run w s2 (visit_posts urls)) as [e|rest] eqn:Hrest.
  - split; [|discriminate]. cbn [app existsb closes_browser orb].
    rewrite app_nil_r. exact Hclose.
  - split.
    + cbn [app existsb closes_browser orb]. rewrite existsb_app, Hclose.
      reflexivity.
    + intros posts _. unfold navigations in *.
      cbn [app flat_map navigation map]. rewrite flat_map_app.
      rewrite (Hnav rest eq_refl). cbn [calls ret flat_map].
      now rewrite app_nil_r.
Qed.

(** X15. A profile returned by the scraper carries the username it was
    asked for and a biography (the empty string when the page shows none);
    it has at most 10 posts, each of them built by [postData] from the
    page of one post, so with a caption, a likes count, hashtags and
    mentions all present. *)
Theorem scraped_profile_shape :
  forall s u p,
    run w s (scrapeInstagramProfile u) = Some p ->
    username p = u
    /\ (exists text, bio p = Some text)
    /\ length (posts p) <= 10
    /\ Forall (fun post => exists page, post = postData page) (posts p).
Proof.
  intros s u p. unfold scrapeInstagramProfile. rewrite run_try_catch.
  match goal with
  | |- context [run w s ?body] => destruct (run w s body) as [e|x] eqn:Hbody
  end; [discriminate|].
  intros ->.
  apply run_tbind_ok in Hbody as [[] [_ Hbody]].
  apply run_tbind_ok in Hbody as [[] [_ Hbody]].
  apply run_tbind_ok in Hbody as [[] [_ Hbody]].
  apply run_tbind_ok in Hbody as [name [_ Hbody]].
  apply run_tbind_ok in Hbody as [[] [_ Hbody]].
  apply run_tbind_ok in Hbody as [[] [_ Hbody]].
  apply run_tbind_ok in Hbody as [links [_ Hbody]].
  apply run_tbind_ok in Hbody as [visited [Hvisit Hbody]].
  apply run_tbind_ok in Hbody as [[] [_ Hbody]].
  apply run_tbind_ok in Hbody as [text [_ Hbody]].
  apply run_tbind_ok in Hbody as [[] [_ Hbody]].
  injection Hbody as <-. cbn [username bio posts].
  apply visit_posts_run in Hvisit as [Hlen Hall].
  repeat split; [eauto | | assumption].
  rewrite Hlen, length_firstn. apply Nat.le_min_l.
Qed.

(** One step of the scraper: the call is made and answered; the run goes
    on when the answer is not an error. *)
Ltac await_step s' :=
  rewrite calls_tbind, run_tbind, calls_await, run_await, after_await;
  match goal with
  | |- context [w ?s ?e] => destruct (w s e) as [[?|?] s']
  end;
  cbn [fst snd].

(** X16. The browser is closed on the runs that return a profile and on
    no other: a call of [browser.close()] is answered without an error
    exactly when the scraper returns a profile.  On a run that returns
    [null], whichever step failed, no call has closed the browser. *)
Theorem browser_closed_iff_profile :
  forall s u,
    existsb closes_browser (calls w s (scrapeInstagramProfile u))
    = match run w s (scrapeInstagramProfile u) with
      | Some _ => true
      | None => false
      end.
Proof.
  intros s u. unfold scrapeInstagramProfile.
  rewrite calls_try_catch_ret, run_try_catch_ret.
  await_step s1; [reflexivity|].
  await_step s2; [reflexivity|].
  await_step s3; [reflexivity|].
  rewrite calls_tbind, run_tbind, run_lift, calls_lift, after_lift.
  destruct (to_string u) as [e|name]; [reflexivity|].
  await_step s4; [reflexivity|].
  await_step s5; [reflexivity|].
  await_step s6; [reflexivity|].
  rewrite calls_tbind, run_tbind.
  match goal with
  | |- context [visit_posts ?urls] =>
      destruct (visit_posts_calls urls s6) as [Hclose _];
      destruct (run w s6 (visit_posts urls)) as [e|visited];
      generalize dependent (after w s6 (visit_posts urls));
      generalize dependent (calls w s6 (visit_posts urls))
  end.
  - intros cs Hclose _. cbn [app existsb closes_browser orb].
    rewrite app_nil_r. exact Hclose.
  - intros cs Hclose s7.
    await_step s8;
      [cbn [app existsb closes_browser orb]; now rewrite existsb_app, Hclose|].
    await_step s9;
      [cbn [app existsb closes_browser orb]; now rewrite existsb_app, Hclose|].
    await_step s10;
      cbn [app existsb closes_browser orb]; rewrite existsb_app, Hclose;
      cbn [app existsb closes_browser orb calls ret]; reflexivity.
Qed.

(** X17. A successful scrape navigates, in this order, to the profile
    page, to the first 10 of the post links found there (all of them when
    there are fewer), and to the profile page again, the last time without
    waiting for the network to be idle; it returns one post for each link
    visited. *)
Theorem scrape_navigation :
  forall s u p,
    run w s (scrapeInstagramProfile u) = Some p ->
    exists name links,
      to_string u = ok name
      /\ In (Called QueryPostLinks (ok links))
            (calls w s (scrapeInstagramProfile u))
      /\ navigations (calls w s (scrapeInstagramProfile u))
         = (profile_url name, true)
           :: map (fun url => (url, true)) (firstn 10 links)
           ++ [(profile_url name, false)]
      /\ length (posts p) = Nat.min 10 (length links).
Proof.
  intros s u p. unfold scrapeInstagramProfile.
  rewrite calls_try_catch_ret, run_try_catch_ret.
  await_step s1; [discriminate|].
  await_step s2; [discriminate|].
  await_step s3; [discriminate|].
  rewrite calls_tbind, run_tbind, run_lift, calls_lift, after_lift.
  destruct (to_string u) as [e|name]; [discriminate|].
  await_step s4; [discriminate|].
  await_step s5; [discriminate|].
  rewrite calls_tbind, run_tbind, calls_await, run_await, after_await.
  destruct (w s5 QueryPostLinks) as [[e|links] s6]; cbn [fst snd];
    [discriminate|].
  rewrite calls_tbind, run_tbind.
  destruct (visit_posts_calls (firstn 10 links) s6) as [_ Hnav].
  destruct (run w s6 (visit_posts (firstn 10 links))) as [e|visited] eqn:Hvisit;
    [discriminate|].
  apply visit_posts_run in Hvisit as [Hlen _].
  specialize (Hnav visited eq_refl).
  generalize dependent (after w s6 (visit_posts (firstn 10 links))).
  generalize dependent (calls w s6 (visit_posts (firstn 10 links))).
  intros cs Hnav s7.
  await_step s8; [discriminate|].
  await_step s9; [discriminate|].
  await_step s10; [discriminate|].
  intros Hp. injection Hp as <-. exists name, links.
  split; [reflexivity|]. split; [|split].
  - cbn [app In]. do 5 right. left. reflexivity.
  - unfold navigations in *. cbn [app flat_map navigation].
    rewrite flat_map_app, Hnav. reflexivity.
  - cbn [posts]. rewrite Hlen, length_firstn. reflexivity.
Qed.

(** X18. The scrape route answers 500 only when the body cannot be read:
    [request.json()] rejects, or the parsed body is [null] (or
    [undefined]), which cannot be destructured.  No failure of the browser
    or of the inference API is answered with 500. *)
Theorem server_error_only_for_unreadable_body :
  forall s request,
    status (run w s (POST request)) = 500%N
    <-> (exists e, json_body request = inl e)
        \/ json_body request = ok VNull
        \/ json_body request = ok VUndefined.
Proof.
  intros s request. unfold POST. rewrite run_try_catch_ret.
  rewrite run_tbind, run_lift, after_lift.
  destruct (json_body request) as [e|parsed].
  { split; [eauto | reflexivity]. }
  assert (Hread : forall u,
            get parsed (lit "username") = ok u ->
            status
              match run w s
                (username <~ lift (get parsed (lit "username")) ;;
                 if negb (truthy username) then
                   ret (json (Error (lit "Username is required")) 400)
                 else
                   scraped <~ safe (scrapeInstagramProfile username) ;;
                   match scraped with
                   | None =>
                       ret (json (Error (lit "Failed to fetch Instagram data")) 404)
                   | Some profileData =>
                       analysis <~ safe (analyzeProfile profileData) ;;
                       let interests := extract_interests profileData in
                       ret (json (Scraped profileData interests analysis) 200)
                   end)%task
              with
              | inl _ => json (Error (lit "Failed to fetch Instagram data")) 500
              | inr x => x
              end <> 500%N).
  { intros u Hu. rewrite run_tbind, run_lift, after_lift, Hu.
    unfold ok at 1. cbv beta iota.
    destruct (negb (truthy u)); [discriminate|].
    rewrite run_tbind, run_safe. unfold ok at 1. cbv beta iota.
    destruct (run w s (scrapeInstagramProfile u)) as [p|]; [|discriminate].
    rewrite run_tbind, run_safe. discriminate. }
  split.
  - intros Hstatus.
    destruct (get parsed (lit "username")) as [e|u] eqn:Hget;
      [|exfalso; exact (Hread u eq_refl Hstatus)].
    destruct parsed as [| |b|x|text|items|members]; auto;
      try discriminate Hget.
    simpl in Hget. destruct (lookup (lit "username") members); discriminate.
  - intros [[e He] | [He | He]]; try discriminate He;
      injection He as ->; reflexivity.
Qed.

(** X19. With a truthy username the answer follows the scraper: 404 when
    it returns [null]; otherwise 200 with the scraped profile and the
    interests extracted from it, whatever the analysis request gives.  The
    analysis is requested once, after the scraper is done and only when it
    has returned a profile, for that profile. *)
Theorem scrape_POST_outcome :
  forall s request parsed u,
    json_body request = ok parsed ->
    get parsed (lit "username") = ok u ->
    truthy u = true ->
    match run w s (scrapeInstagramProfile u) with
    | None =>
        run w s (POST request)
        = json (Error (lit "Failed to fetch Instagram data")) 404
    | Some p =>
        exists analysis,
          run w s (POST request)
          = json (Scraped p (extract_interests p) analysis) 200
    end
    /\ calls w s (POST request)
       = calls w s (scrapeInstagramProfile u)
         ++ match run w s (scrapeInstagramProfile u) with
            | None => []
            | Some p =>
                [Called (GroqAnalyzeProfile p)
                        (fst (w (after w s (scrapeInstagramProfile u))
                                (GroqAnalyzeProfile p)))]
            end.
Proof.
  intros s request parsed u Hbody Hget Htruthy. unfold POST.
  unfold ok in Hbody, Hget.
  rewrite run_try_catch_ret, calls_try_catch_ret.
  rewrite run_tbind, calls_tbind, run_lift, calls_lift, after_lift, Hbody.
  cbv beta iota.
  rewrite run_tbind, calls_tbind, run_lift, calls_lift, after_lift, Hget.
  cbv beta iota. rewrite Htruthy. cbn [negb app].
  rewrite run_tbind, calls_tbind, run_safe, calls_safe, after_safe.
  unfold ok. cbv beta iota.
  destruct (run w s (scrapeInstagramProfile u)) as [p|]; [|split; reflexivity].
  rewrite run_tbind, calls_tbind, run_safe, calls_safe, after_safe.
  unfold ok. cbv beta iota. split; [eexists; reflexivity|].
  f_equal. unfold analyzeProfile. rewrite calls_try_catch_ret.
  rewrite calls_tbind, calls_await, run_await.
  destruct (fst _); [reflexivity|]. reflexivity.
Qed.

End Scraping.

Lemma scraped_profile_shape_witness :
  username (profile_with_captions [lit "A day out #fun"] (lit "I am a cat mom"))
  = VStr (lit "someone")
  /\ (exists text,
        bio (profile_with_captions [lit "A day out #fun"] (lit "I am a cat mom"))
        = Some text)
  /\ length (posts (profile_with_captions [lit "A day out #fun"]
                                          (lit "I am a cat mom"))) <= 10
  /\ Forall (fun post => exists page, post = postData page)
            (posts (profile_with_captions [lit "A day out #fun"]
                                          (lit "I am a cat mom"))).
Proof.
  apply (@scraped_profile_shape unit
           (fixed_world (online (lit "A day out #fun") (lit "I am a cat mom")
                                (lit "Likes outings.")))
           tt (VStr (lit "someone"))
           (profile_with_captions [lit "A day out #fun"] (lit "I am a cat mom"))).
  reflexivity.
Defined.

Lemma scrape_navigation_witness :
  exists name links,
    to_string (VStr (lit "someone")) = ok name
    /\ In (Called QueryPostLinks (ok links))
          (calls (fixed_world (online (lit "A day out #fun")
                                      (lit "I am a cat mom")
                                      (lit "Likes outings.")))
                 tt (scrapeInstagramProfile (VStr (lit "someone"))))
    /\ navigations
         (calls (fixed_world (online (lit "A day out #fun")
                                     (lit "I am a cat mom")
                                     (lit "Likes outings.")))
                tt (scrapeInstagramProfile (VStr (lit "someone"))))
       = (profile_url name, true)
         :: map (fun url => (url, true)) (firstn 10 links)
         ++ [(profile_url name, false)]
    /\ length (posts (profile_with_captions [lit "A day out #fun"]
                                            (lit "I am a cat mom")))
       = Nat.min 10 (length links).
Proof.
  apply (@scrape_navigation unit
           (fixed_world (online (lit "A day out #fun") (lit "I am a cat mom")
                                (lit "Likes outings.")))
           tt (VStr (lit "someone"))
           (profile_with_captions [lit "A day out #fun"] (lit "I am a cat mom"))).
  reflexivity.
Defined.

Lemma scrape_POST_outcome_witness :
  status
    (run (fixed_world (online (lit "A day out #fun") (lit "I am a cat mom")
                              (lit "Likes outings.")))
         tt
         (@POST ascii_table
            (scrape_request (VObj [(lit "username", VStr (lit "someone"))]))))
  = 200%N.
Proof.
  destruct (@scrape_POST_outcome ascii_table unit
              (fixed_world (online (lit "A day out #fun") (lit "I am a cat mom")
                                   (lit "Likes outings.")))
              tt
              (scrape_request (VObj [(lit "username", VStr (lit "someone"))]))
              (VObj [(lit "username", VStr (lit "someone"))])
              (VStr (lit "someone")) eq_refl eq_refl eq_refl)
    as [[analysis Hrun] _].
  rewrite Hrun. reflexivity.
Defined.

End ScrapeRoute.

(** ** The shape and the order of the interests *)

Module InterestFacts.
Import Scrape ScrapeFacts.

Section Extracted.

Context `{Unicode}.

Lemma set_add_grows :
  forall s x, exists l, set_add s x = s ++ l /\ incl l [x].
Proof.
  intros s x. unfold set_add. destruct (set_has x s).
  - exists []. split; [now rewrite app_nil_r | intros y []].
  - exists [x]. split; [reflexivity | apply incl_refl].
Qed.

Lemma add_all_grows :
  forall xs s, exists l, add_all s xs = s ++ l /\ incl l xs.
Proof.
  unfold add_all. induction xs as [|x xs IH]; intros s; cbn [fold_left].
  - exists []. split; [now rewrite app_nil_r | intros y []].
  - destruct (set_add_grows s x) as [l1 [-> Hl1]].
    destruct (IH (s ++ l1)) as [l2 [-> Hl2]].
    exists (l1 ++ l2). split; [now rewrite app_assoc|].
    intros y Hy. apply in_app_or in Hy as [Hy | Hy].
    + apply Hl1 in Hy as [<- | []]. now left.
    + right. now apply Hl2.
Qed.

Lemma fold_add_all_grows :
  forall (A : Type) (f : A -> list jsstring) (l : list A) s,
    exists added,
      fold_left (fun s a => add_all s (f a)) l s = s ++ added
      /\ Forall (fun y => exists a, In a l /\ In y (f a)) added.
Proof.
  intros A f. induction l as [|a l IH]; intros s; cbn [fold_left].
  - exists []. split; [now rewrite app_nil_r | constructor].
  - destruct (add_all_grows (f a) s) as [l1 [-> Hl1]].
    destruct (IH (s ++ l1)) as [l2 [-> Hl2]].
    exists (l1 ++ l2). split; [now rewrite app_assoc|].
    apply Forall_app. split.
    + apply Forall_forall. intros y Hy. exists a. split; [now left | auto].
    + apply Forall_forall. intros y Hy.
      rewrite Forall_forall in Hl2. destruct (Hl2 y Hy) as [b [Hb Hyb]].
      exists b. split; [now right | assumption].
Qed.

(** X20. The interests come in the order of extraction: first those of
    the hashtags, then the new keywords of the captions, then the new
    keywords of the biography. *)
Theorem interests_in_order_of_extraction :
  forall profileData,
    exists caption_words bio_words,
      extract_interests profileData
      = add_hashtags [] (posts profileData) ++ caption_words ++ bio_words
      /\ Forall (fun word => exists post,
                   In post (posts profileData)
                   /\ In word (or_nil (keywords (caption post))))
                caption_words
      /\ Forall (fun word => In word (or_nil (keywords (bio profileData))))
                bio_words.
Proof.
  intros profileData.
  unfold extract_interests, add_bio_keywords, add_caption_keywords.
  destruct (fold_add_all_grows (fun post => or_nil (keywords (caption post)))
              (posts profileData) (add_hashtags [] (posts profileData)))
    as [caption_words [-> Hcaptions]].
  destruct (add_all_grows (or_nil (keywords (bio profileData)))
              (add_hashtags [] (posts profileData) ++ caption_words))
    as [bio_words [-> Hbio]].
  exists caption_words, bio_words. rewrite app_assoc.
  repeat split; [assumption|].
  apply Forall_forall. intros y Hy. now apply Hbio.
Qed.

Lemma set_add_NoDup : forall s x, NoDup s -> NoDup (set_add s x).
Proof.
  intros s x Hs. unfold set_add. destruct (set_has x s) eqn:Hhas; [assumption|].
  apply NoDup_app; [assumption | repeat constructor; intros [] |].
  intros y Hy [<- | []].
  apply set_has_In in Hy. congruence.
Qed.

Lemma add_all_NoDup : forall xs s, NoDup s -> NoDup (add_all s xs).
Proof.
  unfold add_all. induction xs as [|x xs IH]; intros s Hs; cbn [fold_left];
    [assumption|].
  apply IH. now apply set_add_NoDup.
Qed.

Lemma fold_add_all_NoDup :
  forall (A : Type) (f : A -> list jsstring) (l : list A) s,
    NoDup s -> NoDup (fold_left (fun s a => add_all s (f a)) l s).
Proof.
  intros A f. induction l as [|a l IH]; intros s Hs; cbn [fold_left];
    [assumption|].
  apply IH. now apply add_all_NoDup.
Qed.

(** X21. The interests are the elements of a [Set]: none of them occurs
    twice. *)
Theorem interests_without_repeats :
  forall profileData, NoDup (extract_interests profileData).
Proof.
  intros profileData.
  unfold extract_interests, add_bio_keywords, add_caption_keywords,
    add_hashtags.
  apply add_all_NoDup.
  apply (fold_add_all_NoDup (fun post => or_nil (keywords (caption post)))).
  apply (fold_add_all_NoDup hashtag_interests).
  constructor.
Qed.

Lemma marked_matches :
  forall (mark : string) text,
    Forall (fun m => exists c word,
              m = c :: word /\ oneof mark c = true
              /\ word <> [] /\ forallb is_word word = true)
           (matches_or_empty [one (oneof mark); plus wordc] text).
Proof.
  intros mark text. unfold matches_or_empty, match_all.
  assert (Hall : Forall (fun m => exists c word,
                    m = c :: word /\ oneof mark c = true
                    /\ word <> [] /\ forallb is_word word = true)
                   (scan_matches [one (oneof mark); plus wordc] text 0)).
  { apply Forall_forall. intros m Hm.
    apply MatchFacts.scan_matches_In in Hm as [t [n [Hmatch ->]]].
    now apply MatchFacts.marked_word. }
  destruct (scan_matches _ text 0); [constructor | exact Hall].
Qed.

Lemma mark_is :
  forall (mark c : codeunit), codes [mark] c = true -> c = mark.
Proof.
  intros mark c Hc. unfold codes in Hc. simpl in Hc.
  rewrite orb_false_r in Hc. now apply N.eqb_eq in Hc.
Qed.

Lemma scraped_hashtags :
  forall text,
    Forall (fun tag => exists word,
              tag = 35%N :: word /\ word <> []
              /\ forallb is_word word = true)
           (matches_or_empty hashtag_re text).
Proof.
  intros text. eapply Forall_impl; [|apply (marked_matches "#")].
  intros tag [c [word [-> [Hc Hword]]]]. exists word.
  apply (mark_is 35%N) in Hc as ->. now split.
Qed.

Lemma scraped_mentions :
  forall text,
    Forall (fun mention => exists word,
              mention = 64%N :: word /\ word <> []
              /\ forallb is_word word = true)
           (matches_or_empty mention_re text).
Proof.
  intros text. eapply Forall_impl; [|apply (marked_matches "@")].
  intros tag [c [word [-> [Hc Hword]]]]. exists word.
  apply (mark_is 64%N) in Hc as ->. now split.
Qed.

(** X22. Every hashtag of a scraped post is a [#] followed by at least
    one word character and nothing else, and every mention is an [@]
    followed by at least one word character and nothing else. *)
Theorem hashtags_and_mentions_are_marked_words :
  forall page,
    Forall (fun tag => exists word,
              tag = 35%N :: word /\ word <> []
              /\ forallb is_word word = true)
           (or_nil (hashtags (postData page)))
    /\ Forall (fun mention => exists word,
                 mention = 64%N :: word /\ word <> []
                 /\ forallb is_word word = true)
              (or_nil (mentions (postData page))).
Proof.
  intros page. unfold postData. cbn [hashtags mentions or_nil].
  split; [apply scraped_hashtags | apply scraped_mentions].
Qed.

Lemma word_is_ascii :
  forall word, forallb is_word word = true ->
               forallb (fun c => N.ltb c 128) word = true.
Proof.
  intros word Hword. rewrite forallb_forall in *. intros c Hc.
  apply Hword in Hc. unfold is_word, is_upper, is_lower, is_digit, in_range in Hc.
  bool_to_prop. lia.
Qed.

Lemma lower_word :
  forall c, is_word c = true -> is_lower_word (ascii_lower c) = true.
Proof.
  intros c. unfold is_word, is_lower_word, ascii_lower, is_upper, is_lower,
    is_digit, in_range.
  destruct (N.leb 65 c && N.leb c 90) eqn:Hupper; intros Hc; bool_to_prop; lia.
Qed.

(** X23. Every interest that comes from a hashtag of a scraped post is a
    non-empty string of lower-case ASCII letters, digits and underscores:
    [slice(1)] removes exactly the [#], and [toLowerCase] acts on ASCII
    text. *)
Theorem scraped_hashtag_interests_are_lower_words :
  forall page,
    Forall (fun interest => interest <> []
                            /\ forallb is_lower_word interest = true)
           (hashtag_interests (postData page)).
Proof.
  intros page. unfold hashtag_interests, postData. cbn [hashtags or_nil].
  apply Forall_map.
  eapply Forall_impl; [|apply scraped_hashtags].
  intros tag [word [-> [Hne Hword]]]. cbn [slice_from skipn].
  rewrite toLowerCase_ascii by now apply word_is_ascii.
  split.
  - destruct word; [congruence | discriminate].
  - apply forallb_forall. intros c Hc.
    apply in_map_iff in Hc as [x [<- Hx]]. apply lower_word.
    rewrite forallb_forall in Hword. now apply Hword.
Qed.

(** Where [/\W+/] matches: not at a word character, and at least one
    code unit elsewhere. *)
Lemma nonword_here :
  forall c s,
    match_here nonword_re (c :: s)
    = if is_word c then None else Some (S (span nonwordc s)).
Proof.
  intros c s. unfold nonword_re. rewrite MatchFacts.plus_last.
  cbn [span]. unfold nonwordc at 1. now destruct (is_word c).
Qed.

Lemma split_loop_words :
  forall s cur skip,
    forallb is_word cur = true ->
    Forall (fun piece => forallb is_word piece = true)
           (split_loop nonword_re s cur skip).
Proof.
  induction s as [|c s IH]; intros cur skip Hcur.
  - cbn [split_loop]. constructor; [|constructor].
    rewrite forallb_forall in *. intros x Hx. apply Hcur.
    now apply in_rev.
  - cbn [split_loop]. destruct skip as [|k]; [|now apply IH].
    rewrite nonword_here. destruct (is_word c) eqn:Hc.
    + apply IH. simpl. now rewrite Hc.
    + constructor; [|now apply IH].
      rewrite forallb_forall in *. intros x Hx. apply Hcur.
      now apply in_rev.
Qed.

Lemma split_words :
  forall s, Forall (fun piece => forallb is_word piece = true)
                   (split nonword_re s).
Proof.
  intros [|c s]; [|now apply split_loop_words].
  unfold split. destruct (match_here nonword_re []); repeat constructor.
Qed.

(** X24. Every keyword taken from a caption or from the biography is
    made of word characters only (ASCII letters, digits, underscore):
    every other character, an accented letter included, separates
    words. *)
Theorem keywords_are_words :
  forall (text : option jsstring) (word : jsstring),
    In word (or_nil (keywords text)) -> forallb is_word word = true.
Proof.
  intros [t|] word Hin; [|destruct Hin].
  apply In_keywords in Hin as [Hin _].
  pose proof (split_words (toLowerCase t)) as Hall.
  rewrite Forall_forall in Hall. now apply Hall.
Qed.

End Extracted.

Lemma keywords_are_words_witness :
  forallb is_word (lit "love") = true.
Proof.
  apply (@keywords_are_words ascii_table (Some (lit "I love my cat"))
           (lit "love")).
  vm_compute. left. reflexivity.
Defined.

(** A word with an accented letter is cut at that letter. *)
Example accent_splits_word :
  @keywords ascii_table (Some (lit "un caf" ++ [233%N] ++ lit "teria"))
  = Some [lit "teria"].
Proof. vm_compute. reflexivity. Qed.

End InterestFacts.
